(** * vocal-bridge-mcp: the memory store, the tool dispatcher, the session
      registry and the workspace path guard of [src/index.js]

    The development follows the layout of the source file:
    - [Js]         the few JavaScript idioms the code relies on
                   (truthiness of strings, [a || b], thrown errors);
    - [Memory]     the SQLite-backed entity/relation store
                   ([memoryStore] ... [memoryGetRelations]);
    - [Dispatch]   the [CallToolRequestSchema] handler of [createMCPServer];
    - [Sessions]   the [sessions] map and the [/mcp] routes;
    - [Filesystem] [resolvePath] and the seven [fs_*] helpers;
    - [Railway]    [railwayGraphQL] and the seven [railway_*] functions;
    - [Supabase]   [supabaseRequest] and the seven [supabase_*] functions,
                   both over the JSON values of [JsValue] and the requests
                   of [Http].
    The properties follow, one module per component ([MemoryTheory],
    [DispatchTheory], [SessionsTheory], [FilesystemTheory], then
    [MemoryMore], [FilesystemMore], [DispatchMore], [SessionsMore],
    [RailwayTheory], [SupabaseTheory]).

    What the platform supplies (the clock, [randomUUID], [JSON.stringify] /
    [JSON.parse], the order in which SQLite yields the rows of an un-ordered
    [SELECT], the foreign-key switch of the SQLite build, the [fs] module)
    is passed in explicitly: as an argument where the code reads it once, as
    a section variable where a whole group of functions depends on it. *)

From Stdlib Require Import List String Ascii Bool Arith Lia Permutation Sorted.
From stdpp Require Import base strings list gmap.
From Stdlib Require QArith.QArith_base DecimalString.
Import ListNotations.

Local Open Scope string_scope.
Local Open Scope list_scope.

(* ===================================================================== *)
(** ** JavaScript idioms                                                  *)
(* ===================================================================== *)

Module Js.

(** A call either returns a value or throws an [Error] with a message. *)
Inductive outcome (A : Type) : Type :=
| Returns (a : A)
| Throws (message : string).
Arguments Returns {A} a.
Arguments Throws {A} message.

(** A string is truthy unless it is empty. *)
Definition truthy (s : string) : bool :=
  match s with EmptyString => false | String _ _ => true end.

(** [x || dflt] where [x] is a string, [null] or [undefined]. *)
Definition or_else (x : option string) (dflt : string) : string :=
  match x with
  | Some s => if truthy s then s else dflt
  | None => dflt
  end.

End Js.

Export Js.

(* ===================================================================== *)
(** ** The memory store                                                   *)
(* ===================================================================== *)

Module Memory.

(** A row of table [entities].  [content] and [metadata] are nullable
    [TEXT] columns; [name] and [type] are [NOT NULL].  The two timestamp
    columns hold [CURRENT_TIMESTAMP] readings, kept here as seconds. *)
Record entity : Type := mkEntity {
  ent_id : string;
  ent_name : string;
  ent_type : string;
  ent_content : option string;
  ent_metadata : option string;
  ent_created_at : nat;
  ent_updated_at : nat
}.

(** A row of table [relations]. *)
Record relation : Type := mkRelation {
  rel_id : string;
  rel_from_entity : string;
  rel_to_entity : string;
  rel_relation_type : string;
  rel_metadata : option string;
  rel_created_at : nat
}.

(** The database file: both tables, each in rowid order. *)
Record db : Type := mkDb {
  entities : list entity;
  relations : list relation
}.

Definition empty_db : db := {| entities := []; relations := [] |}.

(** A row of the three-way join read by [memoryGetRelations]. *)
Record joined : Type := mkJoined {
  j_relation : relation;
  j_from_name : option string;
  j_from_type : option string;
  j_to_name : option string;
  j_to_type : option string
}.

(** Return values of the store's functions. *)
Record stored : Type := mkStored {
  st_id : string; st_name : string; st_type : string; st_created : bool
}.

Record updated_result : Type := mkUpdated { up_id : string; updated : bool }.

Record deleted_result : Type := mkDeleted { deleted : bool }.

Record related : Type := mkRelated { rl_id : string; rl_created : bool }.

Record preview : Type := mkPreview {
  pv_id : string; pv_name : string; pv_type : string;
  pv_content : string; pv_updated_at : nat
}.

Record search_result : Type := mkSearch {
  sr_count : nat; sr_entities : list preview
}.

Record relations_result : Type := mkRelations {
  gr_count : nat; gr_relations : list joined
}.

(** SQL [=] on [TEXT] with the default [BINARY] collation. *)
Definition id_is (q : string) (e : entity) : bool := String.eqb (ent_id e) q.
Definition name_is (q : string) (e : entity) : bool :=
  String.eqb (ent_name e) q.

(** [WHERE r.from_entity = ? OR r.to_entity = ?] *)
Definition touches (q : string) (r : relation) : bool :=
  String.eqb (rel_from_entity r) q || String.eqb (rel_to_entity r) q.

Section Store.

(** [JSON.stringify] and [JSON.parse] on the values used as metadata;
    [JSON_parse] is [None] where the built-in throws a [SyntaxError]. *)
Variable JSON : Type.
Variable JSON_stringify : JSON -> string.
Variable JSON_parse : string -> option JSON.

(** The order in which the engine yields the rows selected by a
    statement that has no [ORDER BY] (or that ties under it).  SQL
    leaves it to the query plan; it is some arrangement of the selected
    rows. *)
Variable entity_scan : list entity -> list entity.
Variable joined_scan : list joined -> list joined.

(** Whether the engine enforces the [FOREIGN KEY] clauses of table
    [relations] (SQLite's [foreign_keys] setting).  The source never issues
    the pragma, so the default of the SQLite build decides: off in stock
    SQLite, on in the build that [better-sqlite3] ships
    ([SQLITE_DEFAULT_FOREIGN_KEYS=1]). *)
Variable foreign_keys : bool.

Record recalled : Type := mkRecalled {
  rc_id : string; rc_name : string; rc_type : string;
  rc_content : option string; rc_metadata : JSON;
  rc_created_at : nat; rc_updated_at : nat
}.

(** [{ found: false }] or [{ found: true, id, name, ... }]. *)
Inductive recall_result : Type :=
| NotFound
| Found (r : recalled).

Definition found (r : recall_result) : bool :=
  match r with NotFound => false | Found _ => true end.

(** [memoryStore]: [INSERT INTO entities (id, name, type, content,
    metadata)], the id drawn from [randomUUID()], both timestamps
    defaulting to the clock.  The primary key rejects a taken id. *)
Definition memoryStore (now : nat) (uuid : string)
    (name type : string) (content : option string) (metadata : JSON)
    (d : db) : outcome stored * db :=
  if existsb (id_is uuid) (entities d)
  then (Throws "UNIQUE constraint failed: entities.id", d)
  else (Returns (mkStored uuid name type true),
        {| entities := entities d ++
             [mkEntity uuid name type content
                (Some (JSON_stringify metadata)) now now];
           relations := relations d |}).

(** [memoryUpdate]: [UPDATE entities SET content = ?, updated_at =
    CURRENT_TIMESTAMP [, metadata = ?] WHERE id = ?]; the metadata
    column is rewritten only when [metadata !== null]. *)
Definition update_row (now : nat) (content : option string)
    (metadata : option JSON) (e : entity) : entity :=
  mkEntity (ent_id e) (ent_name e) (ent_type e) content
    (match metadata with
     | Some m => Some (JSON_stringify m)
     | None => ent_metadata e
     end)
    (ent_created_at e) now.

Definition memoryUpdate (now : nat) (id : string)
    (content : option string) (metadata : option JSON)
    (d : db) : outcome updated_result * db :=
  let changes := length (List.filter (id_is id) (entities d)) in
  (Returns (mkUpdated id (Nat.ltb 0 changes)),
   {| entities :=
        map (fun e => if id_is id e
                      then update_row now content metadata e else e)
            (entities d);
      relations := relations d |}).

(** [memoryRecall]: [SELECT * FROM entities WHERE id = ? OR name = ?],
    first row only ([stmt.get]). *)
Definition recall_rows (nameOrId : string) (d : db) : list entity :=
  entity_scan
    (List.filter (fun e => id_is nameOrId e || name_is nameOrId e)
       (entities d)).

Definition memoryRecall (nameOrId : string) (d : db)
    : outcome recall_result :=
  match head (recall_rows nameOrId d) with
  | None => Returns NotFound
  | Some e =>
      match JSON_parse (or_else (ent_metadata e) "{}") with
      | None => Throws "SyntaxError"
      | Some m =>
          Returns (Found (mkRecalled (ent_id e) (ent_name e) (ent_type e)
                            (ent_content e) m
                            (ent_created_at e) (ent_updated_at e)))
      end
  end.

(** SQLite's [LIKE]: [%] matches any run of characters, [_] any single
    character, every other character matches itself up to the case of the
    ASCII letters.  No [ESCAPE] clause is given, so the two wildcards cannot
    be quoted. *)
Definition is_upper (c : ascii) : bool :=
  (65 <=? nat_of_ascii c)%nat && (nat_of_ascii c <=? 90)%nat.

Definition to_lower (c : ascii) : ascii :=
  if is_upper c then ascii_of_nat (nat_of_ascii c + 32) else c.

Definition eq_nocase (a b : ascii) : bool :=
  Ascii.eqb (to_lower a) (to_lower b).


Fixpoint like (pattern text : string) {struct pattern} : bool :=
  match pattern with
  | EmptyString =>
      match text with EmptyString => true | String _ _ => false end
  | String c pattern' =>
      if Ascii.eqb c "%" then
        (fix star (t : string) : bool :=
           like pattern' t ||
           match t with
           | EmptyString => false
           | String _ t' => star t'
           end) text
      else
        match text with
        | EmptyString => false
        | String d text' =>
            (Ascii.eqb c "_" || eq_nocase c d) && like pattern' text'
        end
  end.

(** [x LIKE ?] on a nullable column: [NULL LIKE p] is [NULL], which a
    [WHERE] clause treats as false. *)
Definition like_nullable (pattern : string) (x : option string) : bool :=
  match x with Some s => like pattern s | None => false end.

(** [(name LIKE ? OR content LIKE ?) [AND type = ?]], both patterns being
    [`%${query}%`]; the type test is added only when [type] is truthy. *)
Definition search_where (query : string) (type : option string)
    (e : entity) : bool :=
  let pattern := "%" +:+ query +:+ "%" in
  (like pattern (ent_name e) || like_nullable pattern (ent_content e)) &&
  match type with
  | Some t => if truthy t then String.eqb (ent_type e) t else true
  | None => true
  end.

(** [ORDER BY updated_at DESC]: a stable insertion sort, so that rows tied
    on [updated_at] stay in the order the scan produced them. *)
Fixpoint insert_desc (e : entity) (l : list entity) : list entity :=
  match l with
  | [] => [e]
  | x :: l' =>
      if (ent_updated_at x <=? ent_updated_at e)%nat
      then e :: l
      else x :: insert_desc e l'
  end.

Definition order_by_updated_desc (l : list entity) : list entity :=
  fold_right insert_desc [] l.

(** [e.content?.substring(0, 200) + (e.content?.length > 200 ? '...' : '')];
    on a [NULL] content the left operand is [undefined], which [+] turns
    into the text "undefined". *)
Definition preview_content (content : option string) : string :=
  match content with
  | Some c =>
      String.substring 0 200 c +:+
      (if (200 <? String.length c)%nat then "..." else "")
  | None => "undefined"
  end.

Definition preview_of (e : entity) : preview :=
  mkPreview (ent_id e) (ent_name e) (ent_type e)
    (preview_content (ent_content e)) (ent_updated_at e).

(** [AND type = ?], added only when [type] is truthy. *)
Definition type_is (type : option string) (e : entity) : bool :=
  match type with
  | Some t => if truthy t then String.eqb (ent_type e) t else true
  | None => true
  end.

(** SQLite refuses a [LIKE] pattern of more than 50000 bytes
    ([SQLITE_MAX_LIKE_PATTERN_LENGTH]).  It does so when it evaluates the
    [LIKE], that is on the first row the statement examines: any row of
    the table, or, with a type, any row the index on [type] yields.  The
    pattern is handed over in UTF-8: one byte for an ASCII character, two
    for any other character a [string] holds. *)
Fixpoint utf8_length (s : string) : Z :=
  match s with
  | EmptyString => 0
  | String c s' =>
      ((if (nat_of_ascii c <? 128)%nat then 1 else 2) + utf8_length s')%Z
  end.

Definition pattern_too_long (pattern : string) : bool :=
  (50000 <? utf8_length pattern)%Z.

(** [memorySearch]: the statement above with [ORDER BY updated_at DESC
    LIMIT 50], read with [stmt.all]. *)
Definition search_rows (query : string) (type : option string) (d : db)
    : list entity :=
  firstn 50
    (order_by_updated_desc
       (entity_scan (List.filter (search_where query type) (entities d)))).

Definition memorySearch (query : string) (type : option string) (d : db)
    : outcome search_result :=
  let pattern := "%" +:+ query +:+ "%" in
  if pattern_too_long pattern && existsb (type_is type) (entities d)
  then Throws "LIKE or GLOB pattern too complex"
  else
    let rows := search_rows query type d in
    Returns (mkSearch (length rows) (map preview_of rows)).

(** [memoryList]: [SELECT * FROM entities [WHERE type = ?] ORDER BY
    updated_at DESC LIMIT ?]; a negative [LIMIT] means no limit. *)
Record listed : Type := mkListedEntity {
  ls_id : string; ls_name : string; ls_type : string; ls_updated_at : nat
}.

Record list_result : Type := mkList {
  lr_count : nat; lr_entities : list listed
}.

(** [limit] is a JavaScript number, bound as it is.  [LIMIT] wants an
    integer: the engine takes the number as one when it has no fractional
    part and lies strictly between -2^63 and 2^63, and fails the statement
    otherwise, whatever the table holds. *)
Definition limit_value (limit : QArith_base.Q) : option Z :=
  let n := QArith_base.Qnum limit in
  let k := Z.pos (QArith_base.Qden limit) in
  if ((n mod k =? 0) && (- 2 ^ 63 <? n / k) && (n / k <? 2 ^ 63))%Z
  then Some (n / k)%Z
  else None.

Definition memoryList (type : option string) (limit : QArith_base.Q)
    (d : db) : outcome list_result :=
  match limit_value limit with
  | None => Throws "datatype mismatch"
  | Some count =>
      let selected :=
        List.filter
          (fun e => match type with
                    | Some t => if truthy t then String.eqb (ent_type e) t
                                else true
                    | None => true
                    end)
          (entities d) in
      let ordered := order_by_updated_desc (entity_scan selected) in
      let rows := if (count <? 0)%Z then ordered
                  else firstn (Z.to_nat count) ordered in
      Returns
        (mkList (length rows)
           (map (fun e => mkListedEntity (ent_id e) (ent_name e) (ent_type e)
                            (ent_updated_at e)) rows))
  end.

(** [memoryDelete]: [DELETE FROM entities WHERE id = ?].  With foreign keys
    enforced, removing a row that a relation still references fails the
    statement (the clauses carry no [ON DELETE] action). *)
Definition memoryDelete (id : string) (d : db)
    : outcome deleted_result * db :=
  let changes := length (List.filter (id_is id) (entities d)) in
  if foreign_keys && Nat.ltb 0 changes && existsb (touches id) (relations d)
  then (Throws "FOREIGN KEY constraint failed", d)
  else (Returns (mkDeleted (Nat.ltb 0 changes)),
        {| entities := List.filter (fun e => negb (id_is id e)) (entities d);
           relations := relations d |}).

(** [memoryRelate]: [INSERT INTO relations (id, from_entity, to_entity,
    relation_type, metadata)], the id drawn from [randomUUID()].  With
    foreign keys enforced both endpoints must be ids of entities. *)
Definition memoryRelate (now : nat) (uuid : string)
    (fromId toId relationType : string) (metadata : JSON) (d : db)
    : outcome related * db :=
  if existsb (fun r => String.eqb (rel_id r) uuid) (relations d)
  then (Throws "UNIQUE constraint failed: relations.id", d)
  else if foreign_keys &&
          negb (existsb (id_is fromId) (entities d) &&
                existsb (id_is toId) (entities d))
  then (Throws "FOREIGN KEY constraint failed", d)
  else (Returns (mkRelated uuid true),
        {| entities := entities d;
           relations := relations d ++
             [mkRelation uuid fromId toId relationType
                (Some (JSON_stringify metadata)) now] |}).

(** [LEFT JOIN entities e ON r.<endpoint> = e.id]: one output row per
    matching entity, and one all-[NULL] row when nothing matches. *)
Definition left_join (endpoint : string) (es : list entity)
    : list (option entity) :=
  match List.filter (id_is endpoint) es with
  | [] => [None]
  | m => map Some m
  end.

Definition join_rows (d : db) : list joined :=
  flat_map (fun r =>
    flat_map (fun e1 =>
      map (fun e2 =>
             mkJoined r (option_map ent_name e1) (option_map ent_type e1)
                        (option_map ent_name e2) (option_map ent_type e2))
          (left_join (rel_to_entity r) (entities d)))
      (left_join (rel_from_entity r) (entities d)))
    (relations d).

(** [memoryGetRelations]: the join restricted by
    [WHERE r.from_entity = ? OR r.to_entity = ?], read with [stmt.all]. *)
Definition memoryGetRelations (entityId : string) (d : db)
    : relations_result :=
  let rows :=
    joined_scan
      (List.filter (fun j => touches entityId (j_relation j)) (join_rows d))
  in mkRelations (length rows) rows.

End Store.

Arguments NotFound {JSON}.
Arguments Found {JSON} r.
Arguments found {JSON} r.
Arguments mkRecalled {JSON}.
Arguments rc_id {JSON} r.
Arguments rc_name {JSON} r.
Arguments rc_type {JSON} r.
Arguments rc_content {JSON} r.
Arguments rc_metadata {JSON} r.
Arguments rc_created_at {JSON} r.
Arguments rc_updated_at {JSON} r.
Arguments memoryStore {JSON} JSON_stringify now uuid name type content
  metadata d.
Arguments memoryUpdate {JSON} JSON_stringify now id content metadata d.
Arguments memoryRecall {JSON} JSON_parse entity_scan nameOrId d.
Arguments memoryRelate {JSON} JSON_stringify foreign_keys now uuid fromId
  toId relationType metadata d.

(** *** Case-insensitive substring match, as a search result is described

    [occurs_nocase q s]: some run of characters of [s] equals [q] up to the
    case of the ASCII letters. *)
Fixpoint prefix_nocase (q s : string) : bool :=
  match q with
  | EmptyString => true
  | String c q' =>
      match s with
      | EmptyString => false
      | String d s' => eq_nocase c d && prefix_nocase q' s'
      end
  end.

Fixpoint occurs_nocase (q s : string) : bool :=
  prefix_nocase q s ||
  match s with
  | EmptyString => false
  | String _ s' => occurs_nocase q s'
  end.

Fixpoint lower (s : string) : string :=
  match s with
  | EmptyString => EmptyString
  | String c s' => String (to_lower c) (lower s')
  end.




(** Most recently updated first. *)
Definition newest_first (l : list nat) : Prop :=
  StronglySorted (fun a b => b <= a) l.

(** *** What the store expects of the platform *)

(** [JSON.parse] undoes [JSON.stringify], whose output is never the empty
    string. *)
Definition codec_ok {JSON : Type} (JSON_stringify : JSON -> string)
    (JSON_parse : string -> option JSON) : Prop :=
  (forall m, JSON_parse (JSON_stringify m) = Some m) /\
  (forall m, JSON_stringify m <> "").

(** The engine yields the selected rows, each once, in some order. *)
Definition arranges {A} (scan : list A -> list A) : Prop :=
  forall l, Permutation (scan l) l.

(** [randomUUID()] returned a string that occurs nowhere in table
    [entities], neither as an id nor as a name. *)
Definition fresh_uuid (uuid : string) (d : db) : Prop :=
  forall e, In e (entities d) -> ent_id e <> uuid /\ ent_name e <> uuid.

(** The row has the given id or the given name. *)
Definition matches (q : string) (e : entity) : Prop :=
  ent_id e = q \/ ent_name e = q.

(** Rows in rowid order: a name that repeats an id belongs to a row stored
    after the row with that id.  [randomUUID()] draws ids that no earlier
    row can name, so the table keeps this shape. *)
Fixpoint ids_precede_names (es : list entity) : Prop :=
  match es with
  | [] => True
  | e :: rest =>
      (forall e', In e' rest -> ent_id e' <> ent_name e) /\
      ids_precede_names rest
  end.

(** A scan of a table yields its rows in rowid order. *)
Definition table_scan {A} (l : list A) : list A := l.

(** How SQLite answers [WHERE id = ? OR name = ?] on this schema, which
    has an index for either column: a probe of the primary-key index,
    then a probe of the index on [name] for the rows not yet seen, these
    in rowid order. *)
Definition index_probes (q : string) (l : list entity) : list entity :=
  List.filter (id_is q) l ++ List.filter (fun e => negb (id_is q e)) l.

(** A row at least as recently updated as another. *)
Definition newer_or_same (a b : entity) : Prop :=
  ent_updated_at b <= ent_updated_at a.

End Memory.

(* ===================================================================== *)
(** ** The tool dispatcher                                                *)
(* ===================================================================== *)

Module Dispatch.

(** The cases of the [switch (name)] in the [CallToolRequestSchema]
    handler. *)
Inductive tool : Type :=
| fs_write_file | fs_read_file | fs_edit_file | fs_delete_file
| fs_create_directory | fs_list_directory | fs_directory_tree
| memory_store | memory_update | memory_recall | memory_search
| memory_list | memory_delete | memory_relate | memory_get_relations
| railway_list_projects | railway_create_project | railway_create_service
| railway_deploy | railway_generate_domain | railway_set_variables
| railway_get_deployments
| supabase_list_projects | supabase_get_project | supabase_create_project
| supabase_list_organizations | supabase_run_sql | supabase_list_tables
| supabase_create_table.

(** The names announced by the [ListToolsRequestSchema] handler, in the
    order of the listing. *)
Definition registered_tools : list string :=
  [ "fs_write_file"; "fs_read_file"; "fs_edit_file"; "fs_delete_file";
    "fs_create_directory"; "fs_list_directory"; "fs_directory_tree";
    "memory_store"; "memory_update"; "memory_recall"; "memory_search";
    "memory_list"; "memory_delete"; "memory_relate"; "memory_get_relations";
    "railway_list_projects"; "railway_create_project";
    "railway_create_service"; "railway_deploy"; "railway_generate_domain";
    "railway_set_variables"; "railway_get_deployments";
    "supabase_list_projects"; "supabase_get_project";
    "supabase_create_project"; "supabase_list_organizations";
    "supabase_run_sql"; "supabase_list_tables"; "supabase_create_table" ].

(** The [case] labels, top to bottom. *)
Definition cases : list (string * tool) :=
  [ ("fs_write_file", fs_write_file); ("fs_read_file", fs_read_file);
    ("fs_edit_file", fs_edit_file); ("fs_delete_file", fs_delete_file);
    ("fs_create_directory", fs_create_directory);
    ("fs_list_directory", fs_list_directory);
    ("fs_directory_tree", fs_directory_tree);
    ("memory_store", memory_store); ("memory_update", memory_update);
    ("memory_recall", memory_recall); ("memory_search", memory_search);
    ("memory_list", memory_list); ("memory_delete", memory_delete);
    ("memory_relate", memory_relate);
    ("memory_get_relations", memory_get_relations);
    ("railway_list_projects", railway_list_projects);
    ("railway_create_project", railway_create_project);
    ("railway_create_service", railway_create_service);
    ("railway_deploy", railway_deploy);
    ("railway_generate_domain", railway_generate_domain);
    ("railway_set_variables", railway_set_variables);
    ("railway_get_deployments", railway_get_deployments);
    ("supabase_list_projects", supabase_list_projects);
    ("supabase_get_project", supabase_get_project);
    ("supabase_create_project", supabase_create_project);
    ("supabase_list_organizations", supabase_list_organizations);
    ("supabase_run_sql", supabase_run_sql);
    ("supabase_list_tables", supabase_list_tables);
    ("supabase_create_table", supabase_create_table) ].

(** [switch] compares the scrutinee with each label in turn by strict
    equality and falls to [default] when none is equal. *)
Fixpoint switch {A : Type} (labels : list (string * A)) (name : string)
    : option A :=
  match labels with
  | [] => None
  | (label, a) :: rest =>
      if String.eqb name label then Some a else switch rest name
  end.

(** One entry of a tool result's [content] array. *)
Record content_item : Type := mkItem { item_type : string; text : string }.

(** The object the handler returns; [isError] is [false] where the
    property is left out. *)
Record tool_result : Type := mkResult {
  content : list content_item;
  isError : bool
}.

(** [s] occurs in [t]. *)
Definition mentions (t s : string) : Prop :=
  exists before after, t = before +:+ s +:+ after.

Section Handler.

(** The process state the tool bodies act on and the [arguments] object. *)
Variable world : Type.
Variable arguments : Type.

(** The right-hand side of each case followed by
    [JSON.stringify(result, null, 2)]: the text of the result, or the error
    thrown on the way. *)
Variable body : tool -> arguments -> world -> outcome string * world.

(** The [try] block. *)
Definition try_block (name : string) (args : arguments) (w : world)
    : outcome string * world :=
  match switch cases name with
  | Some t => body t args w
  | None => (Throws ("Unknown tool: " +:+ name), w)
  end.

(** The handler: the [try] block, with [catch (error)] turning a thrown
    error into an error-flagged result. *)
Definition call_tool (name : string) (args : arguments) (w : world)
    : outcome tool_result * world :=
  let '(r, w') := try_block name args w in
  (match r with
   | Returns text => Returns (mkResult [mkItem "text" text] false)
   | Throws message =>
       Returns (mkResult [mkItem "text" ("Error: " +:+ message)] true)
   end, w').

End Handler.

End Dispatch.

(* ===================================================================== *)
(** ** The session registry                                               *)
(* ===================================================================== *)

Module Sessions.

(** A value of the [sessions] map: the two objects created for the session,
    each known by its identity. *)
Record session : Type := mkSession { transport : nat; server : nat }.

(** The locals of one run of the creation branch of [app.post('/mcp')]:
    [sessionId] and the pair captured by the [onsessioninitialized]
    closure. *)
Record creation : Type := mkCreation {
  c_sessionId : string;
  c_session : session
}.

(** [sessions], the next free object identity, and every creation begun so
    far (its closure outlives the request). *)
Record state : Type := mkState {
  sessions : gmap string session;
  next_object : nat;
  creations : list creation
}.

Definition init : state := mkState ∅ 0 [].

(** [sessionId && sessions.has(sessionId)], then [sessions.get]. *)
Definition resolve (header : option string) (st : state) : option session :=
  match header with
  | Some id => if truthy id then sessions st !! id else None
  | None => None
  end.

(** The creation branch up to [await server.connect(transport)]:
    [randomUUID()], [createMCPServer()],
    [new StreamableHTTPServerTransport(...)]. *)
Definition post_create (uuid : string) (st : state) : creation * state :=
  let c := mkCreation uuid
             (mkSession (S (next_object st)) (next_object st)) in
  (c, mkState (sessions st) (S (S (next_object st))) (creations st ++ [c])).

(** [sessions.set(sessionId, { transport, server })] after the [await]. *)
Definition post_bind (c : creation) (st : state) : state :=
  mkState (<[c_sessionId c := c_session c]> (sessions st))
          (next_object st) (creations st).

(** The [onsessioninitialized] callback; the transport passes it the value
    of [sessionIdGenerator()], which is the closure's [sessionId]. *)
Definition on_session_initialized (c : creation) (st : state) : state :=
  mkState (<[c_sessionId c := c_session c]> (sessions st))
          (next_object st) (creations st).

(** [app.post('/mcp')] run without interruption: the session id sent back
    in [Mcp-Session-Id] and the pair whose transport handles the request. *)
Definition post_mcp (header : option string) (uuid : string) (st : state)
    : (string * session) * state :=
  match header, resolve header st with
  | Some id, Some s => ((id, s), st)
  | _, _ =>
      let '(c, st1) := post_create uuid st in
      ((c_sessionId c, c_session c), post_bind c st1)
  end.

(** [app.delete('/mcp')]: the status code and the registry afterwards. *)
Definition delete_mcp (header : option string) (st : state) : nat * state :=
  match header, resolve header st with
  | Some id, Some _ =>
      (200, mkState (delete id (sessions st)) (next_object st) (creations st))
  | _, _ => (404, st)
  end.

(** What the event loop can run between two suspension points. *)
Inductive step : Type :=
| Post (header : option string) (uuid : string)
    (* a POST up to its first [await]: resolves a live id, or starts a
       creation *)
| Bind (k : nat)
    (* the [k]-th creation resumes after [server.connect] *)
| Initialized (k : nat)
    (* the transport of the [k]-th creation reports its session *)
| Delete (header : option string).

Definition exec (a : step) (st : state) : state :=
  match a with
  | Post header uuid =>
      match resolve header st with
      | Some _ => st
      | None => snd (post_create uuid st)
      end
  | Bind k =>
      match nth_error (creations st) k with
      | Some c => post_bind c st
      | None => st
      end
  | Initialized k =>
      match nth_error (creations st) k with
      | Some c => on_session_initialized c st
      | None => st
      end
  | Delete header => snd (delete_mcp header st)
  end.

Definition run (l : list step) (st : state) : state :=
  fold_left (fun s a => exec a s) l st.

(** The ids handed out so far. *)
Definition minted (st : state) : list string :=
  map c_sessionId (creations st).

(** What reaches the process from outside: a POST arrives, the [await] of
    the [k]-th creation ends, the transport of the [k]-th creation reports
    its session, a DELETE arrives.  No event carries a new id: the id of a
    creation is what [randomUUID()] returns to it, [uuid_of n] for the
    creation that follows [n] others. *)
Inductive event : Type :=
| Arrive (header : option string)
| Resume (k : nat)
| Report (k : nat)
| Close (header : option string).

Definition step_of (uuid_of : nat -> string) (e : event) (st : state)
    : step :=
  match e with
  | Arrive header => Post header (uuid_of (length (creations st)))
  | Resume k => Bind k
  | Report k => Initialized k
  | Close header => Delete header
  end.

Fixpoint play (uuid_of : nat -> string) (events : list event) (st : state)
    : state :=
  match events with
  | [] => st
  | e :: rest => play uuid_of rest (exec (step_of uuid_of e st) st)
  end.

(** The creations so far drew the first values of [uuid_of], in turn. *)
Definition drawn_in_turn (uuid_of : nat -> string) (st : state) : Prop :=
  minted st = map uuid_of (seq 0 (length (creations st))).

(** [randomUUID] as the code relies on it: a non-empty string that was not
    handed out before. *)
Fixpoint collision_free (l : list step) (st : state) : Prop :=
  match l with
  | [] => True
  | a :: l' =>
      match a with
      | Post header uuid =>
          match resolve header st with
          | Some _ => True
          | None => uuid <> "" /\ ~ In uuid (minted st)
          end
      | _ => True
      end /\ collision_free l' (exec a st)
  end.

(** What holds of every state the routes can reach: the ids handed out are
    distinct and non-empty, an id is mapped to the pair made for it, and the
    [k]-th creation owns the objects [2k] and [2k+1]. *)
Definition coherent (st : state) : Prop :=
  List.NoDup (minted st) /\
  (forall c, In c (creations st) -> c_sessionId c <> "") /\
  (forall id s, sessions st !! id = Some s ->
                In (mkCreation id s) (creations st)) /\
  next_object st = 2 * length (creations st) /\
  (forall k c, nth_error (creations st) k = Some c ->
               c_session c = mkSession (2 * k + 1) (2 * k)).

End Sessions.

(* ===================================================================== *)
(** ** The workspace file helpers                                         *)
(* ===================================================================== *)

Module Filesystem.

(** [fs.Dirent] as far as the code reads it. *)
Record dirent : Type := mkDirent { d_name : string; d_isDirectory : bool }.

(** [fs.Stats] as far as the code reads it; [mtime] already in ISO form. *)
Record stats : Type := mkStats { s_size : nat; s_mtime : string }.

(** An element of [listDirectory]'s [items]. *)
Record item : Type := mkListed {
  i_name : string; i_type : string; i_size : nat; i_modified : string
}.

#[local] Set Warnings "-register-all".

(** An element of [buildTree]'s result; [children] is set only on a
    directory above the depth limit. *)
Inductive tree_item : Type :=
| TreeItem (name type : string) (children : option (list tree_item)).

(** What the seven helpers return. *)
Inductive fs_result : Type :=
| Written (path : string) (size : nat)
| FileContent (content path : string) (size : nat)
| Succeeded (path : string)
| Listing (path : string) (items : list item)
| Tree (path : string) (tree : option (list tree_item)).

(** The [arguments] of the seven [fs_*] tools. *)
Inductive fs_call : Type :=
| WriteFile (path content : string)
| ReadFile (path : string)
| EditFile (path old_text new_text : string)
| DeleteFile (path : string)
| CreateDirectory (path : string)
| ListDirectory (path : option string)
| DirectoryTree (path : option string) (max_depth : option Z).

Definition kind (isDirectory : bool) : string :=
  if isDirectory then "directory" else "file".

Section Fs.

(** The file system the process runs on, and the calls of [fs/promises]
    the helpers make.  Each may change the file system and may reject. *)
Variable FS : Type.
Variable fs_mkdir : string -> FS -> outcome unit * FS.
Variable fs_writeFile : string -> string -> FS -> outcome unit * FS.
Variable fs_readFile : string -> FS -> outcome string * FS.
Variable fs_stat : string -> FS -> outcome stats * FS.
Variable fs_unlink : string -> FS -> outcome unit * FS.
Variable fs_readdir : string -> FS -> outcome (list dirent) * FS.

(** [path.resolve], [path.dirname], [path.join]. *)
Variable path_resolve : string -> string -> string.
Variable path_dirname : string -> string.
Variable path_join : string -> string -> string.

(** [String.prototype.includes] and [String.prototype.replace]. *)
Variable includes : string -> string -> bool.
Variable replace : string -> string -> string -> string.

Variable WORKSPACE_DIR : string.

(** An [async] helper: it runs on the file system and fulfils or rejects. *)
Definition M (A : Type) : Type := FS -> outcome A * FS.

Definition ret {A} (a : A) : M A := fun w => (Returns a, w).

Definition throw {A} (message : string) : M A := fun w => (Throws message, w).

Definition bind {A B} (m : M A) (k : A -> M B) : M B :=
  fun w =>
    match m w with
    | (Returns a, w') => k a w'
    | (Throws message, w') => (Throws message, w')
    end.

Notation "'await' x ':=' m 'in' k" := (bind m (fun x => k))
  (at level 10, x name, m at level 100, k at level 200).
Notation "'wait' m 'in' k" := (bind m (fun _ => k))
  (at level 10, m at level 100, k at level 200).

(** [Promise.all] over calls that were all started: every one runs, and the
    first rejection (in list order) is the result. *)
Fixpoint promise_all {A} (l : list (M A)) : M (list A) :=
  fun w =>
    match l with
    | [] => (Returns [], w)
    | m :: l' =>
        let '(r, w1) := m w in
        let '(rs, w2) := promise_all l' w1 in
        (match r, rs with
         | Returns a, Returns rest => Returns (a :: rest)
         | Throws message, _ => Throws message
         | Returns _, Throws message => Throws message
         end, w2)
    end.

(** [resolvePath]. *)
Definition resolvePath (filePath : string) : M string :=
  let resolved := path_resolve WORKSPACE_DIR filePath in
  if negb (String.prefix WORKSPACE_DIR resolved)
  then throw "Access denied: Path is outside workspace"
  else ret resolved.

Definition writeFile (filePath content : string) : M fs_result :=
  await fullPath := resolvePath filePath in
  wait fs_mkdir (path_dirname fullPath) in
  wait fs_writeFile fullPath content in
  ret (Written filePath (String.length content)).

Definition readFile (filePath : string) : M fs_result :=
  await fullPath := resolvePath filePath in
  await content := fs_readFile fullPath in
  await st := fs_stat fullPath in
  ret (FileContent content filePath (s_size st)).

Definition editFile (filePath oldText newText : string) : M fs_result :=
  await fullPath := resolvePath filePath in
  await content := fs_readFile fullPath in
  if negb (includes content oldText)
  then throw "Old text not found in file"
  else
    wait fs_writeFile fullPath (replace content oldText newText) in
    ret (Succeeded filePath).

Definition deleteFile (filePath : string) : M fs_result :=
  await fullPath := resolvePath filePath in
  wait fs_unlink fullPath in
  ret (Succeeded filePath).

Definition createDirectory (dirPath : string) : M fs_result :=
  await fullPath := resolvePath dirPath in
  wait fs_mkdir fullPath in
  ret (Succeeded dirPath).

Definition listDirectory (dirPath : string) : M fs_result :=
  await fullPath := resolvePath dirPath in
  await entries := fs_readdir fullPath in
  await items := promise_all
             (map (fun entry =>
                     await st := fs_stat (path_join fullPath (d_name entry)) in
                     ret (mkListed (d_name entry)
                            (kind (d_isDirectory entry))
                            (s_size st) (s_mtime st)))
                  entries) in
  ret (Listing dirPath items).

(** [buildTree(currentPath, depth)] with [below = maxDepth - depth] levels
    still allowed underneath; the entries are visited in turn. *)
Fixpoint buildTree (below : nat) (currentPath : string)
    : M (list tree_item) :=
  await entries := fs_readdir currentPath in
  (fix visit (es : list dirent) : M (list tree_item) :=
     match es with
     | [] => ret []
     | entry :: es' =>
         await children :=
           match below with
           | S below' =>
               if d_isDirectory entry
               then await c := buildTree below'
                           (path_join currentPath (d_name entry)) in
                    ret (Some c)
               else ret None
           | O => ret None
           end in
         await rest := visit es' in
         ret (TreeItem (d_name entry) (kind (d_isDirectory entry)) children
              :: rest)
     end) entries.

(** [getDirectoryTree]; [buildTree(fullPath, 0)] is [null] when
    [0 > maxDepth]. *)
Definition getDirectoryTree (dirPath : string) (maxDepth : Z)
    : M fs_result :=
  await fullPath := resolvePath dirPath in
  if (maxDepth <? 0)%Z
  then ret (Tree dirPath None)
  else
    await t := buildTree (Z.to_nat maxDepth) fullPath in
    ret (Tree dirPath (Some t)).

(** [args.max_depth || 3]: a missing or zero depth gives 3. *)
Definition depth_or_default (max_depth : option Z) : Z :=
  match max_depth with
  | Some 0%Z | None => 3%Z
  | Some n => n
  end.

(** The seven [fs_*] cases of the dispatcher. *)
Definition fs_tool (c : fs_call) : M fs_result :=
  match c with
  | WriteFile path content => writeFile path content
  | ReadFile path => readFile path
  | EditFile path old_text new_text => editFile path old_text new_text
  | DeleteFile path => deleteFile path
  | CreateDirectory path => createDirectory path
  | ListDirectory path => listDirectory (or_else path ".")
  | DirectoryTree path max_depth =>
      getDirectoryTree (or_else path ".") (depth_or_default max_depth)
  end.

(** The path a call hands to its helper. *)
Definition path_argument (c : fs_call) : string :=
  match c with
  | WriteFile path _ | ReadFile path | EditFile path _ _
  | DeleteFile path | CreateDirectory path => path
  | ListDirectory path | DirectoryTree path _ => or_else path "."
  end.

(** [resolved.startsWith(WORKSPACE_DIR)] for the path of a call. *)
Definition inside (c : fs_call) : bool :=
  String.prefix WORKSPACE_DIR (path_resolve WORKSPACE_DIR (path_argument c)).

End Fs.

(** *** A file system that records the calls made on it *)

Inductive fs_event : Type :=
| Mkdir (path : string)
| WriteFileAt (path content : string)
| ReadFileAt (path : string)
| Stat (path : string)
| Unlink (path : string)
| Readdir (path : string).

Definition log : Type := list fs_event.

Definition record {A} (e : fs_event) (a : A) (w : log) : outcome A * log :=
  (Returns a, w ++ [e]).

(** [path.resolve(base, p)] on POSIX for an absolute [base]: the rightmost
    absolute argument wins, then [.], [..] and empty segments are folded
    away. *)
Fixpoint split_on (sep : ascii) (s : string) : list string :=
  match s with
  | EmptyString => [EmptyString]
  | String c s' =>
      if Ascii.eqb c sep then EmptyString :: split_on sep s'
      else match split_on sep s' with
           | [] => [String c EmptyString]
           | x :: xs => String c x :: xs
           end
  end.

Definition fold_segment (stack : list string) (seg : string) : list string :=
  if String.eqb seg "" || String.eqb seg "." then stack
  else if String.eqb seg ".." then tl stack
  else seg :: stack.

Definition absolute (segs : list string) : string :=
  match segs with
  | [] => "/"
  | _ => String.concat "" (map (fun seg => "/" +:+ seg) segs)
  end.

Definition normalize (full : string) : list string :=
  rev (fold_left fold_segment (split_on "/" full) []).

Definition posix_resolve (base p : string) : string :=
  absolute (normalize (if String.prefix "/" p then p
                       else base +:+ "/" +:+ p)).

(** [path.join] and [path.dirname] on absolute paths. *)
Definition posix_join (a b : string) : string :=
  absolute (normalize (a +:+ "/" +:+ b)).

Definition posix_dirname (p : string) : string :=
  absolute (removelast (normalize p)).

(** [content.includes(sub)], and [content.replace(old, new)] for a
    replacement text without [$] patterns: the first occurrence only. *)
Fixpoint string_includes (content sub : string) : bool :=
  String.prefix sub content ||
  match content with
  | EmptyString => false
  | String _ rest => string_includes rest sub
  end.

Fixpoint skip (n : nat) (s : string) : string :=
  match n, s with
  | S n', String _ s' => skip n' s'
  | _, _ => s
  end.

Fixpoint replace_first (content old new : string) : string :=
  if String.prefix old content
  then new +:+ skip (String.length old) content
  else match content with
       | EmptyString => EmptyString
       | String c rest => String c (replace_first rest old new)
       end.

(** The seven tools over the recording file system, in the workspace
    [workspace]; directories read as empty and files as empty texts. *)
Definition recorded (workspace : string) (c : fs_call)
    : log -> outcome fs_result * log :=
  fs_tool log
    (fun p => record (Mkdir p) tt)
    (fun p content => record (WriteFileAt p content) tt)
    (fun p => record (ReadFileAt p) "")
    (fun p => record (Stat p) (mkStats 0 "1970-01-01T00:00:00.000Z"))
    (fun p => record (Unlink p) tt)
    (fun p => record (Readdir p) [])
    posix_resolve posix_dirname posix_join string_includes replace_first
    workspace c.

End Filesystem.

(* ===================================================================== *)
(** ** A fragment of JSON                                                 *)
(* ===================================================================== *)

(** The literals of JSON that need no tokenizer, with [JSON.stringify] and
    [JSON.parse] restricted to them.  They instantiate the codec the memory
    store is parameterised by. *)
Module JsonLiterals.

Inductive literal : Type :=
| EmptyObject
| EmptyArray
| Null
| Bool (b : bool).

Definition stringify (v : literal) : string :=
  match v with
  | EmptyObject => "{}"
  | EmptyArray => "[]"
  | Null => "null"
  | Bool true => "true"
  | Bool false => "false"
  end.

Definition parse (s : string) : option literal :=
  if String.eqb s "{}" then Some EmptyObject
  else if String.eqb s "[]" then Some EmptyArray
  else if String.eqb s "null" then Some Null
  else if String.eqb s "true" then Some (Bool true)
  else if String.eqb s "false" then Some (Bool false)
  else None.

End JsonLiterals.

(* ===================================================================== *)
(** ** Sample data                                                        *)
(* ===================================================================== *)

Module Samples.

Import Memory.

(** One entity, as [store("cfg", "project", ...)] leaves it. *)
Definition cfg : entity :=
  mkEntity "id-1" "cfg" "project" (Some "a=1") (Some "{}") 10 10.

Definition one_entity : db := {| entities := [cfg]; relations := [] |}.

(** Two entities, the name of the first being the id of the second. *)
Definition shadowing : db :=
  {| entities :=
       [ mkEntity "a" "b" "note" (Some "first") (Some "{}") 1 1;
         mkEntity "b" "c" "note" (Some "second") (Some "{}") 2 2 ];
     relations := [] |}.

(** Two entities and a relation from the first to the second. *)
Definition n1 : entity := mkEntity "A" "n1" "t" (Some "c1") (Some "{}") 1 1.
Definition n2 : entity := mkEntity "B" "n2" "t" (Some "c2") (Some "{}") 2 2.
Definition depends_on : relation :=
  mkRelation "R" "A" "B" "depends_on" (Some "{}") 3.

Definition linked : db :=
  {| entities := [n1; n2]; relations := [depends_on] |}.


(** Four notes, two of them updated within the same second. *)
Definition notes : db :=
  {| entities :=
       [ mkEntity "id-1" "Roadmap" "note" (Some "plan for Q3") (Some "{}")
           1 7;
         mkEntity "id-2" "todo" "task" (Some "ROAD works") (Some "{}") 2 9;
         mkEntity "id-3" "road trip" "note" None (Some "{}") 7 7;
         mkEntity "id-4" "misc" "note" (Some "nothing") (Some "{}") 8 8 ];
     relations := [] |}.


(** Two clients open a session each, their creations interleaved; the
    first client then posts again and the second closes its session. *)
Definition opening : list Sessions.step :=
  [ Sessions.Post None "s-1"; Sessions.Post None "s-2";
    Sessions.Bind 1; Sessions.Bind 0; Sessions.Initialized 0 ].

(** Ids that never repeat: [s], [is], [iis], ... *)
Fixpoint numbered (n : nat) : string :=
  match n with
  | O => "s"
  | S n' => String "i" (numbered n')
  end.

(** Two POSTs without an id and one with an unknown id arrive before any of
    their creations resumes. *)
Definition arrivals : list Sessions.event :=
  [ Sessions.Arrive None; Sessions.Arrive None;
    Sessions.Arrive (Some "ghost"); Sessions.Resume 1 ].

(** A query of 49999 letters: its pattern has 50001 bytes. *)
Definition long_query : string :=
  Nat.iter (Z.to_nat 49999) (String "a") EmptyString.

Definition afterwards : list Sessions.step :=
  [ Sessions.Post (Some "s-1") "s-3"; Sessions.Delete (Some "s-2");
    Sessions.Post (Some "s-2") "s-4"; Sessions.Bind 2 ].

End Samples.

(* ===================================================================== *)
(** ** The store's keys and joins, spelled out                            *)
(* ===================================================================== *)

Module StoreShape.

Import Memory.

(** [id TEXT PRIMARY KEY] on both tables: no id occurs twice. *)
Definition unique_ids (d : db) : Prop :=
  List.NoDup (map ent_id (entities d)) /\
  List.NoDup (map rel_id (relations d)).

(** The entity an endpoint of a relation refers to, if it exists. *)
Definition endpoint (k : string) (d : db) : option entity :=
  find (id_is k) (entities d).

(** A relation with the name and type of its two endpoints beside it. *)
Definition annotate (d : db) (r : relation) : joined :=
  mkJoined r
    (option_map ent_name (endpoint (rel_from_entity r) d))
    (option_map ent_type (endpoint (rel_from_entity r) d))
    (option_map ent_name (endpoint (rel_to_entity r) d))
    (option_map ent_type (endpoint (rel_to_entity r) d)).

(** [WHERE type = ?], present only for a truthy [type]. *)
Definition of_type (type : option string) (e : entity) : bool :=
  match type with
  | Some t => if truthy t then String.eqb (ent_type e) t else true
  | None => true
  end.

(** The row as [memoryList] reports it. *)
Definition listed_of (e : entity) : listed :=
  mkListedEntity (ent_id e) (ent_name e) (ent_type e) (ent_updated_at e).

End StoreShape.

(* ===================================================================== *)
(** ** Trees and traces of the file helpers                               *)
(* ===================================================================== *)

Module FsShape.

Import Filesystem.

(** The number of levels of an item of a directory tree: 1 for an item
    without [children]. *)
Fixpoint item_depth (t : tree_item) : nat :=
  match t with
  | TreeItem _ _ None => 1
  | TreeItem _ _ (Some cs) =>
      S ((fix deepest (l : list tree_item) : nat :=
            match l with
            | [] => 0
            | c :: l' => Nat.max (item_depth c) (deepest l')
            end) cs)
  end.

(** The [stat] calls of a listing, one after the other: the call for the
    first entry is answered by the file system [w], each later one by the
    file system the call before it left, and [w'] is what the last one
    leaves; each answer makes the item of its entry. *)
Fixpoint stats_in_turn {FS : Type}
    (fs_stat : string -> FS -> outcome stats * FS)
    (path_join : string -> string -> string) (full : string)
    (entries : list dirent) (w : FS) (items : list item) (w' : FS)
    : Prop :=
  match entries, items with
  | [], [] => w' = w
  | entry :: entries', i :: items' =>
      exists st w1,
        fs_stat (path_join full (d_name entry)) w = (Returns st, w1) /\
        i = mkListed (d_name entry) (kind (d_isDirectory entry))
              (s_size st) (s_mtime st) /\
        stats_in_turn fs_stat path_join full entries' w1 items' w'
  | _, _ => False
  end.

(** The calls that only look at the file system. *)
Definition reads_only (e : fs_event) : bool :=
  match e with
  | ReadFileAt _ | Stat _ | Readdir _ => true
  | Mkdir _ | WriteFileAt _ _ | Unlink _ => false
  end.

(** A file system given by its answers: each call is answered from the
    calls made so far and is added to them. *)
Record answers : Type := mkAnswers {
  on_mkdir : log -> string -> outcome unit;
  on_writeFile : log -> string -> string -> outcome unit;
  on_readFile : log -> string -> outcome string;
  on_stat : log -> string -> outcome stats;
  on_unlink : log -> string -> outcome unit;
  on_readdir : log -> string -> outcome (list dirent)
}.

Definition answered (a : answers)
    (path_resolve : string -> string -> string)
    (path_dirname : string -> string)
    (path_join : string -> string -> string)
    (includes : string -> string -> bool)
    (replace : string -> string -> string -> string)
    (workspace : string) (c : fs_call) : log -> outcome fs_result * log :=
  fs_tool log
    (fun p w => (on_mkdir a w p, w ++ [Mkdir p]))
    (fun p content w => (on_writeFile a w p content,
                         w ++ [WriteFileAt p content]))
    (fun p w => (on_readFile a w p, w ++ [ReadFileAt p]))
    (fun p w => (on_stat a w p, w ++ [Stat p]))
    (fun p w => (on_unlink a w p, w ++ [Unlink p]))
    (fun p w => (on_readdir a w p, w ++ [Readdir p]))
    path_resolve path_dirname path_join includes replace workspace c.

(** [m] only adds calls that satisfy [P] to the calls made so far. *)
Definition adds (P : fs_event -> Prop) {A : Type}
    (m : log -> outcome A * log) : Prop :=
  forall w, exists added, snd (m w) = w ++ added /\ Forall P added.

(** The calls that change [full] itself, or make its parent directory. *)
Definition targets (path_dirname : string -> string) (full : string)
    (e : fs_event) : Prop :=
  match e with
  | Mkdir p => p = full \/ p = path_dirname full
  | WriteFileAt p _ | Unlink p => p = full
  | ReadFileAt _ | Stat _ | Readdir _ => True
  end.

(** A directory that holds a directory [d] and a file [f], whatever its
    path: a tree without a bottom. *)
Definition endless : answers :=
  mkAnswers (fun _ _ => Returns tt) (fun _ _ _ => Returns tt)
    (fun _ _ => Returns "text")
    (fun _ _ => Returns (mkStats 4 "1970-01-01T00:00:00.000Z"))
    (fun _ _ => Returns tt)
    (fun _ _ => Returns [mkDirent "d" true; mkDirent "f" false]).

Definition on_endless : fs_call -> log -> outcome fs_result * log :=
  answered endless posix_resolve posix_dirname posix_join string_includes
    replace_first "/workspace".

(** The tools that are meant to look only. *)
Definition looks_only (c : fs_call) : bool :=
  match c with
  | ReadFile _ | ListDirectory _ | DirectoryTree _ _ => true
  | WriteFile _ _ | EditFile _ _ _ | DeleteFile _ | CreateDirectory _ =>
      false
  end.

End FsShape.

(* ===================================================================== *)
(** ** JSON values and the requests to Railway and Supabase               *)
(* ===================================================================== *)

Module JsValue.

Import Js.

#[local] Set Warnings "-register-all".

(** What [response.json()] and the [arguments] of a tool hold, and
    [undefined] for what is missing.  The fields of an object are in the
    order of its own keys. *)
Inductive value : Type :=
| Undefined
| Null
| Boolean (b : bool)
| Number (n : QArith_base.Q)
| Str (s : string)
| Arr (items : list value)
| Obj (fields : list (string * value)).

(** [if (v)], [v ? a : b]. *)
Definition truthy_value (v : value) : bool :=
  match v with
  | Undefined | Null => false
  | Boolean b => b
  | Number n => negb (QArith_base.Qeq_bool n (QArith_base.Qmake 0 1))
  | Str s => truthy s
  | Arr _ | Obj _ => true
  end.

(** The message of the [TypeError] for a property read on [undefined] or
    [null]. *)
Definition cannot_read (what key : string) : string :=
  "Cannot read properties of " +:+ what +:+ " (reading '" +:+ key +:+ "')".

Definition lookup (fields : list (string * value)) (key : string) : value :=
  match find (fun kv => String.eqb (fst kv) key) fields with
  | Some (_, v) => v
  | None => Undefined
  end.

(** [v.key], for a key that names no built-in member. *)
Definition read (v : value) (key : string) : outcome value :=
  match v with
  | Undefined => Throws (cannot_read "undefined" key)
  | Null => Throws (cannot_read "null" key)
  | Obj fields => Returns (lookup fields key)
  | Boolean _ | Number _ | Str _ | Arr _ => Returns Undefined
  end.

(** [v[0]]. *)
Definition first (v : value) : outcome value :=
  match v with
  | Undefined => Throws (cannot_read "undefined" "0")
  | Null => Throws (cannot_read "null" "0")
  | Arr items => Returns (nth 0 items Undefined)
  | Str (String c _) => Returns (Str (String c EmptyString))
  | Str EmptyString => Returns Undefined
  | Obj fields => Returns (lookup fields "0")
  | Boolean _ | Number _ => Returns Undefined
  end.

Definition and_then {A B : Type} (o : outcome A) (k : A -> outcome B)
    : outcome B :=
  match o with
  | Returns a => k a
  | Throws message => Throws message
  end.

(** The callback of [map] runs on the elements in turn until one throws. *)
Fixpoint each {A B : Type} (f : A -> outcome B) (l : list A)
    : outcome (list B) :=
  match l with
  | [] => Returns []
  | a :: l' =>
      and_then (f a) (fun b =>
      and_then (each f l') (fun bs => Returns (b :: bs)))
  end.

(** [expr.map(f)], where [expr] is the text of the expression that gave
    [v]: only an array has a [map] to call. *)
Definition array_map {B : Type} (expr : string) (v : value)
    (f : value -> outcome B) : outcome (list B) :=
  match v with
  | Undefined => Throws (cannot_read "undefined" "map")
  | Null => Throws (cannot_read "null" "map")
  | Arr items => each f items
  | Boolean _ | Number _ | Str _ | Obj _ =>
      Throws (expr +:+ ".map is not a function")
  end.

(** The keys [0], [1], ... of the elements of a list. *)
Fixpoint indexed {A : Type} (from : nat) (l : list A) : list (string * A) :=
  match l with
  | [] => []
  | a :: l' =>
      (DecimalString.NilEmpty.string_of_uint (Nat.to_uint from), a) :: indexed (S from) l'
  end.

Fixpoint characters (s : string) : list value :=
  match s with
  | EmptyString => []
  | String c s' => Str (String c EmptyString) :: characters s'
  end.

(** The own properties that [{ ...v }] copies. *)
Definition spread (v : value) : list (string * value) :=
  match v with
  | Obj fields => fields
  | Arr items => indexed 0 items
  | Str s => indexed 0 (characters s)
  | Undefined | Null | Boolean _ | Number _ => []
  end.

(** [key: v] in an object literal after a spread: an own key keeps its
    place, a new one goes last. *)
Fixpoint assign (fields : list (string * value)) (key : string) (v : value)
    : list (string * value) :=
  match fields with
  | [] => [(key, v)]
  | (k, old) :: rest =>
      if String.eqb k key then (k, v) :: rest
      else (k, old) :: assign rest key v
  end.

(** A parameter with a default value: the default stands in for
    [undefined] only. *)
Definition default_to (dflt v : value) : value :=
  match v with
  | Undefined => dflt
  | _ => v
  end.

End JsValue.

Module Http.

Import Js.
Import JsValue.

(** The second argument of [fetch], with the URL. *)
Record request : Type := mkRequest {
  url : string;
  method : string;
  authorization : string;
  content_type : string;
  body : option string
}.

(** A [Response] as far as the code reads it. *)
Record response : Type := mkResponse {
  res_ok : bool;
  res_text : outcome string;
  res_json : outcome value
}.

End Http.

Module Railway.

Import Js.
Import JsValue.
Import Http.

Definition RAILWAY_API_URL : string :=
  "https://backboard.railway.app/graphql/v2".

Definition projects_query : string :=
  "
    query {
      me {
        projects {
          edges {
            node {
              id
              name
              description
              createdAt
              environments {
                edges {
                  node {
                    id
                    name
                  }
                }
              }
              services {
                edges {
                  node {
                    id
                    name
                  }
                }
              }
            }
          }
        }
      }
    }
  ".

Definition project_create_query : string :=
  "
    mutation($input: ProjectCreateInput!) {
      projectCreate(input: $input) {
        id
        name
        environments {
          edges {
            node {
              id
              name
            }
          }
        }
      }
    }
  ".

Definition service_create_query : string :=
  "
    mutation($input: ServiceCreateInput!) {
      serviceCreate(input: $input) {
        id
        name
      }
    }
  ".

Definition deploy_query : string :=
  "
    mutation($input: ServiceInstanceDeployInput!) {
      serviceInstanceDeploy(input: $input)
    }
  ".

Definition domain_create_query : string :=
  "
    mutation($input: ServiceDomainCreateInput!) {
      serviceDomainCreate(input: $input) {
        id
        domain
      }
    }
  ".

Definition variables_upsert_query : string :=
  "
    mutation($input: VariableCollectionUpsertInput!) {
      variableCollectionUpsert(input: $input)
    }
  ".

Definition deployments_query : string :=
  "
    query($projectId: String!) {
      deployments(input: { projectId: $projectId }) {
        edges {
          node {
            id
            status
            createdAt
            service {
              name
            }
          }
        }
      }
    }
  ".

(** The [arguments] of the seven [railway_*] tools, as the dispatcher
    reads them. *)
Inductive railway_call : Type :=
| ListProjects
| CreateProject (name description : value)
| CreateService (projectId environmentId repoUrl branch : value)
| Deploy (serviceId environmentId : value)
| GenerateDomain (serviceId environmentId : value)
| SetVariables (serviceId environmentId variables : value)
| GetDeployments (projectId : value).

Section Api.

(** The network, [fetch], [process.env.RAILWAY_TOKEN], [JSON.stringify],
    and [String(v)] for a value that is neither a string nor
    [undefined]. *)
Variable Net : Type.
Variable fetch : request -> Net -> outcome response * Net.
Variable RAILWAY_TOKEN : option string.
Variable JSON_stringify : value -> string.
Variable ToString : value -> string.

Notation "'await' x ':=' m 'in' k" := (Filesystem.bind Net m (fun x => k))
  (at level 10, x name, m at level 100, k at level 200).
Notation "'wait' m 'in' k" := (Filesystem.bind Net m (fun _ => k))
  (at level 10, m at level 100, k at level 200).
Notation "'take' x ':=' o 'in' k" := (and_then o (fun x => k))
  (at level 10, x name, o at level 100, k at level 200).

Definition getRailwayToken : string := or_else RAILWAY_TOKEN "".

(** A synchronous result inside an [async] function. *)
Definition settle {A : Type} (o : outcome A) : Filesystem.M Net A :=
  fun w => (o, w).

(** [new Error(v).message]. *)
Definition error_message (v : value) : string :=
  match v with
  | Undefined => ""
  | Str s => s
  | _ => ToString v
  end.

(** What [railwayGraphQL] does with the parsed response. *)
Definition graphql_result (data : value) : outcome value :=
  take errors := read data "errors" in
  if truthy_value errors
  then
    take error := first errors in
    take message := read error "message" in
    Throws (error_message message)
  else read data "data".

Definition railwayGraphQL (query : string) (variables : value)
    : Filesystem.M Net value :=
  let railwayToken := getRailwayToken in
  if negb (truthy railwayToken)
  then Filesystem.throw Net "RAILWAY_TOKEN environment variable is not set"
  else
    await response :=
      fetch (mkRequest RAILWAY_API_URL "POST" ("Bearer " +:+ railwayToken)
               "application/json"
               (Some (JSON_stringify
                        (Obj [("query", Str query);
                              ("variables", variables)])))) in
    await data := settle (res_json response) in
    settle (graphql_result data).

(** [x.edges.map(e => e.node)], where [expr] is the text of [x.edges]. *)
Definition nodes (expr : string) (edges : value) : outcome value :=
  take items := array_map expr edges (fun e => read e "node") in
  Returns (Arr items).

Definition railwayGetProjects : Filesystem.M Net value :=
  await data := railwayGraphQL projects_query (Obj []) in
  settle (
    take me := read data "me" in
    take projects := read me "projects" in
    take edges := read projects "edges" in
    take items :=
      array_map "data.me.projects.edges" edges (fun e =>
        take node := read e "node" in
        take environments := read node "environments" in
        take environment_edges := read environments "edges" in
        take environment_nodes :=
          nodes "e.node.environments.edges" environment_edges in
        take services := read node "services" in
        take service_edges := read services "edges" in
        take service_nodes := nodes "e.node.services.edges" service_edges in
        Returns (Obj (assign (assign (spread node)
                                "environments" environment_nodes)
                        "services" service_nodes))) in
    Returns (Arr items)).

Definition railwayCreateProject (name description : value)
    : Filesystem.M Net value :=
  let description := default_to (Str "") description in
  await data :=
    railwayGraphQL project_create_query
      (Obj [("input", Obj [("name", name);
                           ("description", description)])]) in
  settle (
    take projectCreate := read data "projectCreate" in
    take environments := read projectCreate "environments" in
    take edges := read environments "edges" in
    take environment_nodes :=
      nodes "data.projectCreate.environments.edges" edges in
    Returns (Obj (assign (spread projectCreate)
                    "environments" environment_nodes))).

Definition railwayCreateService (projectId environmentId repoUrl
    branch : value) : Filesystem.M Net value :=
  let branch := default_to (Str "main") branch in
  await data :=
    railwayGraphQL service_create_query
      (Obj [("input", Obj [("projectId", projectId);
                           ("source", Obj [("repo", repoUrl)]);
                           ("branch", branch)])]) in
  settle (read data "serviceCreate").

Definition railwayDeploy (serviceId environmentId : value)
    : Filesystem.M Net value :=
  await data :=
    railwayGraphQL deploy_query
      (Obj [("input", Obj [("serviceId", serviceId);
                           ("environmentId", environmentId)])]) in
  settle (
    take deploymentId := read data "serviceInstanceDeploy" in
    Returns (Obj [("success", Boolean true);
                  ("deploymentId", deploymentId)])).

Definition railwayGenerateDomain (serviceId environmentId : value)
    : Filesystem.M Net value :=
  await data :=
    railwayGraphQL domain_create_query
      (Obj [("input", Obj [("serviceId", serviceId);
                           ("environmentId", environmentId)])]) in
  settle (read data "serviceDomainCreate").

Definition railwaySetVariables (serviceId environmentId variables : value)
    : Filesystem.M Net value :=
  wait
    railwayGraphQL variables_upsert_query
      (Obj [("input", Obj [("serviceId", serviceId);
                           ("environmentId", environmentId);
                           ("variables", variables)])]) in
  Filesystem.ret Net (Obj [("success", Boolean true)]).

Definition railwayGetDeployments (projectId : value)
    : Filesystem.M Net value :=
  await data :=
    railwayGraphQL deployments_query (Obj [("projectId", projectId)]) in
  settle (
    take deployments := read data "deployments" in
    take edges := read deployments "edges" in
    nodes "data.deployments.edges" edges).

(** [v] is a GraphQL connection and [ns] are its nodes:
    [v.edges] is an array and [ns] are the [node]s of its elements. *)
Definition connection (v : value) (ns : list value) : Prop :=
  exists es,
    read v "edges" = Returns (Arr es) /\
    Forall2 (fun e n => read e "node" = Returns n) es ns.

(** The seven [railway_*] cases of the dispatcher. *)
Definition railway_tool (c : railway_call) : Filesystem.M Net value :=
  match c with
  | ListProjects => railwayGetProjects
  | CreateProject name description => railwayCreateProject name description
  | CreateService projectId environmentId repoUrl branch =>
      railwayCreateService projectId environmentId repoUrl branch
  | Deploy serviceId environmentId => railwayDeploy serviceId environmentId
  | GenerateDomain serviceId environmentId =>
      railwayGenerateDomain serviceId environmentId
  | SetVariables serviceId environmentId variables =>
      railwaySetVariables serviceId environmentId variables
  | GetDeployments projectId => railwayGetDeployments projectId
  end.

End Api.

End Railway.

Module Supabase.

Import Js.
Import JsValue.
Import Http.

Definition SUPABASE_API_URL : string := "https://api.supabase.com/v1".

Definition tables_sql : string :=
  "
    SELECT table_name, table_type
    FROM information_schema.tables
    WHERE table_schema = 'public'
    ORDER BY table_name;
  ".

(** The [arguments] of the seven [supabase_*] tools, as the dispatcher
    reads them. *)
Inductive supabase_call : Type :=
| ListProjects
| GetProject (projectRef : value)
| CreateProject (name organizationId dbPassword region : value)
| ListOrganizations
| RunSql (projectRef sql : value)
| ListTables (projectRef : value)
| CreateTable (projectRef tableName columns : value).

Section Api.

Variable Net : Type.
Variable fetch : request -> Net -> outcome response * Net.
Variable SUPABASE_TOKEN : option string.
Variable JSON_stringify : value -> string.
Variable ToString : value -> string.

Notation "'await' x ':=' m 'in' k" := (Filesystem.bind Net m (fun x => k))
  (at level 10, x name, m at level 100, k at level 200).
Notation "'take' x ':=' o 'in' k" := (and_then o (fun x => k))
  (at level 10, x name, o at level 100, k at level 200).

Definition getSupabaseToken : string := or_else SUPABASE_TOKEN "".

Definition settle {A : Type} (o : outcome A) : Filesystem.M Net A :=
  fun w => (o, w).

(** [${v}] in a template literal. *)
Definition template (v : value) : string :=
  match v with
  | Str s => s
  | Undefined => "undefined"
  | Null => "null"
  | Boolean true => "true"
  | Boolean false => "false"
  | Number _ | Arr _ | Obj _ => ToString v
  end.

Definition supabaseRequest (endpoint method : string) (body : value)
    : Filesystem.M Net value :=
  let supabaseToken := getSupabaseToken in
  if negb (truthy supabaseToken)
  then Filesystem.throw Net "SUPABASE_TOKEN environment variable is not set"
  else
    let options :=
      mkRequest (SUPABASE_API_URL +:+ endpoint) method
        ("Bearer " +:+ supabaseToken) "application/json"
        (if truthy_value body then Some (JSON_stringify body) else None) in
    await response := fetch options in
    if negb (res_ok response)
    then
      await error := settle (res_text response) in
      Filesystem.throw Net ("Supabase API error: " +:+ error)
    else settle (res_json response).

Definition supabaseGetProjects : Filesystem.M Net value :=
  supabaseRequest "/projects" "GET" Null.

Definition supabaseGetProject (projectRef : value)
    : Filesystem.M Net value :=
  supabaseRequest ("/projects/" +:+ template projectRef) "GET" Null.

Definition supabaseCreateProject (name organizationId dbPassword
    region : value) : Filesystem.M Net value :=
  let region := default_to (Str "us-east-1") region in
  supabaseRequest "/projects" "POST"
    (Obj [("name", name); ("organization_id", organizationId);
          ("db_pass", dbPassword); ("region", region);
          ("plan", Str "free")]).

Definition supabaseGetOrganizations : Filesystem.M Net value :=
  supabaseRequest "/organizations" "GET" Null.

Definition supabaseRunSQL (projectRef sql : value)
    : Filesystem.M Net value :=
  supabaseRequest
    ("/projects/" +:+ template projectRef +:+ "/database/query") "POST"
    (Obj [("query", sql)]).

Definition supabaseGetTables (projectRef : value)
    : Filesystem.M Net value :=
  supabaseRunSQL projectRef (Str tables_sql).

(** The text the callback of [columns.map] gives for one column. *)
Definition column_def (col : value) : outcome string :=
  take name := read col "name" in
  take type := read col "type" in
  take primaryKey := read col "primaryKey" in
  take notNull := read col "notNull" in
  take default := read col "default" in
  Returns (template name +:+ " " +:+ template type
           +:+ (if truthy_value primaryKey then " PRIMARY KEY" else "")
           +:+ (if truthy_value notNull then " NOT NULL" else "")
           +:+ (if truthy_value default
                then " DEFAULT " +:+ template default else "")).

Definition supabaseCreateTable (projectRef tableName columns : value)
    : Filesystem.M Net value :=
  await defs := settle (array_map "columns" columns column_def) in
  let columnDefs := String.concat ", " defs in
  let sql := "CREATE TABLE IF NOT EXISTS " +:+ template tableName
             +:+ " (" +:+ columnDefs +:+ ");" in
  supabaseRunSQL projectRef (Str sql).

(** The seven [supabase_*] cases of the dispatcher. *)
Definition supabase_tool (c : supabase_call) : Filesystem.M Net value :=
  match c with
  | ListProjects => supabaseGetProjects
  | GetProject projectRef => supabaseGetProject projectRef
  | CreateProject name organizationId dbPassword region =>
      supabaseCreateProject name organizationId dbPassword region
  | ListOrganizations => supabaseGetOrganizations
  | RunSql projectRef sql => supabaseRunSQL projectRef sql
  | ListTables projectRef => supabaseGetTables projectRef
  | CreateTable projectRef tableName columns =>
      supabaseCreateTable projectRef tableName columns
  end.

End Api.

End Supabase.

(** *** A network that records the requests made on it *)

Module Wire.

Import Js.
Import JsValue.
Import Http.

(** Every request is answered by [answer] and added to the ones made. *)
Definition recording (answer : request -> outcome response)
    (r : request) (made : list request)
    : outcome response * list request :=
  (answer r, made ++ [r]).

(** [JSON.stringify] and [String] as far as the samples need them. *)
Definition sketch (v : value) : string :=
  match v with
  | Obj _ => "{...}"
  | _ => "..."
  end.

(** An answer with a JSON body. *)
Definition json_answer (ok : bool) (data : value) (r : request)
    : outcome response :=
  Returns (mkResponse ok (Returns "") (Returns data)).

(** Railway's answer to a request it does not authorise: no [errors], no
    [data]. *)
Definition unauthorized : value :=
  Obj [("message", Str "Unauthorized")].

(** A GraphQL answer that carries partial data and an error. *)
Definition failed : value :=
  Obj [("data", Obj [("serviceInstanceDeploy", Str "d-1")]);
       ("errors", Arr [Obj [("message", Str "Service not found")]])].

(** Two projects as Railway lists them. *)
Definition two_projects : value :=
  Obj [("data",
        Obj [("me",
              Obj [("projects",
                    Obj [("edges",
                          Arr [Obj [("node",
                                     Obj [("id", Str "p-1");
                                          ("name", Str "api");
                                          ("environments",
                                           Obj [("edges",
                                                 Arr [Obj [("node",
                                                            Obj [("id", Str "e-1")])]])]);
                                          ("services",
                                           Obj [("edges", Arr [])])])];
                               Obj [("node",
                                     Obj [("id", Str "p-2");
                                          ("environments",
                                           Obj [("edges", Arr [])]);
                                          ("services",
                                           Obj [("edges", Arr [])])])]])])])])].

End Wire.

(* ===================================================================== *)
(** ** General facts about strings and lists                              *)
(* ===================================================================== *)

Module Facts.

Lemma append_empty_r (c : string) : c +:+ "" = c.
Proof.
  induction c as [|a c IH]; [reflexivity|].
  change (String a (c +:+ "") = String a c). now rewrite IH.
Qed.

Lemma truthy_nonempty s : s <> "" -> truthy s = true.
Proof. destruct s; [congruence | reflexivity]. Qed.

(** A filter that rejects every element yields nothing. *)
Lemma filter_none {A} (f : A -> bool) (l : list A) :
  (forall x, In x l -> f x = false) -> List.filter f l = [].
Proof.
  induction l as [|x l IH]; intros H; simpl; [reflexivity|].
  rewrite (H x (or_introl eq_refl)). apply IH.
  intros y Hy. apply H. now right.
Qed.

Lemma filter_filter_implied {A} (f g : A -> bool) (l : list A) :
  (forall x, f x = true -> g x = true) ->
  List.filter f (List.filter g l) = List.filter f l.
Proof.
  intros Hfg. induction l as [|x l IH]; simpl; [reflexivity|].
  destruct (g x) eqn:Eg; simpl.
  - destruct (f x); [now f_equal | assumption].
  - destruct (f x) eqn:Ef; [|assumption].
    rewrite (Hfg x Ef) in Eg. discriminate.
Qed.

Lemma existsb_false {A} (f : A -> bool) (l : list A) :
  (forall x, In x l -> f x = false) -> existsb f l = false.
Proof.
  induction l as [|x l IH]; intros H; simpl; [reflexivity|].
  rewrite (H x (or_introl eq_refl)). apply IH.
  intros y Hy. apply H. now right.
Qed.

(** The head of an arrangement of [l] is a member of [l], and there is one
    as soon as [l] is not empty. *)
Lemma head_of_arrangement {A} (scan : list A -> list A) (l : list A) :
  Permutation (scan l) l ->
  match head (scan l) with
  | Some x => In x l
  | None => l = []
  end.
Proof.
  intros HP. destruct (scan l) as [|x l'] eqn:E; simpl.
  - now apply Permutation_nil in HP.
  - apply (Permutation_in x HP). now left.
Qed.

End Facts.

(* ===================================================================== *)
(** ** Properties of the memory store                                     *)
(* ===================================================================== *)

Module MemoryTheory.

Import Memory.
Import Facts.

Lemma literal_round_trip v :
  JsonLiterals.parse (JsonLiterals.stringify v) = Some v.
Proof. destruct v as [| | |[|]]; reflexivity. Qed.

Lemma literal_nonempty v : JsonLiterals.stringify v <> "".
Proof. destruct v as [| | |[|]]; discriminate. Qed.

Lemma id_is_true q e : id_is q e = true <-> ent_id e = q.
Proof. unfold id_is. apply String.eqb_eq. Qed.

Lemma id_is_false q e : id_is q e = false <-> ent_id e <> q.
Proof. unfold id_is. apply String.eqb_neq. Qed.

Lemma name_is_true q e : name_is q e = true <-> ent_name e = q.
Proof. unfold name_is. apply String.eqb_eq. Qed.

Lemma name_is_false q e : name_is q e = false <-> ent_name e <> q.
Proof. unfold name_is. apply String.eqb_neq. Qed.

Lemma matches_filter q e :
  id_is q e || name_is q e = true <-> matches q e.
Proof.
  unfold matches. rewrite orb_true_iff, id_is_true, name_is_true. tauto.
Qed.

(** In rowid order the first row with the id or the name [q] is the row
    with the id [q], if there is one. *)
Lemma first_match_has_id q es e :
  ids_precede_names es -> In e es -> ent_id e = q ->
  exists e0,
    head (List.filter (fun x => id_is q x || name_is q x) es) = Some e0 /\
    ent_id e0 = q.
Proof.
  induction es as [|x rest IH]; simpl; intros Hes Hin Hid;
    [destruct Hin|].
  destruct Hes as [Hx Hrest].
  destruct (id_is q x) eqn:Ex; simpl.
  - exists x. split; [reflexivity | now apply id_is_true].
  - apply id_is_false in Ex.
    assert (Hin' : In e rest) by (destruct Hin as [->|]; congruence).
    destruct (name_is q x) eqn:En; simpl.
    + apply name_is_true in En. exfalso.
      apply (Hx e Hin'). congruence.
    + now apply IH.
Qed.

Lemma index_probes_arranges q l : Permutation (index_probes q l) l.
Proof.
  unfold index_probes. induction l as [|x l IH]; simpl; [reflexivity|].
  destruct (id_is q x); simpl.
  - now constructor.
  - rewrite <- Permutation_middle. now constructor.
Qed.

(** The shape [ids_precede_names] is kept by every statement that writes
    table [entities]. *)
Lemma insert_keeps_ids_before_names es e :
  ids_precede_names es ->
  (forall x, In x es -> ent_name x <> ent_id e) ->
  ids_precede_names (es ++ [e]).
Proof.
  induction es as [|x rest IH]; simpl; intros Hes Hfresh.
  - split; [intros e' [] | exact I].
  - destruct Hes as [Hx Hrest]. split.
    + intros e' He'. apply in_app_or in He'.
      destruct He' as [He'|[<-|[]]]; [now apply Hx|].
      intros Heq. apply (Hfresh x); [now left | now symmetry].
    + apply IH; [assumption|]. intros y Hy. apply Hfresh. now right.
Qed.

Lemma update_keeps_ids_before_names (f : entity -> entity) es :
  (forall e, ent_id (f e) = ent_id e /\ ent_name (f e) = ent_name e) ->
  ids_precede_names es -> ids_precede_names (map f es).
Proof.
  intros Hf. induction es as [|x rest IH]; simpl; [trivial|].
  intros [Hx Hrest]. split; [|now apply IH].
  intros e' He'. apply in_map_iff in He'. destruct He' as (y & <- & Hy).
  destruct (Hf y) as [-> _]. destruct (Hf x) as [_ ->]. now apply Hx.
Qed.

Lemma delete_keeps_ids_before_names (keep : entity -> bool) es :
  ids_precede_names es -> ids_precede_names (List.filter keep es).
Proof.
  induction es as [|x rest IH]; simpl; [trivial|].
  intros [Hx Hrest]. destruct (keep x); simpl; [|now apply IH].
  split; [|now apply IH].
  intros e' He'. apply filter_In in He'. now apply Hx.
Qed.

Section Theory.

Set Default Proof Using "Type".

Context {JSON : Type}.
Variable JSON_stringify : JSON -> string.
Variable JSON_parse : string -> option JSON.
Variable entity_scan : list entity -> list entity.
Variable joined_scan : list joined -> list joined.
Variable foreign_keys : bool.

Lemma recall_rows_head q d :
  arranges entity_scan ->
  match head (recall_rows entity_scan q d) with
  | Some e => In e (entities d) /\ matches q e
  | None => forall e, In e (entities d) -> ~ matches q e
  end.
Proof.
  intros HP. unfold recall_rows.
  pose proof (head_of_arrangement entity_scan
                (List.filter (fun e => id_is q e || name_is q e) (entities d))
                (HP _)) as H.
  destruct (head _) as [e|].
  - apply filter_In in H. destruct H as [Hin Hm].
    split; [assumption|]. now apply matches_filter.
  - intros e Hin Hm.
    assert (Hf : In e (List.filter (fun e => id_is q e || name_is q e)
                         (entities d))).
    { apply filter_In. split; [assumption|]. now apply matches_filter. }
    rewrite H in Hf. destruct Hf.
Qed.

(** C1.  Store, then recall by the id that [store] returned: the entity is
    found and carries the content and the metadata that were stored (as
    well as the name and the type).  The id is the one [randomUUID()]
    produced, taken to be fresh for the table. *)
Theorem store_recall_round_trip
    (now : nat) (uuid name type : string) (content : option string)
    (metadata : JSON) (d : db) :
  codec_ok JSON_stringify JSON_parse ->
  arranges entity_scan ->
  fresh_uuid uuid d ->
  exists s d' r,
    memoryStore JSON_stringify now uuid name type content metadata d
      = (Returns s, d') /\
    memoryRecall JSON_parse entity_scan (st_id s) d' = Returns (Found r) /\
    found (Found r) = true /\
    rc_content r = content /\
    rc_metadata r = metadata /\
    rc_id r = st_id s /\ rc_name r = name /\ rc_type r = type.
Proof.
  intros [Hparse Hnonempty] HP Hfresh.
  unfold memoryStore.
  rewrite existsb_false
    by (intros e He; apply id_is_false; now apply Hfresh).
  eexists _, _, _. split; [reflexivity|]. simpl.
  unfold memoryRecall, recall_rows. simpl.
  rewrite List.filter_app, filter_none; simpl.
  2:{ intros e He. apply orb_false_iff.
      rewrite id_is_false, name_is_false. now apply Hfresh. }
  unfold id_is at 1. simpl. rewrite String.eqb_refl. simpl.
  rewrite (Permutation_length_1_inv (Permutation_sym (HP [_]))). simpl.
  rewrite truthy_nonempty by apply Hnonempty.
  rewrite Hparse. repeat split; reflexivity.
Qed.

(** Every operation of the store keeps [ids_precede_names], [store] doing
    so because the id it draws is fresh. *)
Lemma operations_keep_ids_before_names (d : db) :
  ids_precede_names (entities d) ->
  (forall now uuid name type content metadata,
     fresh_uuid uuid d ->
     ids_precede_names
       (entities (snd (memoryStore JSON_stringify now uuid name type content
                         metadata d)))) /\
  (forall now id content metadata,
     ids_precede_names
       (entities (snd (memoryUpdate JSON_stringify now id content metadata
                         d)))) /\
  (forall id,
     ids_precede_names (entities (snd (memoryDelete foreign_keys id d)))) /\
  (forall now uuid fromId toId relationType metadata,
     ids_precede_names
       (entities (snd (memoryRelate JSON_stringify foreign_keys now uuid
                         fromId toId relationType metadata d)))).
Proof.
  intros Hd. repeat split.
  - intros now uuid name type content metadata Hfresh. unfold memoryStore.
    destruct (existsb (id_is uuid) (entities d)); simpl; [assumption|].
    apply insert_keeps_ids_before_names; [assumption|].
    intros x Hx. simpl. now apply Hfresh.
  - intros now id content metadata. unfold memoryUpdate. simpl.
    apply update_keeps_ids_before_names; [|assumption].
    intros e. destruct (id_is id e); split; reflexivity.
  - intros id. unfold memoryDelete.
    destruct (foreign_keys && _ && _); simpl; [assumption|].
    now apply delete_keeps_ids_before_names.
  - intros now uuid fromId toId relationType metadata. unfold memoryRelate.
    destruct (existsb _ (relations d)); simpl; [assumption|].
    destruct (foreign_keys && _); simpl; assumption.
Qed.

Lemma recall_answers_a_match (q : string) (d : db) :
  arranges entity_scan ->
  ((forall e, In e (entities d) -> ~ matches q e) <->
   memoryRecall JSON_parse entity_scan q d = Returns NotFound) /\
  (forall r,
     memoryRecall JSON_parse entity_scan q d = Returns (Found r) ->
     exists e,
       In e (entities d) /\ matches q e /\
       rc_id r = ent_id e /\ rc_name r = ent_name e /\
       rc_type r = ent_type e /\ rc_content r = ent_content e /\
       JSON_parse (or_else (ent_metadata e) "{}") = Some (rc_metadata r)) /\
  ((exists e, In e (entities d) /\ matches q e) ->
   (forall e, In e (entities d) ->
      JSON_parse (or_else (ent_metadata e) "{}") <> None) ->
   exists r, memoryRecall JSON_parse entity_scan q d = Returns (Found r)).
Proof.
  intros HP. pose proof (recall_rows_head q d HP) as H.
  unfold memoryRecall.
  destruct (head (recall_rows entity_scan q d)) as [e|].
  - destruct H as [Hin Hm]. split; [|split].
    + split.
      * intros Hnone. exfalso. exact (Hnone e Hin Hm).
      * destruct (JSON_parse _); discriminate.
    + intros r Hr. exists e.
      destruct (JSON_parse (or_else (ent_metadata e) "{}")) as [m|];
        [|discriminate].
      injection Hr as <-. simpl. repeat split; assumption || reflexivity.
    + intros _ Hparse. specialize (Hparse e Hin).
      destruct (JSON_parse (or_else (ent_metadata e) "{}")) as [m|];
        [|congruence].
      eexists. reflexivity.
  - split; [|split].
    + split; [reflexivity | intros _; exact H].
    + intros r Hr. discriminate.
    + intros (e & Hin & Hm) _. exfalso. exact (H e Hin Hm).
Qed.

Lemma recall_prefers_id (q : string) (d : db) :
  ((forall l, entity_scan l = table_scan l) /\
   ids_precede_names (entities d)) \/
  (forall l, entity_scan l = index_probes q l) ->
  (exists e, In e (entities d) /\ ent_id e = q) ->
  forall r,
    memoryRecall JSON_parse entity_scan q d = Returns (Found r) ->
    rc_id r = q.
Proof.
  intros Hplan (e & Hin & Hid) r.
  assert (Hhead : exists e0,
            head (recall_rows entity_scan q d) = Some e0 /\ ent_id e0 = q).
  { unfold recall_rows. destruct Hplan as [[Hscan Hshape]|Hscan];
      rewrite Hscan.
    - now apply (first_match_has_id q (entities d) e).
    - unfold index_probes. rewrite filter_filter_implied
        by (intros x Hx; now rewrite Hx).
      assert (Hf : In e (List.filter (id_is q) (entities d)))
        by (apply filter_In; split; [assumption | now apply id_is_true]).
      destruct (List.filter (id_is q) (entities d)) as [|e0 m] eqn:E;
        [destruct Hf|].
      exists e0. split; [reflexivity|].
      assert (Hf0 : In e0 (List.filter (id_is q) (entities d)))
        by (rewrite E; now left).
      apply filter_In in Hf0. now apply id_is_true. }
  destruct Hhead as (e0 & Hhead & Hid0). unfold memoryRecall.
  rewrite Hhead. destruct (JSON_parse _); [|discriminate].
  intros Hr. injection Hr as <-. exact Hid0.
Qed.

(** C5.  Updating an id that names no entity returns [updated = false]
    without throwing and leaves both tables as they were. *)
Theorem update_missing_id
    (now : nat) (id : string) (content : option string)
    (metadata : option JSON) (d : db) :
  (forall e, In e (entities d) -> ent_id e <> id) ->
  memoryUpdate JSON_stringify now id content metadata d
    = (Returns (mkUpdated id false), d).
Proof.
  intros Hmissing. unfold memoryUpdate.
  rewrite filter_none
    by (intros e He; apply id_is_false; now apply Hmissing).
  simpl. f_equal. destruct d as [es rs]. simpl in *. f_equal.
  induction es as [|e es IH]; simpl; [reflexivity|].
  assert (He : id_is id e = false)
    by (apply id_is_false; apply Hmissing; now left).
  rewrite He. f_equal. apply IH.
  intros e' He'. apply Hmissing. now right.
Qed.

(** *** Relations and the foreign keys of table [relations] *)

Lemma left_join_absent k es :
  (forall e, In e es -> ent_id e <> k) -> left_join k es = [None].
Proof.
  intros H. unfold left_join.
  now rewrite filter_none by (intros e He; apply id_is_false; auto).
Qed.

Lemma left_join_inhabited k es : exists x, In x (left_join k es).
Proof.
  unfold left_join. destruct (List.filter (id_is k) es) as [|e m].
  - exists None. now left.
  - exists (Some e). now left.
Qed.

Lemma left_join_deleted k es :
  left_join k (List.filter (fun e => negb (id_is k e)) es) = [None].
Proof.
  apply left_join_absent. intros e He. apply filter_In in He.
  destruct He as [_ He]. apply id_is_false. now apply negb_true_iff.
Qed.

(** The rows of the join: one for each relation and each pair of matches
    (or [NULL]s) of its two endpoints. *)
Lemma in_join_rows d j :
  In j (join_rows d) <->
  exists r e1 e2,
    In r (relations d) /\
    In e1 (left_join (rel_from_entity r) (entities d)) /\
    In e2 (left_join (rel_to_entity r) (entities d)) /\
    j = mkJoined r (option_map ent_name e1) (option_map ent_type e1)
                   (option_map ent_name e2) (option_map ent_type e2).
Proof.
  unfold join_rows. rewrite in_flat_map. split.
  - intros (r & Hr & Hj). apply in_flat_map in Hj.
    destruct Hj as (e1 & He1 & Hj). apply in_map_iff in Hj.
    destruct Hj as (e2 & <- & He2). now exists r, e1, e2.
  - intros (r & e1 & e2 & Hr & He1 & He2 & ->).
    exists r. split; [assumption|]. apply in_flat_map.
    exists e1. split; [assumption|]. apply in_map_iff. now exists e2.
Qed.

Lemma in_get_relations q d j :
  arranges joined_scan ->
  In j (gr_relations (memoryGetRelations joined_scan q d)) <->
  In j (join_rows d) /\ touches q (j_relation j) = true.
Proof.
  intros HP. unfold memoryGetRelations. simpl.
  split; intros H.
  - apply (Permutation_in _ (HP _)) in H. now apply filter_In in H.
  - apply (Permutation_in _ (Permutation_sym (HP _))). now apply filter_In.
Qed.

(** C2, as the code has it.  Table [relations] declares both endpoints as
    foreign keys into [entities], and the code leaves the engine's
    enforcement switch at its default.  Where the engine does not enforce
    them, [relate] creates the relation whatever the endpoints are,
    [delete] removes the entity alone, and [getRelations] still returns
    every relation of the deleted entity, the name and type of the deleted
    endpoint being [NULL].  Where the engine enforces them, [relate] with a
    missing endpoint fails with a constraint error and creates nothing. *)
Theorem relations_and_foreign_keys :
  arranges joined_scan ->
  (foreign_keys = false ->
     (forall now uuid fromId toId relationType metadata d,
        (forall r, In r (relations d) -> rel_id r <> uuid) ->
        exists d',
          memoryRelate JSON_stringify foreign_keys now uuid fromId toId
            relationType metadata d = (Returns (mkRelated uuid true), d') /\
          entities d' = entities d /\
          relations d' = relations d ++
            [mkRelation uuid fromId toId relationType
               (Some (JSON_stringify metadata)) now]) /\
     (forall id d,
        exists b d',
          memoryDelete foreign_keys id d = (Returns (mkDeleted b), d') /\
          (b = true <-> exists e, In e (entities d) /\ ent_id e = id) /\
          (forall e, In e (entities d') <->
                     In e (entities d) /\ ent_id e <> id) /\
          relations d' = relations d /\
          forall r, In r (relations d) ->
            forall q, touches q r = true ->
            (exists j,
               In j (gr_relations (memoryGetRelations joined_scan q d')) /\
               j_relation j = r) /\
            (forall j,
               In j (gr_relations (memoryGetRelations joined_scan q d')) ->
               j_relation j = r ->
               (rel_from_entity r = id ->
                  j_from_name j = None /\ j_from_type j = None) /\
               (rel_to_entity r = id ->
                  j_to_name j = None /\ j_to_type j = None)))) /\
  (foreign_keys = true ->
     (forall now uuid fromId toId relationType metadata d,
        (forall r, In r (relations d) -> rel_id r <> uuid) ->
        (forall e, In e (entities d) -> ent_id e <> fromId) \/
        (forall e, In e (entities d) -> ent_id e <> toId) ->
        memoryRelate JSON_stringify foreign_keys now uuid fromId toId
          relationType metadata d
        = (Throws "FOREIGN KEY constraint failed", d))).
Proof.
  intros HP. split; intros ->.
  - split.
    + intros now uuid fromId toId relationType metadata d Hfresh.
      unfold memoryRelate.
      rewrite existsb_false
        by (intros r Hr; apply String.eqb_neq; now apply Hfresh).
      simpl. eexists. split; [reflexivity|]. split; reflexivity.
    + intros id d. unfold memoryDelete. simpl.
      eexists _, _. split; [reflexivity|]. simpl.
      split; [|split; [|split; [reflexivity|]]].
      * rewrite Nat.ltb_lt. split.
        -- intros Hlen.
           destruct (List.filter (id_is id) (entities d)) as [|e m] eqn:E;
             [simpl in Hlen; lia|].
           assert (He : In e (List.filter (id_is id) (entities d)))
             by (rewrite E; now left).
           apply filter_In in He. destruct He as [Hin He].
           exists e. split; [assumption | now apply id_is_true].
        -- intros (e & Hin & He).
           assert (Hf : In e (List.filter (id_is id) (entities d)))
             by (apply filter_In; split; [assumption | now apply id_is_true]).
           destruct (List.filter (id_is id) (entities d));
             [destruct Hf | simpl; lia].
      * intros e. rewrite filter_In, negb_true_iff, id_is_false. reflexivity.
      * intros r Hr q Hq.
        set (d' := {| entities :=
                        List.filter (fun e => negb (id_is id e)) (entities d);
                      relations := relations d |}).
        split.
        -- destruct (left_join_inhabited (rel_from_entity r) (entities d'))
             as [e1 He1].
           destruct (left_join_inhabited (rel_to_entity r) (entities d'))
             as [e2 He2].
           exists (mkJoined r (option_map ent_name e1) (option_map ent_type e1)
                     (option_map ent_name e2) (option_map ent_type e2)).
           split; [|reflexivity].
           apply in_get_relations; [assumption|]. split; [|exact Hq].
           apply in_join_rows. now exists r, e1, e2.
        -- intros j Hj Hjr. apply in_get_relations in Hj; [|assumption].
           destruct Hj as [Hj _]. apply in_join_rows in Hj.
           destruct Hj as (r' & e1 & e2 & _ & He1 & He2 & ->).
           simpl in Hjr. subst r'. simpl. split; intros Hid.
           ++ rewrite Hid in He1. subst d'. simpl in He1.
              rewrite left_join_deleted in He1.
              destruct He1 as [<-|[]]. split; reflexivity.
           ++ rewrite Hid in He2. subst d'. simpl in He2.
              rewrite left_join_deleted in He2.
              destruct He2 as [<-|[]]. split; reflexivity.
  - intros now uuid fromId toId relationType metadata d Hfresh Hmissing.
    unfold memoryRelate.
    rewrite existsb_false
      by (intros r Hr; apply String.eqb_neq; now apply Hfresh).
    simpl.
    assert (Hex : existsb (id_is fromId) (entities d) &&
                  existsb (id_is toId) (entities d) = false).
    { apply andb_false_iff. destruct Hmissing as [H|H]; [left|right];
        apply existsb_false; intros e He; apply id_is_false; now apply H. }
    now rewrite Hex.
Qed.

(** Under enforcement an entity that a relation still references cannot be
    deleted either: the clauses name no [ON DELETE] action. *)
Lemma delete_blocked_when_enforced id d e r :
  In e (entities d) -> ent_id e = id ->
  In r (relations d) -> touches id r = true ->
  memoryDelete true id d = (Throws "FOREIGN KEY constraint failed", d).
Proof.
  intros Hin He Hr Ht. unfold memoryDelete. simpl.
  assert (Hlen : Nat.ltb 0 (length (List.filter (id_is id) (entities d)))
                 = true).
  { apply Nat.ltb_lt.
    assert (Hf : In e (List.filter (id_is id) (entities d)))
      by (apply filter_In; split; [assumption | now apply id_is_true]).
    destruct (List.filter (id_is id) (entities d));
      [destruct Hf | simpl; lia]. }
  assert (Hex : existsb (touches id) (relations d) = true)
    by (apply existsb_exists; now exists r).
  now rewrite Hlen, Hex.
Qed.

(** *** Search *)

Lemma like_percent p t :
  like (String "%" p) t =
  like p t ||
  match t with
  | EmptyString => false
  | String _ t' => like (String "%" p) t'
  end.
Proof. destruct t; reflexivity. Qed.

Lemma like_percent_only t : like "%" t = true.
Proof.
  induction t as [|c t IH]; [reflexivity|].
  rewrite like_percent, IH. apply orb_true_r.
Qed.



Lemma eq_nocase_lower c d : eq_nocase c d = true <-> to_lower c = to_lower d.
Proof. unfold eq_nocase. apply Ascii.eqb_eq. Qed.

Lemma prefix_nocase_iff q s :
  prefix_nocase q s = true <->
  exists mid post, s = mid +:+ post /\ lower mid = lower q.
Proof.
  revert s. induction q as [|c q IH]; intros s; simpl.
  - split; [|reflexivity]. intros _. now exists "", s.
  - destruct s as [|d s].
    + split; [discriminate|]. intros (mid & post & Hs & Hl).
      destruct mid; simpl in *; discriminate.
    + rewrite andb_true_iff, eq_nocase_lower, IH. split.
      * intros (Hc & mid & post & -> & Hl).
        exists (String d mid), post. simpl. split; [reflexivity|].
        now rewrite Hl, Hc.
      * intros (mid & post & Hs & Hl).
        destruct mid as [|m mid]; simpl in *; [discriminate|].
        injection Hs as -> ->. injection Hl as Hc Hl.
        split; [now symmetry|]. now exists mid, post.
Qed.

(** [occurs_nocase] is the substring relation up to ASCII case. *)
Lemma occurs_nocase_iff q s :
  occurs_nocase q s = true <->
  exists pre mid post, s = pre +:+ mid +:+ post /\ lower mid = lower q.
Proof.
  induction s as [|d s IH]; simpl occurs_nocase; rewrite orb_true_iff.
  - rewrite prefix_nocase_iff. split.
    + intros [(mid & post & Hs & Hl)|]; [|discriminate].
      now exists "", mid, post.
    + intros (pre & mid & post & Hs & Hl). left.
      destruct pre; simpl in Hs; [|discriminate]. now exists mid, post.
  - rewrite prefix_nocase_iff, IH. split.
    + intros [(mid & post & Hs & Hl)|(pre & mid & post & -> & Hl)].
      * now exists "", mid, post.
      * now exists (String d pre), mid, post.
    + intros (pre & mid & post & Hs & Hl). destruct pre as [|c pre].
      * left. now exists mid, post.
      * right. simpl in Hs. injection Hs as -> ->. now exists pre, mid, post.
Qed.

Lemma insert_desc_perm e l : Permutation (insert_desc e l) (e :: l).
Proof.
  induction l as [|x l IH]; simpl; [reflexivity|].
  destruct (ent_updated_at x <=? ent_updated_at e)%nat; [reflexivity|].
  rewrite IH. apply perm_swap.
Qed.

Lemma order_by_perm l : Permutation (order_by_updated_desc l) l.
Proof.
  induction l as [|e l IH]; simpl; [reflexivity|].
  rewrite insert_desc_perm. now constructor.
Qed.

Lemma insert_desc_sorted e l :
  StronglySorted newer_or_same l ->
  StronglySorted newer_or_same (insert_desc e l).
Proof.
  induction 1 as [|x l Hs IH Hx]; simpl.
  - constructor; constructor.
  - destruct (ent_updated_at x <=? ent_updated_at e)%nat eqn:E.
    + apply Nat.leb_le in E. constructor.
      * now constructor.
      * constructor; [exact E|].
        eapply List.Forall_impl; [|exact Hx].
        intros y Hy. unfold newer_or_same in *. lia.
    + apply Nat.leb_gt in E. constructor; [assumption|].
      eapply Permutation_Forall; [symmetry; apply insert_desc_perm|].
      constructor; [unfold newer_or_same; lia | assumption].
Qed.

Lemma order_by_sorted l :
  StronglySorted newer_or_same (order_by_updated_desc l).
Proof.
  induction l as [|e l IH]; simpl; [constructor|].
  now apply insert_desc_sorted.
Qed.

Lemma in_firstn {A} n (l : list A) x : In x (firstn n l) -> In x l.
Proof.
  revert l. induction n as [|n IH]; intros [|y l]; simpl; try tauto.
  intros [->|H]; [now left | right; now apply IH].
Qed.

Lemma firstn_sorted {A} (R : A -> A -> Prop) n l :
  StronglySorted R l -> StronglySorted R (firstn n l).
Proof.
  revert l. induction n as [|n IH]; intros l Hl; simpl; [constructor|].
  destruct Hl as [|x l Hl Hx]; constructor.
  - now apply IH.
  - apply List.Forall_forall. intros y Hy. apply in_firstn in Hy.
    revert y Hy. now apply List.Forall_forall.
Qed.

Lemma sorted_map_updated l :
  StronglySorted newer_or_same l ->
  newest_first (map ent_updated_at l).
Proof.
  unfold newest_first.
  induction 1 as [|x l Hs IH Hx]; simpl; constructor; [assumption|].
  apply List.Forall_map. exact Hx.
Qed.



Lemma search_rows_spec query type d e :
  arranges entity_scan ->
  In e (search_rows entity_scan query type d) ->
  In e (entities d) /\ search_where query type e = true.
Proof.
  intros HP He. unfold search_rows in He. apply in_firstn in He.
  apply (Permutation_in _ (order_by_perm _)) in He.
  apply (Permutation_in _ (HP _)) in He.
  now apply filter_In in He.
Qed.














End Theory.

(** C3.  SQLite answers [WHERE id = ? OR name = ?] by a probe of the
    primary-key index followed by a probe of the index on [name]
    ([index_probes]).  Read that way, [recall] answers [{found: false}],
    without failing, exactly when no row has the argument as its id or its
    name; otherwise its answer is a row whose id or name is exactly the
    argument, and is the row with that id whenever there is one, also when
    other rows carry the argument as their name.  It does answer with a
    row when there is one and the stored metadata texts parse. *)
Theorem recall_by_id_or_name {JSON : Type}
    (JSON_parse : string -> option JSON) (q : string) (d : db) :
  let answer := memoryRecall JSON_parse (index_probes q) q d in
  ((forall e, In e (entities d) -> ~ matches q e) <->
   answer = Returns NotFound) /\
  (forall r,
     answer = Returns (Found r) ->
     exists e,
       In e (entities d) /\ matches q e /\
       rc_id r = ent_id e /\ rc_name r = ent_name e /\
       rc_type r = ent_type e /\ rc_content r = ent_content e /\
       JSON_parse (or_else (ent_metadata e) "{}") = Some (rc_metadata r) /\
       ((exists e', In e' (entities d) /\ ent_id e' = q) ->
        ent_id e = q)) /\
  ((exists e, In e (entities d) /\ matches q e) ->
   (forall e, In e (entities d) ->
      JSON_parse (or_else (ent_metadata e) "{}") <> None) ->
   exists r, answer = Returns (Found r)).
Proof.
  intros answer. subst answer.
  destruct (recall_answers_a_match JSON_parse (index_probes q) q d
              (index_probes_arranges q)) as (H1 & H2 & H3).
  split; [exact H1|]. split; [|exact H3].
  intros r Hr. destruct (H2 r Hr) as (e & Hin & Hm & Hid & Hrest).
  exists e. split; [exact Hin|]. split; [exact Hm|].
  split; [exact Hid|].
  destruct Hrest as (Hn & Ht & Hc & Hp).
  split; [exact Hn|]. split; [exact Ht|]. split; [exact Hc|].
  split; [exact Hp|].
  intros Hsome. rewrite <- Hid.
  apply (recall_prefers_id JSON_parse (index_probes q) q d);
    [right; reflexivity | exact Hsome | exact Hr].
Qed.

(** C1 at a concrete store: one entity present, a second one stored and
    recalled. *)
Lemma store_recall_round_trip_witness :
  exists s d' r,
    memoryStore JsonLiterals.stringify 20 "id-2" "todo" "note"
      (Some "buy milk") JsonLiterals.EmptyObject Samples.one_entity
      = (Returns s, d') /\
    memoryRecall JsonLiterals.parse table_scan (st_id s) d'
      = Returns (Found r) /\
    found (Found r) = true /\
    rc_content r = Some "buy milk" /\
    rc_metadata r = JsonLiterals.EmptyObject /\
    rc_id r = st_id s /\ rc_name r = "todo" /\ rc_type r = "note".
Proof.
  apply (store_recall_round_trip JsonLiterals.stringify JsonLiterals.parse
           table_scan).
  - split; [apply literal_round_trip | apply literal_nonempty].
  - intros l. reflexivity.
  - intros e [<-|[]]. split; discriminate.
Defined.

(** Where a name repeats the id of another row: recalled by that id, the
    row with the id is the answer. *)
Lemma recall_by_id_or_name_witness :
  exists r,
    memoryRecall JsonLiterals.parse (index_probes "b") "b" Samples.shadowing
      = Returns (Found r) /\
    rc_id r = "b" /\ rc_name r = "c".
Proof.
  destruct (recall_by_id_or_name JsonLiterals.parse "b" Samples.shadowing)
    as (_ & Hrow & Hsome).
  destruct Hsome as [r Hr].
  - eexists. split; [left; reflexivity | now right].
  - intros e [<-|[<-|[]]]; discriminate.
  - exists r. split; [exact Hr|].
    destruct (Hrow r Hr) as (e & Hin & _ & Hid & Hname & _ & _ & _ & Hpref).
    assert (Hb : ent_id e = "b").
    { apply Hpref. eexists. split; [right; left; reflexivity|reflexivity]. }
    rewrite Hid, Hname. split; [exact Hb|].
    destruct Hin as [<-|[<-|[]]]; [discriminate | reflexivity].
Defined.

Lemma update_missing_id_witness :
  memoryUpdate JsonLiterals.stringify 30 "nope" (Some "x") None
    Samples.one_entity
  = (Returns (mkUpdated "nope" false), Samples.one_entity).
Proof.
  apply update_missing_id.
  intros e [<-|[]]. discriminate.
Defined.

(** C2 as stated fails where the engine enforces the declared foreign
    keys: relating an entity to an id that names nothing is rejected, and
    so is deleting an entity that has a relation. *)
Lemma foreign_keys_reject_dangling :
  memoryRelate JsonLiterals.stringify true 5 "R2" "A" "ghost" "knows"
    JsonLiterals.EmptyObject Samples.linked
  = (Throws "FOREIGN KEY constraint failed", Samples.linked) /\
  memoryDelete true "A" Samples.linked
  = (Throws "FOREIGN KEY constraint failed", Samples.linked).
Proof. split; reflexivity. Qed.

Lemma relations_and_foreign_keys_witness :
  (exists d',
     memoryRelate JsonLiterals.stringify false 5 "R2" "ghost" "phantom"
       "knows" JsonLiterals.EmptyObject Samples.linked
     = (Returns (mkRelated "R2" true), d') /\
     entities d' = entities Samples.linked /\
     relations d' = relations Samples.linked ++
       [mkRelation "R2" "ghost" "phantom" "knows" (Some "{}") 5]) /\
  memoryRelate JsonLiterals.stringify true 5 "R2" "A" "ghost" "knows"
    JsonLiterals.EmptyObject Samples.linked
  = (Throws "FOREIGN KEY constraint failed", Samples.linked).
Proof.
  assert (HP : arranges (table_scan (A := joined)))
    by (intros l; reflexivity).
  split.
  - apply (proj1 (proj1 (relations_and_foreign_keys JsonLiterals.stringify
                           table_scan false HP) eq_refl)).
    intros r [<-|[]]. discriminate.
  - apply (proj2 (relations_and_foreign_keys JsonLiterals.stringify
                    table_scan true HP) eq_refl).
    + intros r [<-|[]]. discriminate.
    + right. intros e [<-|[<-|[]]]; discriminate.
Defined.

(** With enforcement off, deleting the source of a relation leaves the
    relation readable from either end, its source name and type [NULL]. *)
Example dangling_after_delete :
  memoryGetRelations table_scan "A"
    (snd (memoryDelete false "A" Samples.linked))
  = mkRelations 1
      [mkJoined Samples.depends_on None None (Some "n2") (Some "t")].
Proof. reflexivity. Qed.

(** The sequence of [test-mcp.js]: relate a stored entity to another, then
    delete it.  The script expects [deleted = true]; that is the answer
    without enforcement, and a constraint error with it. *)
Example delete_after_relate :
  memoryDelete false "A" Samples.linked
  = (Returns (mkDeleted true),
     {| entities := [Samples.n2]; relations := [Samples.depends_on] |}) /\
  memoryDelete true "A" Samples.linked
  = (Throws "FOREIGN KEY constraint failed", Samples.linked).
Proof. split; reflexivity. Qed.

(** Scenario B of the specification. *)
Example relate_then_get_relations :
  memoryGetRelations table_scan "A" Samples.linked
  = mkRelations 1
      [mkJoined Samples.depends_on (Some "n1") (Some "t")
                (Some "n2") (Some "t")].
Proof. reflexivity. Qed.

(** Scenario A of the specification. *)
Example store_then_recall_by_name :
  memoryRecall JsonLiterals.parse table_scan "cfg"
    (snd (memoryStore JsonLiterals.stringify 10 "id-1" "cfg" "project"
            (Some "a=1") JsonLiterals.EmptyObject empty_db))
  = Returns (Found (mkRecalled "id-1" "cfg" "project" (Some "a=1")
                      JsonLiterals.EmptyObject 10 10)).
Proof. reflexivity. Qed.

(** The store in which a name repeats a later id, read by index probes:
    recalled by that id, the entity with the id is the answer. *)
Example recall_by_index_probes :
  arranges (index_probes "b") /\
  memoryRecall JsonLiterals.parse (index_probes "b") "b" Samples.shadowing
  = Returns (Found (mkRecalled "b" "c" "note" (Some "second")
                      JsonLiterals.EmptyObject 2 2)).
Proof. split; [intros l; apply index_probes_arranges | reflexivity]. Qed.

(** An entity named after the id of an older one: recalled by that id, in
    rowid order, the older entity is the answer. *)
Example recall_prefers_older_id :
  let d1 := snd (memoryStore JsonLiterals.stringify 1 "id-1" "first" "note"
                   (Some "one") JsonLiterals.EmptyObject empty_db) in
  let d2 := snd (memoryStore JsonLiterals.stringify 2 "id-2" "id-1" "note"
                   (Some "two") JsonLiterals.EmptyObject d1) in
  memoryRecall JsonLiterals.parse table_scan "id-1" d2
  = Returns (Found (mkRecalled "id-1" "first" "note" (Some "one")
                      JsonLiterals.EmptyObject 1 1)).
Proof. reflexivity. Qed.



(** A pattern of more than 50000 bytes is refused as soon as there is a
    row to examine, and not before. *)
Example search_long_pattern :
  memorySearch table_scan Samples.long_query None Samples.notes
  = Throws "LIKE or GLOB pattern too complex" /\
  memorySearch table_scan Samples.long_query (Some "diary") Samples.notes
  = Returns (mkSearch 0 []) /\
  memorySearch table_scan Samples.long_query None empty_db
  = Returns (mkSearch 0 []).
Proof. vm_compute. repeat split. Qed.

Example search_ignores_ascii_case :
  memorySearch table_scan "road" None Samples.notes
  = Returns
      (mkSearch 3
         [mkPreview "id-2" "todo" "task" "ROAD works" 9;
          mkPreview "id-1" "Roadmap" "note" "plan for Q3" 7;
          mkPreview "id-3" "road trip" "note" "undefined" 7]).
Proof. reflexivity. Qed.

End MemoryTheory.

(* ===================================================================== *)
(** ** Properties of the dispatcher                                       *)
(* ===================================================================== *)

Module DispatchTheory.

Import Dispatch.

Lemma switch_none {A} (labels : list (string * A)) name :
  switch labels name = None <-> ~ In name (map fst labels).
Proof.
  induction labels as [|[label a] rest IH]; simpl.
  - split; [intros _ [] | reflexivity].
  - destruct (String.eqb_spec name label) as [->|Hne].
    + split; [discriminate|]. intros H. exfalso. apply H. now left.
    + rewrite IH. split.
      * intros H [Heq|Hin]; [now apply Hne | now apply H].
      * intros H Hin. apply H. now right.
Qed.

(** Every announced tool has a case, and every case is announced. *)
Lemma cases_are_registered : map fst cases = registered_tools.
Proof. reflexivity. Qed.

(** C6.  A name outside the registered set takes the [default] branch: the
    handler returns (it does not throw) a result whose [isError] is [true]
    and whose text is "Error: Unknown tool: " followed by the name, and the
    process state is untouched. *)
Theorem unknown_tool_is_error_result
    {world arguments : Type}
    (body : tool -> arguments -> world -> outcome string * world)
    (name : string) (args : arguments) (w : world) :
  ~ In name registered_tools ->
  exists message,
    call_tool world arguments body name args w
      = (Returns (mkResult [mkItem "text" message] true), w) /\
    message = "Error: Unknown tool: " +:+ name /\
    mentions message name.
Proof.
  intros Hunknown. rewrite <- cases_are_registered in Hunknown.
  apply switch_none in Hunknown.
  unfold call_tool, try_block. rewrite Hunknown.
  eexists. split; [reflexivity|]. split; [reflexivity|].
  exists "Error: Unknown tool: ", "".
  now rewrite Facts.append_empty_r.
Qed.

Lemma unknown_tool_is_error_result_witness :
  exists message,
    call_tool unit unit (fun _ _ w => (Returns "done", w))
      "github_create_issue" tt tt
      = (Returns (mkResult [mkItem "text" message] true), tt) /\
    message = "Error: Unknown tool: github_create_issue" /\
    mentions message "github_create_issue".
Proof.
  apply (unknown_tool_is_error_result (fun _ _ w => (Returns "done", w))
           "github_create_issue" tt tt).
  intros H. simpl in H.
  repeat (destruct H as [H|H]; [discriminate|]). destruct H.
Defined.

(** A registered tool goes to its case, and a throwing body is reported the
    same way, still as a returned result. *)
Example known_tool_failure :
  call_tool unit unit (fun _ _ w => (Throws "Old text not found in file", w))
    "fs_edit_file" tt tt
  = (Returns (mkResult [mkItem "text" "Error: Old text not found in file"]
                true), tt).
Proof. reflexivity. Qed.

End DispatchTheory.

(* ===================================================================== *)
(** ** Properties of the session registry                                 *)
(* ===================================================================== *)

Module SessionsTheory.

Import Sessions.

Lemma creation_eta c : mkCreation (c_sessionId c) (c_session c) = c.
Proof. now destruct c. Qed.

(** In a list whose images under [f] are distinct, [f] is injective. *)
Lemma nodup_map_injective {A B} (f : A -> B) (l : list A) a b :
  List.NoDup (map f l) -> In a l -> In b l -> f a = f b -> a = b.
Proof.
  induction l as [|x l IH]; simpl; intros Hnd Ha Hb Hf; [destruct Ha|].
  apply List.NoDup_cons_iff in Hnd. destruct Hnd as [Hx Hnd].
  destruct Ha as [->|Ha], Hb as [->|Hb].
  - reflexivity.
  - exfalso. apply Hx. rewrite Hf. now apply in_map.
  - exfalso. apply Hx. rewrite <- Hf. now apply in_map.
  - now apply IH.
Qed.

Lemma run_app l1 l2 st : run (l1 ++ l2) st = run l2 (run l1 st).
Proof. unfold run. apply fold_left_app. Qed.

Lemma collision_free_app l1 l2 st :
  collision_free (l1 ++ l2) st <->
  collision_free l1 st /\ collision_free l2 (run l1 st).
Proof.
  revert st. induction l1 as [|a l1 IH]; intros st; simpl.
  - split; [intros H; now split | now intros [_ H]].
  - rewrite IH. split.
    + intros (Ha & H1 & H2). repeat split; assumption.
    + intros ((Ha & H1) & H2). repeat split; assumption.
Qed.

(** The record of creations only grows. *)
Lemma exec_keeps_creations a st c :
  In c (creations st) -> In c (creations (exec a st)).
Proof.
  intros Hc. destruct a as [header uuid|k|k|header]; simpl.
  - destruct (resolve header st); [assumption|].
    simpl. apply in_or_app. now left.
  - now destruct (nth_error (creations st) k).
  - now destruct (nth_error (creations st) k).
  - unfold delete_mcp. destruct header as [id|]; [|assumption].
    now destruct (resolve (Some id) st).
Qed.

Lemma run_keeps_creations l st c :
  In c (creations st) -> In c (creations (run l st)).
Proof.
  revert st. induction l as [|a l IH]; intros st Hc; [assumption|].
  apply IH. now apply exec_keeps_creations.
Qed.

Lemma init_coherent : coherent init.
Proof.
  unfold coherent, init, minted. simpl. repeat split.
  - constructor.
  - intros c [].
  - intros id s H. rewrite lookup_empty in H. discriminate.
  - intros k c H. destruct k; discriminate.
Qed.

Lemma set_coherent st c :
  coherent st -> In c (creations st) ->
  coherent (mkState (<[c_sessionId c := c_session c]> (sessions st))
                    (next_object st) (creations st)).
Proof.
  intros (Hnd & Hne & Hbound & Hnext & Hobj) Hc.
  unfold coherent, minted. simpl. repeat split; try assumption.
  intros id s Hs. apply lookup_insert_Some in Hs.
  destruct Hs as [[<- <-]|[_ Hs]].
  - now rewrite creation_eta.
  - now apply Hbound.
Qed.

Lemma post_create_coherent uuid st :
  coherent st -> uuid <> "" -> ~ In uuid (minted st) ->
  coherent (snd (post_create uuid st)).
Proof.
  intros (Hnd & Hne & Hbound & Hnext & Hobj) Huuid Hfresh.
  unfold coherent, minted, post_create in *. simpl.
  rewrite map_app, length_app. simpl. repeat split.
  - apply List.NoDup_app; [assumption| |].
    + constructor; [intros [] | constructor].
    + intros x Hx [<-|[]]. now apply Hfresh.
  - intros c Hc. apply in_app_or in Hc. destruct Hc as [Hc|[<-|[]]].
    + now apply Hne.
    + exact Huuid.
  - intros id s Hs. apply in_or_app. left. now apply Hbound.
  - lia.
  - intros k c Hk.
    destruct (Nat.lt_ge_cases k (length (creations st))) as [Hlt|Hge].
    + rewrite nth_error_app1 in Hk by assumption. now apply Hobj.
    + rewrite nth_error_app2 in Hk by assumption.
      destruct (k - length (creations st)) as [|n] eqn:E; simpl in Hk.
      * injection Hk as <-. simpl. rewrite Hnext. f_equal; lia.
      * destruct n; discriminate.
Qed.

Lemma delete_coherent header st :
  coherent st -> coherent (snd (delete_mcp header st)).
Proof.
  intros Hco. unfold delete_mcp. destruct header as [id|]; [|assumption].
  destruct (resolve (Some id) st) as [live|]; [|assumption].
  destruct Hco as (Hnd & Hne & Hbound & Hnext & Hobj).
  unfold coherent, minted. simpl. repeat split; try assumption.
  intros id' s Hs. apply lookup_delete_Some in Hs. now apply Hbound.
Qed.

Lemma exec_coherent a st :
  coherent st -> collision_free [a] st -> coherent (exec a st).
Proof.
  intros Hco [Ha _]. destruct a as [header uuid|k|k|header]; simpl in *.
  - destruct (resolve header st); [assumption|].
    destruct Ha as [Huuid Hfresh]. now apply post_create_coherent.
  - destruct (nth_error (creations st) k) as [c|] eqn:E; [|assumption].
    apply set_coherent; [assumption|]. eapply nth_error_In, E.
  - destruct (nth_error (creations st) k) as [c|] eqn:E; [|assumption].
    apply set_coherent; [assumption|]. eapply nth_error_In, E.
  - now apply delete_coherent.
Qed.

Lemma run_coherent l st :
  coherent st -> collision_free l st -> coherent (run l st).
Proof.
  revert st. induction l as [|a l IH]; intros st Hco Hcf; [assumption|].
  destruct Hcf as [Ha Hl]. apply IH; [|assumption].
  apply exec_coherent; [assumption | now split].
Qed.

(** The objects of two creations are apart unless the creations are one. *)
Lemma creations_own_their_objects st c1 c2 :
  coherent st -> In c1 (creations st) -> In c2 (creations st) ->
  server (c_session c1) = server (c_session c2) \/
  transport (c_session c1) = transport (c_session c2) ->
  c1 = c2.
Proof.
  intros (Hnd & _ & _ & _ & Hobj) H1 H2 Hsame.
  apply In_nth_error in H1, H2. destruct H1 as [k1 H1], H2 as [k2 H2].
  pose proof (Hobj _ _ H1) as E1. pose proof (Hobj _ _ H2) as E2.
  rewrite E1, E2 in Hsame. simpl in Hsame.
  assert (k1 = k2) as -> by (destruct Hsame; lia). congruence.
Qed.

(** A state in which the id is live, reached without a collision. *)
Lemma live_id_is_truthy st id s :
  coherent st -> sessions st !! id = Some s -> truthy id = true.
Proof.
  intros (_ & Hne & Hbound & _) Hs.
  apply Facts.truthy_nonempty. exact (Hne _ (Hbound _ _ Hs)).
Qed.

(** C7.  An id in the registry is mapped to the pair made by the creation
    that drew it.  A POST that carries the id is handled by that pair and
    leaves the registry as it is; and whatever the routes do afterwards, in
    any interleaving, the id is never found bound to another pair. *)
Theorem session_id_resolves_to_one_pair
    (before after : list step) (id : string) (s : session) :
  collision_free (before ++ after) init ->
  sessions (run before init) !! id = Some s ->
  In (mkCreation id s) (creations (run before init)) /\
  (forall uuid,
     post_mcp (Some id) uuid (run before init)
       = ((id, s), run before init)) /\
  (forall s', sessions (run (before ++ after) init) !! id = Some s' ->
              s' = s).
Proof.
  intros Hcf Hs. apply collision_free_app in Hcf. destruct Hcf as [H1 H2].
  pose proof (run_coherent before init init_coherent H1) as Hco1.
  pose proof (run_coherent after _ Hco1 H2) as Hco2.
  split; [now apply Hco1|]. split.
  - intros uuid. unfold post_mcp, resolve.
    now rewrite (live_id_is_truthy _ _ _ Hco1 Hs), Hs.
  - intros s' Hs'. rewrite run_app in Hs'.
    destruct Hco1 as (_ & _ & Hbound1 & _).
    destruct Hco2 as (Hnd & _ & Hbound2 & _).
    pose proof (run_keeps_creations after _ _ (Hbound1 _ _ Hs)) as Hc.
    pose proof (Hbound2 _ _ Hs') as Hc'.
    pose proof (nodup_map_injective c_sessionId _ _ _ Hnd Hc Hc' eq_refl).
    congruence.
Qed.

(** C8.  [DELETE /mcp] with the id of a live session answers 200 and
    removes that entry alone; with no id, an empty id or an unknown id it
    answers 404 and changes nothing.  A POST that then carries the removed
    id is not resolved: it is answered under the id [randomUUID()] returns,
    by a server and a transport that were just created and that no session
    of the registry had, and it is that pair which is registered. *)
Theorem delete_then_post
    (st : state) (id : string) (s : session) (uuid : string) :
  coherent st ->
  sessions st !! id = Some s ->
  uuid <> "" -> ~ In uuid (minted st) ->
  (forall header, resolve header st = None ->
                  delete_mcp header st = (404, st)) /\
  exists st1,
    delete_mcp (Some id) st = (200, st1) /\
    sessions st1 = delete id (sessions st) /\
    resolve (Some id) st1 = None /\
    exists s' st2,
      post_mcp (Some id) uuid st1 = ((uuid, s'), st2) /\
      uuid <> id /\
      sessions st2 !! uuid = Some s' /\
      sessions st2 !! id = None /\
      (forall id0 s0, sessions st !! id0 = Some s0 ->
         server s' <> server s0 /\ transport s' <> transport s0 /\
         server s' <> transport s0 /\ transport s' <> server s0).
Proof.
  intros Hco Hs Huuid Hfresh.
  pose proof (live_id_is_truthy _ _ _ Hco Hs) as Hid.
  assert (Hne : uuid <> id).
  { intros ->. apply Hfresh. destruct Hco as (_ & _ & Hbound & _).
    exact (in_map c_sessionId _ _ (Hbound _ _ Hs)). }
  split.
  - intros header Hnone. unfold delete_mcp.
    destruct header as [h|]; [|reflexivity]. now rewrite Hnone.
  - unfold delete_mcp, resolve. rewrite Hid, Hs.
    eexists. split; [reflexivity|]. simpl. split; [reflexivity|].
    rewrite Hid, lookup_delete_eq. split; [reflexivity|].
    eexists _, _. split; [reflexivity|]. simpl.
    split; [exact Hne|]. split; [apply lookup_insert_eq|].
    split.
    + rewrite lookup_insert_ne by exact Hne. apply lookup_delete_eq.
    + intros id0 s0 Hs0.
      destruct Hco as (_ & _ & Hbound & Hnext & Hobj).
      apply Hbound, In_nth_error in Hs0. destruct Hs0 as [k Hk].
      pose proof (Hobj _ _ Hk) as E. simpl in E. subst s0. simpl.
      assert (k < length (creations st))
        by (apply nth_error_Some; congruence).
      repeat split; lia.
Qed.

Lemma exec_keeps_session a st id s :
  coherent st -> a <> Delete (Some id) ->
  sessions st !! id = Some s ->
  sessions (exec a st) !! id = Some s.
Proof.
  intros Hco Ha Hs. destruct a as [header uuid|k|k|header]; simpl.
  - now destruct (resolve header st).
  - destruct (nth_error (creations st) k) as [c|] eqn:E; [|assumption].
    simpl. destruct (String.string_dec (c_sessionId c) id) as [Heq|Hne].
    + destruct Hco as (Hnd & _ & Hbound & _).
      pose proof (nodup_map_injective c_sessionId _ _ _ Hnd
                    (nth_error_In _ _ E) (Hbound _ _ Hs) Heq) as ->.
      simpl. apply lookup_insert_eq.
    + now rewrite lookup_insert_ne.
  - destruct (nth_error (creations st) k) as [c|] eqn:E; [|assumption].
    simpl. destruct (String.string_dec (c_sessionId c) id) as [Heq|Hne].
    + destruct Hco as (Hnd & _ & Hbound & _).
      pose proof (nodup_map_injective c_sessionId _ _ _ Hnd
                    (nth_error_In _ _ E) (Hbound _ _ Hs) Heq) as ->.
      simpl. apply lookup_insert_eq.
    + now rewrite lookup_insert_ne.
  - unfold delete_mcp. destruct header as [id'|]; [|assumption].
    destruct (resolve (Some id') st); [|assumption]. simpl.
    rewrite lookup_delete_ne; [assumption|]. intros ->. now apply Ha.
Qed.

Section Generator.

(** [randomUUID()] as the route sees it: the strings it returns, in the
    order of the calls; it never returns the same string twice, nor the
    empty string. *)
Variable uuid_of : nat -> string.
Hypothesis uuid_of_inj : forall m n, uuid_of m = uuid_of n -> m = n.
Hypothesis uuid_of_nonempty : forall n, uuid_of n <> "".

(** The id a creation draws was drawn by no creation before it: no code
    checks this, it follows from the creation using the string that
    [randomUUID()] returned to it, as it is. *)
Lemma next_uuid_is_new st :
  drawn_in_turn uuid_of st ->
  ~ In (uuid_of (length (creations st))) (minted st).
Proof.
  intros Hdrawn Hin. rewrite Hdrawn in Hin. apply in_map_iff in Hin.
  destruct Hin as (n & Heq & Hn). apply in_seq in Hn.
  apply uuid_of_inj in Heq. lia.
Qed.

Lemma exec_post_new header uuid st :
  resolve header st = None ->
  exec (Post header uuid) st
  = mkState (sessions st) (S (S (next_object st)))
      (creations st ++
       [mkCreation uuid
          (mkSession (S (next_object st)) (next_object st))]).
Proof. intros H. simpl. now rewrite H. Qed.

Lemma step_of_collision_free e st :
  drawn_in_turn uuid_of st -> collision_free [step_of uuid_of e st] st.
Proof.
  intros Hdrawn. split; [|exact I]. destruct e as [header|k|k|header];
    simpl; try exact I.
  destruct (resolve header st); [exact I|].
  split; [apply uuid_of_nonempty | now apply next_uuid_is_new].
Qed.

Lemma exec_drawn_in_turn e st :
  drawn_in_turn uuid_of st ->
  drawn_in_turn uuid_of (exec (step_of uuid_of e st) st).
Proof.
  unfold drawn_in_turn, minted. intros Hdrawn.
  destruct e as [header|k|k|header]; simpl.
  - destruct (resolve header st); [assumption|]. simpl.
    rewrite map_app, length_app, Hdrawn. simpl.
    rewrite Nat.add_1_r, seq_S, map_app. reflexivity.
  - now destruct (nth_error (creations st) k).
  - now destruct (nth_error (creations st) k).
  - unfold delete_mcp. destruct header as [id|]; [|assumption].
    now destruct (resolve (Some id) st).
Qed.

Lemma play_keeps_shape events st :
  coherent st -> drawn_in_turn uuid_of st ->
  coherent (play uuid_of events st) /\
  drawn_in_turn uuid_of (play uuid_of events st).
Proof.
  revert st. induction events as [|e events IH]; intros st Hco Hdrawn;
    [now split|].
  simpl. apply IH.
  - apply exec_coherent; [assumption | now apply step_of_collision_free].
  - now apply exec_drawn_in_turn.
Qed.

Lemma play_keeps_session events st id s :
  coherent st -> drawn_in_turn uuid_of st ->
  sessions st !! id = Some s ->
  Forall (fun e => e <> Close (Some id)) events ->
  sessions (play uuid_of events st) !! id = Some s.
Proof.
  revert st. induction events as [|e events IH];
    intros st Hco Hdrawn Hs Hevents; [assumption|].
  apply Forall_cons_iff in Hevents. destruct Hevents as [He Hevents].
  simpl. apply IH; try assumption.
  - apply exec_coherent; [assumption | now apply step_of_collision_free].
  - now apply exec_drawn_in_turn.
  - apply exec_keeps_session; [assumption| |assumption].
    destruct e; simpl; try discriminate. intros [= ->]. now apply He.
Qed.

(** C9.  The id of a creation is the string [randomUUID()] returned to it,
    and [randomUUID()] never returns the same string twice.  Then, however
    the POSTs, the ends of their [await]s, the transports' reports and the
    DELETEs interleave: no id is handed out twice; every registered id is
    mapped to the pair made by the creation that drew it; two creations
    never share an id, a server or a transport; a creation whose [await]
    ends is registered under its id with its own pair, and stays so until
    a DELETE carries that id; and two POSTs that carry the same unknown id
    and race each other end up as two sessions under two new ids, each with
    its own pair, the id they carried being registered by neither. *)
Theorem concurrent_creations_stay_apart (events : list event) :
  let st := play uuid_of events init in
  List.NoDup (minted st) /\
  (forall id s, sessions st !! id = Some s ->
                In (mkCreation id s) (creations st)) /\
  (forall c1 c2, In c1 (creations st) -> In c2 (creations st) ->
     c_sessionId c1 = c_sessionId c2 \/
     server (c_session c1) = server (c_session c2) \/
     transport (c_session c1) = transport (c_session c2) ->
     c1 = c2) /\
  (forall k c later,
     nth_error (creations st) k = Some c ->
     Forall (fun e => e <> Close (Some (c_sessionId c))) later ->
     sessions (play uuid_of (Resume k :: later) st) !! c_sessionId c
     = Some (c_session c)) /\
  (forall header,
     resolve header st = None ->
     let n := length (creations st) in
     let st' := play uuid_of
                  [Arrive header; Arrive header; Resume (S n); Resume n]
                  st in
     uuid_of n <> uuid_of (S n) /\
     sessions st' !! uuid_of n = Some (mkSession (2 * n + 1) (2 * n)) /\
     sessions st' !! uuid_of (S n)
     = Some (mkSession (2 * n + 3) (2 * n + 2)) /\
     (forall id s, sessions st' !! id = Some s ->
        sessions st !! id = Some s \/
        id = uuid_of n \/ id = uuid_of (S n))).
Proof.
  intros st.
  assert (Hinit : drawn_in_turn uuid_of init) by reflexivity.
  destruct (play_keeps_shape events init init_coherent Hinit)
    as [Hco Hdrawn].
  fold st in Hco, Hdrawn.
  split; [apply Hco|]. split; [apply Hco|]. split; [|split].
  - intros c1 c2 H1 H2 [Hid|Hobj].
    + destruct Hco as (Hnd & _).
      exact (nodup_map_injective c_sessionId _ _ _ Hnd H1 H2 Hid).
    + exact (creations_own_their_objects _ _ _ Hco H1 H2 Hobj).
  - intros k c later Hk Hlater.
    change (play uuid_of (Resume k :: later) st)
      with (play uuid_of later (exec (step_of uuid_of (Resume k) st) st)).
    apply play_keeps_session.
    + apply exec_coherent; [assumption | now apply step_of_collision_free].
    + now apply exec_drawn_in_turn.
    + simpl. rewrite Hk. simpl. apply lookup_insert_eq.
    + exact Hlater.
  - intros header Hnone n st'.
    assert (Hne : uuid_of n <> uuid_of (S n))
      by (intros Heq; apply uuid_of_inj in Heq; lia).
    assert (Hnext : next_object st = 2 * n) by apply Hco.
    assert (Hst' :
      sessions st'
      = <[uuid_of n := mkSession (2 * n + 1) (2 * n)]>
          (<[uuid_of (S n) := mkSession (2 * n + 3) (2 * n + 2)]>
             (sessions st))).
    { subst st'. cbn [play step_of].
      rewrite (exec_post_new header _ st Hnone).
      rewrite exec_post_new by exact Hnone.
      cbn [creations sessions next_object].
      rewrite length_app. cbn [length]. fold n.
      replace (n + 1) with (S n) by lia.
      rewrite <- app_assoc. cbn [app].
      cbn [exec creations].
      rewrite (nth_error_app2 (creations st)) by (fold n; lia).
      fold n. replace (S n - n) with 1 by lia. cbn [nth_error].
      cbn [post_bind creations sessions next_object c_sessionId c_session].
      rewrite (nth_error_app2 (creations st)) by (fold n; lia).
      fold n. replace (n - n) with 0 by lia. cbn [nth_error].
      cbn [post_bind creations sessions next_object c_sessionId c_session].
      rewrite Hnext. repeat f_equal; lia. }
    split; [exact Hne|]. rewrite Hst'. split; [apply lookup_insert_eq|].
    split.
    + rewrite lookup_insert_ne by exact Hne. apply lookup_insert_eq.
    + intros id s0 Hs0. apply lookup_insert_Some in Hs0.
      destruct Hs0 as [[<- _]|[_ Hs0]]; [right; now left|].
      apply lookup_insert_Some in Hs0.
      destruct Hs0 as [[<- _]|[_ Hs0]]; [right; now right | now left].
Qed.

End Generator.

Lemma numbered_length n : String.length (Samples.numbered n) = S n.
Proof. induction n as [|n IH]; simpl; congruence. Qed.

Lemma numbered_inj m n : Samples.numbered m = Samples.numbered n -> m = n.
Proof.
  intros H. apply (f_equal String.length) in H.
  rewrite !numbered_length in H. congruence.
Qed.

Lemma numbered_nonempty n : Samples.numbered n <> "".
Proof. destruct n; discriminate. Qed.

Ltac collision_free_here :=
  simpl; repeat split; try discriminate;
  intros H; simpl in H; repeat (destruct H as [H|H]; [discriminate|]);
  destruct H.

Lemma session_id_resolves_to_one_pair_witness :
  In (mkCreation "s-1" (mkSession 1 0))
     (creations (run Samples.opening init)) /\
  (forall uuid,
     post_mcp (Some "s-1") uuid (run Samples.opening init)
       = (("s-1", mkSession 1 0), run Samples.opening init)) /\
  (forall s',
     sessions (run (Samples.opening ++ Samples.afterwards) init) !! "s-1"
       = Some s' ->
     s' = mkSession 1 0).
Proof.
  apply (session_id_resolves_to_one_pair Samples.opening Samples.afterwards
           "s-1" (mkSession 1 0)).
  - collision_free_here.
  - vm_compute. reflexivity.
Defined.

Lemma delete_then_post_witness :
  exists st1,
    delete_mcp (Some "s-2") (run Samples.opening init) = (200, st1) /\
    sessions st1 = delete "s-2" (sessions (run Samples.opening init)) /\
    resolve (Some "s-2") st1 = None /\
    exists s' st2,
      post_mcp (Some "s-2") "s-4" st1 = (("s-4", s'), st2) /\
      "s-4" <> "s-2" /\
      sessions st2 !! "s-4" = Some s' /\
      sessions st2 !! "s-2" = None /\
      (forall id0 s0,
         sessions (run Samples.opening init) !! id0 = Some s0 ->
         server s' <> server s0 /\ transport s' <> transport s0 /\
         server s' <> transport s0 /\ transport s' <> server s0).
Proof.
  apply (delete_then_post (run Samples.opening init) "s-2" (mkSession 3 2)
           "s-4").
  - apply run_coherent; [apply init_coherent | collision_free_here].
  - vm_compute. reflexivity.
  - discriminate.
  - intros H. simpl in H.
    repeat (destruct H as [H|H]; [discriminate|]). destruct H.
Defined.

(** Three POSTs arrive before any creation resumes: the first creation is
    registered when it resumes and survives a later creation and the
    DELETE of another id. *)
Lemma concurrent_creations_stay_apart_witness :
  let st := play Samples.numbered Samples.arrivals init in
  List.NoDup (minted st) /\
  sessions
    (play Samples.numbered
       [Resume 0; Arrive None; Close (Some (Samples.numbered 1))] st)
    !! Samples.numbered 0
  = Some (mkSession 1 0).
Proof.
  intros st.
  destruct (concurrent_creations_stay_apart Samples.numbered numbered_inj
              numbered_nonempty Samples.arrivals)
    as (Hdistinct & _ & _ & Hresume & _).
  split; [exact Hdistinct|].
  apply (Hresume 0 (mkCreation (Samples.numbered 0) (mkSession 1 0))
           [Arrive None; Close (Some (Samples.numbered 1))]).
  - reflexivity.
  - repeat constructor; discriminate.
Defined.

(** Scenario D of the specification: two POSTs without an id are answered
    under two ids, and a third POST carrying the first id is handled by the
    pair of the first. *)
Example two_sessions_then_reuse :
  let '(first, st1) := post_mcp None "s-1" init in
  let '(second, st2) := post_mcp None "s-2" st1 in
  let '(third, st3) := post_mcp (Some "s-1") "s-3" st2 in
  first = ("s-1", mkSession 1 0) /\
  second = ("s-2", mkSession 3 2) /\
  third = first /\
  sessions st3 = sessions st2.
Proof. vm_compute. repeat split. Qed.

(** A missing, an empty and an unknown id are all answered 404. *)
Example delete_unknown :
  delete_mcp None init = (404, init) /\
  delete_mcp (Some "") init = (404, init) /\
  delete_mcp (Some "s-9") init = (404, init).
Proof. repeat split. Qed.

End SessionsTheory.

(* ===================================================================== *)
(** ** Properties of the workspace file helpers                           *)
(* ===================================================================== *)

Module FilesystemTheory.

Import Filesystem.

Section Guard.

Variable FS : Type.
Variable fs_mkdir : string -> FS -> outcome unit * FS.
Variable fs_writeFile : string -> string -> FS -> outcome unit * FS.
Variable fs_readFile : string -> FS -> outcome string * FS.
Variable fs_stat : string -> FS -> outcome stats * FS.
Variable fs_unlink : string -> FS -> outcome unit * FS.
Variable fs_readdir : string -> FS -> outcome (list dirent) * FS.
Variable path_resolve : string -> string -> string.
Variable path_dirname : string -> string.
Variable path_join : string -> string -> string.
Variable includes : string -> string -> bool.
Variable replace : string -> string -> string -> string.
Variable WORKSPACE_DIR : string.

Local Abbreviation tool :=
  (fs_tool FS fs_mkdir fs_writeFile fs_readFile fs_stat fs_unlink fs_readdir
     path_resolve path_dirname path_join includes replace WORKSPACE_DIR).
Local Abbreviation inside := (inside path_resolve WORKSPACE_DIR).

Lemma denied (c : fs_call) (w : FS) :
  inside c = false ->
  tool c w = (Throws "Access denied: Path is outside workspace", w).
Proof.
  unfold inside. intros H.
  destruct c; simpl in H; simpl;
    unfold writeFile, readFile, editFile, deleteFile, createDirectory,
           listDirectory, getDirectoryTree, bind, resolvePath;
    rewrite H; reflexivity.
Qed.

(** C10.  For each of the seven file tools: when the resolution of the
    path argument does not start with the workspace directory string, the
    call rejects with "Access denied: Path is outside workspace" and the
    file system is exactly as before, whatever the [fs] calls would have
    done; so a call that fulfils, or that leaves the file system changed,
    had a path whose resolution starts with that string. *)
Theorem workspace_guard (c : fs_call) (w : FS) :
  (inside c = false ->
   tool c w = (Throws "Access denied: Path is outside workspace", w)) /\
  (forall r w', tool c w = (Returns r, w') -> inside c = true) /\
  (snd (tool c w) <> w -> inside c = true).
Proof.
  split; [apply denied|]. split.
  - intros r w' Hrun. destruct (inside c) eqn:E; [reflexivity|].
    rewrite (denied c w E) in Hrun. discriminate.
  - intros Hchanged. destruct (inside c) eqn:E; [reflexivity|].
    rewrite (denied c w E) in Hchanged. now contradiction Hchanged.
Qed.

End Guard.

(** A path that climbs out of the workspace is refused before any call to
    the file system is made. *)
Lemma workspace_guard_witness :
  recorded "/tmp/workspace" (ReadFile "../../etc/passwd") []
  = (Throws "Access denied: Path is outside workspace", []).
Proof.
  apply (proj1 (workspace_guard log _ _ _ _ _ _ posix_resolve posix_dirname
                  posix_join string_includes replace_first "/tmp/workspace"
                  (ReadFile "../../etc/passwd") [])).
  reflexivity.
Defined.

(** Inside the workspace the helpers run: [fs_write_file] creates the
    parent directory, then writes. *)
Example write_inside :
  recorded "/tmp/workspace" (WriteFile "src/a.txt" "hi") []
  = (Returns (Written "src/a.txt" 2),
     [Mkdir "/tmp/workspace/src";
      WriteFileAt "/tmp/workspace/src/a.txt" "hi"]).
Proof. reflexivity. Qed.

(** The test is on the characters of the resolved path: a sibling of the
    workspace whose name extends the workspace's passes it. *)
Example sibling_with_same_prefix :
  recorded "/tmp/workspace" (DeleteFile "../workspace-old/a.txt") []
  = (Returns (Succeeded "../workspace-old/a.txt"),
     [Unlink "/tmp/workspace-old/a.txt"]).
Proof. reflexivity. Qed.

Example list_defaults_to_root :
  recorded "/tmp/workspace" (ListDirectory None) []
  = (Returns (Listing "." []), [Readdir "/tmp/workspace"]).
Proof. reflexivity. Qed.

End FilesystemTheory.

(* ===================================================================== *)
(** ** More on the memory store                                           *)
(* ===================================================================== *)

Module MemoryMore.

Import Memory.
Import StoreShape.
Import Facts.

Lemma existsb_false_inv {A} (f : A -> bool) (l : list A) x :
  existsb f l = false -> In x l -> f x = false.
Proof.
  induction l as [|y l IH]; simpl; [intros _ []|].
  intros H [->|Hin]; apply orb_false_iff in H; destruct H as [Hy Hl];
    [assumption | now apply IH].
Qed.

Lemma nodup_map_filter {A B} (f : A -> B) (p : A -> bool) (l : list A) :
  List.NoDup (map f l) -> List.NoDup (map f (List.filter p l)).
Proof.
  induction l as [|x l IH]; simpl; intros H; [constructor|].
  apply List.NoDup_cons_iff in H. destruct H as [Hx Hl].
  destruct (p x); simpl; [|now apply IH].
  constructor; [|now apply IH].
  intros Hin. apply Hx. apply in_map_iff in Hin.
  destruct Hin as (y & Hy & Hin). apply filter_In in Hin.
  apply in_map_iff. exists y. tauto.
Qed.

Lemma nodup_map_snoc {A B} (f : A -> B) (l : list A) (x : A) :
  List.NoDup (map f l) -> ~ In (f x) (map f l) ->
  List.NoDup (map f (l ++ [x])).
Proof.
  intros Hl Hx. rewrite map_app. simpl.
  apply List.NoDup_app; [assumption | |].
  - constructor; [intros [] | constructor].
  - intros y Hy [<-|[]]. now apply Hx.
Qed.

Lemma update_row_keeps_key {JSON} (stringify : JSON -> string)
    now content metadata e :
  ent_id (update_row JSON stringify now content metadata e) = ent_id e /\
  ent_name (update_row JSON stringify now content metadata e) = ent_name e.
Proof. split; reflexivity. Qed.

(** A filter on the id and the name sees through a rewrite that keeps
    both. *)
Lemma filter_map_keeping_key (g : entity -> entity) (q : string) es :
  (forall e, ent_id (g e) = ent_id e /\ ent_name (g e) = ent_name e) ->
  List.filter (fun e => id_is q e || name_is q e) (map g es)
  = map g (List.filter (fun e => id_is q e || name_is q e) es).
Proof.
  intros Hg. induction es as [|x es IH]; simpl; [reflexivity|].
  destruct (Hg x) as [Hid Hname].
  unfold id_is, name_is in *. rewrite Hid, Hname.
  destruct (_ || _); simpl; now rewrite IH.
Qed.

Lemma sorted_app_order {A} (R : A -> A -> Prop) (l1 l2 : list A) a b :
  StronglySorted R (l1 ++ l2) -> In a l1 -> In b l2 -> R a b.
Proof.
  induction l1 as [|x l1 IH]; simpl; intros Hs Ha Hb; [destruct Ha|].
  apply StronglySorted_inv in Hs. destruct Hs as [Hs Hx].
  destruct Ha as [->|Ha]; [|now apply IH].
  rewrite List.Forall_forall in Hx. apply Hx. apply in_or_app. now right.
Qed.

(** The first [k] rows of the ordered selection, and what is left out. *)
Lemma newest_k (scan : list entity -> list entity) (k : nat) sel :
  arranges scan ->
  let sorted := order_by_updated_desc (scan sel) in
  Permutation (firstn k sorted ++ skipn k sorted) sel /\
  length (firstn k sorted) = Nat.min k (length sel) /\
  StronglySorted newer_or_same (firstn k sorted) /\
  (forall r x, In r (firstn k sorted) -> In x (skipn k sorted) ->
               ent_updated_at x <= ent_updated_at r) /\
  (length sel <= k -> skipn k sorted = []).
Proof.
  intros HP sorted.
  assert (Hperm : Permutation sorted sel).
  { unfold sorted. rewrite MemoryTheory.order_by_perm. apply HP. }
  assert (Hsorted : StronglySorted newer_or_same sorted)
    by apply MemoryTheory.order_by_sorted.
  repeat split.
  - now rewrite firstn_skipn.
  - rewrite length_firstn. now rewrite (Permutation_length Hperm).
  - now apply MemoryTheory.firstn_sorted.
  - intros r x Hr Hx. rewrite <- (firstn_skipn k sorted) in Hsorted.
    exact (sorted_app_order _ _ _ _ _ Hsorted Hr Hx).
  - intros Hlen. apply skipn_all2.
    now rewrite (Permutation_length Hperm).
Qed.

Lemma like_two_percents s : like "%%" s = true.
Proof.
  rewrite MemoryTheory.like_percent, MemoryTheory.like_percent_only.
  reflexivity.
Qed.

Lemma to_lower_is_percent c : to_lower c = "%"%char -> c = "%"%char.
Proof.
  destruct c as [[] [] [] [] [] [] [] []]; vm_compute; intros H;
    try reflexivity; discriminate.
Qed.

Lemma to_lower_is_underscore c : to_lower c = "_"%char -> c = "_"%char.
Proof.
  destruct c as [[] [] [] [] [] [] [] []]; vm_compute; intros H;
    try reflexivity; discriminate.
Qed.

Lemma same_lower_same_wildcard c c' (w : ascii) :
  (forall x, to_lower x = w -> x = w) -> to_lower w = w ->
  to_lower c = to_lower c' -> Ascii.eqb c w = Ascii.eqb c' w.
Proof.
  intros Hw Hfix Hcc.
  destruct (Ascii.eqb_spec c w) as [->|Hc];
    destruct (Ascii.eqb_spec c' w) as [->|Hc']; try reflexivity.
  - exfalso. apply Hc'. apply Hw. now rewrite <- Hcc.
  - exfalso. apply Hc. apply Hw. now rewrite Hcc.
Qed.

(** [LIKE] does not tell patterns apart that differ in the case of ASCII
    letters only. *)
Lemma like_same_lower p p' t :
  lower p = lower p' -> like p t = like p' t.
Proof.
  revert p' t. induction p as [|c p IH]; intros [|c' p'] t Hl;
    try discriminate; [reflexivity|].
  simpl in Hl. injection Hl as Hc Hl.
  pose proof (same_lower_same_wildcard c c' "%" to_lower_is_percent
                eq_refl Hc) as Hpct.
  pose proof (same_lower_same_wildcard c c' "_" to_lower_is_underscore
                eq_refl Hc) as Hund.
  destruct (Ascii.eqb c "%") eqn:E.
  - apply Ascii.eqb_eq in E. symmetry in Hpct.
    apply Ascii.eqb_eq in Hpct. subst c c'.
    induction t as [|d t IHt].
    + rewrite !MemoryTheory.like_percent. now rewrite (IH p' "" Hl).
    + rewrite (MemoryTheory.like_percent p), (MemoryTheory.like_percent p').
      now rewrite (IH p' _ Hl), IHt.
  - cbn [like]. rewrite <- Hpct, E. destruct t as [|d t]; [reflexivity|].
    rewrite <- Hund. unfold eq_nocase. rewrite Hc. now rewrite (IH p' t Hl).
Qed.

Lemma lower_append a b : lower (a +:+ b) = lower a +:+ lower b.
Proof.
  induction a as [|c a IH]; [reflexivity|].
  change (String (to_lower c) (lower (a +:+ b))
          = String (to_lower c) (lower a +:+ lower b)).
  now rewrite IH.
Qed.

Lemma length_append (a b : string) :
  String.length (a +:+ b) = String.length a + String.length b.
Proof.
  induction a as [|c a IH]; [reflexivity|].
  change (S (String.length (a +:+ b))
          = S (String.length a + String.length b)).
  now rewrite IH.
Qed.

Lemma substring_short n c : String.length (String.substring 0 n c) <= n.
Proof.
  revert c. induction n as [|n IH]; intros [|a c]; simpl; try lia.
  specialize (IH c). lia.
Qed.

(** With distinct ids, the rows that carry a given id are the one [find]
    returns, if any. *)
Lemma filter_unique_id k es :
  List.NoDup (map ent_id es) ->
  List.filter (id_is k) es
  = match find (id_is k) es with Some e => [e] | None => [] end.
Proof.
  induction es as [|x es IH]; simpl; intros Hnd; [reflexivity|].
  apply List.NoDup_cons_iff in Hnd. destruct Hnd as [Hx Hnd].
  destruct (id_is k x) eqn:E; [|now apply IH].
  f_equal. apply filter_none. intros e He.
  apply MemoryTheory.id_is_false. apply MemoryTheory.id_is_true in E.
  intros Heq. apply Hx. apply in_map_iff. exists e. split; congruence.
Qed.

Lemma find_unique_id k es e :
  List.NoDup (map ent_id es) -> In e es -> ent_id e = k ->
  find (id_is k) es = Some e.
Proof.
  induction es as [|x es IH]; simpl; intros Hnd Hin Hid; [destruct Hin|].
  apply List.NoDup_cons_iff in Hnd. destruct Hnd as [Hx Hnd].
  destruct (id_is k x) eqn:E.
  - destruct Hin as [->|Hin]; [reflexivity|]. exfalso.
    apply MemoryTheory.id_is_true in E. apply Hx.
    apply in_map_iff. exists e. split; congruence.
  - destruct Hin as [->|Hin]; [|now apply IH].
    apply MemoryTheory.id_is_false in E. contradiction.
Qed.

Lemma left_join_unique k es :
  List.NoDup (map ent_id es) -> left_join k es = [find (id_is k) es].
Proof.
  intros Hnd. unfold left_join. rewrite filter_unique_id by assumption.
  now destruct (find (id_is k) es).
Qed.

(** With distinct entity ids the join has one row per relation. *)
Lemma join_rows_unique d :
  List.NoDup (map ent_id (entities d)) ->
  join_rows d = map (annotate d) (relations d).
Proof.
  intros Hnd. unfold join_rows.
  induction (relations d) as [|r rs IH]; simpl; [reflexivity|].
  rewrite IH. rewrite !left_join_unique by assumption. reflexivity.
Qed.

Lemma filter_annotated q d rs :
  List.filter (fun j => touches q (j_relation j)) (map (annotate d) rs)
  = map (annotate d) (List.filter (touches q) rs).
Proof.
  induction rs as [|r rs IH]; simpl; [reflexivity|].
  destruct (touches q r); simpl; now rewrite IH.
Qed.

Lemma filter_filter_same {A} (p : A -> bool) (l : list A) :
  List.filter p (List.filter p l) = List.filter p l.
Proof.
  induction l as [|x l IH]; simpl; [reflexivity|].
  destruct (p x) eqn:E; simpl; [now rewrite E, IH | exact IH].
Qed.

Section More.

Set Default Proof Using "Type".

Context {JSON : Type}.
Variable JSON_stringify : JSON -> string.
Variable JSON_parse : string -> option JSON.
Variable entity_scan : list entity -> list entity.
Variable joined_scan : list joined -> list joined.
Variable foreign_keys : bool.

(** X1.  No statement of the store ever makes two rows share an id: if the
    ids of both tables are distinct before [store], [update], [delete] or
    [relate], they are distinct after it, whatever the arguments. *)
Theorem operations_keep_ids_unique (d : db) :
  unique_ids d ->
  (forall now uuid name type content metadata,
     unique_ids (snd (memoryStore JSON_stringify now uuid name type content
                        metadata d))) /\
  (forall now id content metadata,
     unique_ids (snd (memoryUpdate JSON_stringify now id content metadata
                        d))) /\
  (forall id, unique_ids (snd (memoryDelete foreign_keys id d))) /\
  (forall now uuid fromId toId relationType metadata,
     unique_ids (snd (memoryRelate JSON_stringify foreign_keys now uuid
                        fromId toId relationType metadata d))).
Proof.
  intros [He Hr]. split; [|split; [|split]].
  - intros now uuid name type content metadata. unfold memoryStore.
    destruct (existsb (id_is uuid) (entities d)) eqn:E; simpl;
      [now split|].
    split; simpl; [|assumption].
    apply nodup_map_snoc; [assumption|]. simpl.
    intros Hin. apply in_map_iff in Hin. destruct Hin as (e & Hid & Hin).
    pose proof (existsb_false_inv _ _ _ E Hin) as Hf.
    apply String.eqb_neq in Hf. contradiction.
  - intros now id content metadata. split; simpl; [|assumption].
    rewrite map_map.
    erewrite map_ext; [exact He|].
    intros e. simpl. now destruct (id_is id e).
  - intros id. unfold memoryDelete.
    destruct (foreign_keys && _ && _); simpl; [now split|].
    split; simpl; [|assumption]. now apply nodup_map_filter.
  - intros now uuid fromId toId relationType metadata. unfold memoryRelate.
    destruct (existsb _ (relations d)) eqn:E; simpl; [now split|].
    destruct (foreign_keys && _); simpl; [now split|].
    split; simpl; [assumption|].
    apply nodup_map_snoc; [assumption|]. simpl.
    intros Hin. apply in_map_iff in Hin. destruct Hin as (r & Hid & Hin).
    pose proof (existsb_false_inv _ _ _ E Hin) as Hf. simpl in Hf.
    apply String.eqb_neq in Hf. contradiction.
Qed.

Lemma recall_single_row (q : string) (d : db) (e : entity) :
  arranges entity_scan ->
  In e (entities d) -> matches q e ->
  (forall e', In e' (entities d) -> matches q e' -> e' = e) ->
  head (recall_rows entity_scan q d) = Some e.
Proof.
  intros HP Hin Hm Honly. unfold recall_rows.
  set (L := List.filter (fun x => id_is q x || name_is q x) (entities d)).
  pose proof (head_of_arrangement entity_scan L (HP L)) as H.
  assert (HL : In e L)
    by (apply filter_In; split;
        [assumption | now apply MemoryTheory.matches_filter]).
  destruct (head (entity_scan L)) as [y|].
  - apply filter_In in H. destruct H as [Hy Hmy].
    f_equal. apply Honly; [assumption|].
    now apply MemoryTheory.matches_filter.
  - rewrite H in HL. destruct HL.
Qed.

(** X2.  Updating an existing entity and recalling it by its id gives the
    new content and the refreshed [updated_at]; the metadata is the new one
    when one was supplied and the stored one otherwise; name, type and
    [created_at] stay.  (The id is taken to name that one row only.) *)
Theorem update_then_recall
    (now : nat) (id : string) (content : option string)
    (metadata : option JSON) (d : db) (e : entity) (stored : JSON) :
  codec_ok JSON_stringify JSON_parse ->
  arranges entity_scan ->
  In e (entities d) -> ent_id e = id ->
  (forall e', In e' (entities d) -> matches id e' -> e' = e) ->
  JSON_parse (or_else (ent_metadata e) "{}") = Some stored ->
  exists d',
    memoryUpdate JSON_stringify now id content metadata d
      = (Returns (mkUpdated id true), d') /\
    memoryRecall JSON_parse entity_scan id d'
      = Returns (Found (mkRecalled id (ent_name e) (ent_type e) content
                          (match metadata with
                           | Some m => m
                           | None => stored
                           end)
                          (ent_created_at e) now)).
Proof.
  intros [Hparse Hnonempty] HP Hin Hid Honly Hstored.
  assert (Hide : id_is id e = true) by now apply MemoryTheory.id_is_true.
  unfold memoryUpdate.
  assert (Hchanges :
            Nat.ltb 0 (length (List.filter (id_is id) (entities d))) = true).
  { apply Nat.ltb_lt.
    assert (Hf : In e (List.filter (id_is id) (entities d)))
      by (apply filter_In; now split).
    destruct (List.filter (id_is id) (entities d));
      [destruct Hf | simpl; lia]. }
  rewrite Hchanges. eexists. split; [reflexivity|].
  set (g := fun x => if id_is id x
                     then update_row JSON JSON_stringify now content
                            metadata x
                     else x).
  assert (Hg : forall x,
             ent_id (g x) = ent_id x /\ ent_name (g x) = ent_name x).
  { intros x. unfold g. destruct (id_is id x); split; reflexivity. }
  unfold memoryRecall.
  rewrite (recall_single_row id _ (g e)); simpl.
  - unfold g. rewrite Hide. simpl. destruct metadata as [m|]; simpl.
    + rewrite truthy_nonempty by apply Hnonempty. rewrite Hparse.
      now rewrite Hid.
    + fold (or_else (ent_metadata e) "{}"). rewrite Hstored.
      now rewrite Hid.
  - exact HP.
  - now apply in_map.
  - left. destruct (Hg e) as [-> _]. exact Hid.
  - intros y Hy Hm. apply in_map_iff in Hy. destruct Hy as (x & <- & Hx).
    f_equal. apply Honly; [assumption|].
    destruct (Hg x) as [Hi Hn]. unfold matches in *. now rewrite <- Hi, <- Hn.
Qed.

(** X3.  What [recall] answers for a key is not disturbed by work on other
    entities: storing an entity whose id and name are different from the
    key, and updating or deleting an id none of whose rows has that key as
    id or name, leave the answer for the key exactly as it was. *)
Theorem recall_unaffected_by_other_entities (q : string) (d : db) :
  (forall now uuid name type content metadata,
     uuid <> q -> name <> q ->
     memoryRecall JSON_parse entity_scan q
       (snd (memoryStore JSON_stringify now uuid name type content
               metadata d))
     = memoryRecall JSON_parse entity_scan q d) /\
  (forall now id content metadata,
     (forall e, In e (entities d) -> ent_id e = id -> ~ matches q e) ->
     memoryRecall JSON_parse entity_scan q
       (snd (memoryUpdate JSON_stringify now id content metadata d))
     = memoryRecall JSON_parse entity_scan q d) /\
  (forall id,
     (forall e, In e (entities d) -> ent_id e = id -> ~ matches q e) ->
     memoryRecall JSON_parse entity_scan q
       (snd (memoryDelete foreign_keys id d))
     = memoryRecall JSON_parse entity_scan q d).
Proof.
  split; [|split].
  - intros now uuid name type content metadata Huuid Hname.
    unfold memoryStore.
    destruct (existsb (id_is uuid) (entities d)); [reflexivity|].
    unfold memoryRecall, recall_rows. simpl.
    rewrite List.filter_app. simpl.
    assert (Hi : id_is q (mkEntity uuid name type content
                            (Some (JSON_stringify metadata)) now now)
                 = false) by now apply MemoryTheory.id_is_false.
    assert (Hn : name_is q (mkEntity uuid name type content
                              (Some (JSON_stringify metadata)) now now)
                 = false) by now apply MemoryTheory.name_is_false.
    rewrite Hi, Hn. simpl. now rewrite app_nil_r.
  - intros now id content metadata Hother.
    unfold memoryRecall, recall_rows, memoryUpdate. simpl.
    replace (List.filter (fun e => id_is q e || name_is q e)
               (map (fun e => if id_is id e
                              then update_row JSON JSON_stringify now
                                     content metadata e
                              else e) (entities d)))
      with (List.filter (fun e => id_is q e || name_is q e) (entities d));
      [reflexivity|].
    revert Hother. generalize (entities d) as es.
    induction es as [|x es IH]; intros Hother; simpl; [reflexivity|].
    assert (IH' := IH (fun e He => Hother e (or_intror He))).
    destruct (id_is id x) eqn:Ex.
    + assert (Hx : id_is q x || name_is q x = false).
      { apply not_true_is_false. intros Hm.
        apply MemoryTheory.matches_filter in Hm.
        apply (Hother x (or_introl eq_refl)); [|assumption].
        now apply MemoryTheory.id_is_true. }
      unfold id_is, name_is in *. simpl. now rewrite Hx.
    + destruct (id_is q x || name_is q x); now rewrite IH'.
  - intros id Hother. unfold memoryDelete.
    destruct (foreign_keys && _ && _); [reflexivity|].
    unfold memoryRecall, recall_rows. simpl.
    replace (List.filter (fun e => id_is q e || name_is q e)
               (List.filter (fun e => negb (id_is id e)) (entities d)))
      with (List.filter (fun e => id_is q e || name_is q e) (entities d));
      [reflexivity|].
    revert Hother. generalize (entities d) as es.
    induction es as [|x es IH]; intros Hother; simpl; [reflexivity|].
    assert (IH' := IH (fun e He => Hother e (or_intror He))).
    destruct (id_is id x) eqn:Ex; simpl.
    + assert (Hx : id_is q x || name_is q x = false).
      { apply not_true_is_false. intros Hm.
        apply MemoryTheory.matches_filter in Hm.
        apply (Hother x (or_introl eq_refl)); [|assumption].
        now apply MemoryTheory.id_is_true. }
      now rewrite Hx.
    + destruct (id_is q x || name_is q x); now rewrite IH'.
Qed.

(** X4.  A delete that the engine lets through (no enforced foreign key
    stands against it) reports whether the id existed and leaves no row
    with that id: a second delete of the same id reports [deleted = false]
    and changes nothing more, and [recall] by that id answers not-found
    unless some entity is named like the id. *)
Theorem delete_then_gone (id : string) (d : db) :
  arranges entity_scan ->
  foreign_keys = false \/
  (forall r, In r (relations d) -> touches id r = false) ->
  exists d',
    memoryDelete foreign_keys id d
      = (Returns (mkDeleted (existsb (id_is id) (entities d))), d') /\
    (forall e, In e (entities d') -> ent_id e <> id) /\
    memoryDelete foreign_keys id d' = (Returns (mkDeleted false), d') /\
    ((forall e, In e (entities d) -> ent_name e <> id) ->
     memoryRecall JSON_parse entity_scan id d' = Returns NotFound).
Proof.
  intros HP Hfree.
  assert (Hguard : forall n,
            foreign_keys && n && existsb (touches id) (relations d)
            = false).
  { intros n. destruct Hfree as [->|Hnone]; [reflexivity|].
    rewrite (existsb_false _ _ Hnone). apply andb_false_r. }
  unfold memoryDelete at 1. rewrite Hguard.
  set (es' := List.filter (fun e => negb (id_is id e)) (entities d)).
  assert (Hgone : forall e, In e es' -> ent_id e <> id).
  { intros e He. apply filter_In in He. destruct He as [_ He].
    apply MemoryTheory.id_is_false. now apply negb_true_iff. }
  exists {| entities := es'; relations := relations d |}.
  split; [|split; [exact Hgone|split]].
  - f_equal. f_equal. f_equal.
    generalize (entities d) as es. induction es as [|x es IH]; simpl;
      [reflexivity|].
    destruct (id_is id x); simpl; [reflexivity | exact IH].
  - unfold memoryDelete. simpl. fold es'.
    assert (Hnone : List.filter (id_is id) es' = []).
    { apply filter_none. intros e He. apply MemoryTheory.id_is_false.
      now apply Hgone. }
    rewrite Hnone. simpl. rewrite andb_false_r. simpl.
    f_equal. f_equal. apply filter_filter_same.
  - intros Hnames. unfold memoryRecall, recall_rows. simpl. fold es'.
    rewrite filter_none.
    + pose proof (HP []) as Hnil. apply Permutation_sym in Hnil.
      apply Permutation_nil in Hnil. now rewrite Hnil.
    + intros e He. apply orb_false_iff. split.
      * apply MemoryTheory.id_is_false. now apply Hgone.
      * apply MemoryTheory.name_is_false. apply Hnames.
        apply filter_In in He. tauto.
Qed.

(** X5.  A search whose pattern [%query%] has at most 50000 bytes returns
    exactly min(50, number of matches) rows, newest first, and they are the
    most recently updated matches: the rows returned and the matches left
    out make up the matches, each once, and nothing left out is newer than
    a row returned.  When at most 50 match, nothing is left out. *)
Theorem search_keeps_the_newest
    (query : string) (type : option string) (d : db) :
  arranges entity_scan ->
  (utf8_length ("%" +:+ query +:+ "%") <= 50000)%Z ->
  let matching := List.filter (search_where query type) (entities d) in
  exists rows rest,
    memorySearch entity_scan query type d
      = Returns (mkSearch (length rows) (map preview_of rows)) /\
    Permutation (rows ++ rest) matching /\
    length rows = Nat.min 50 (length matching) /\
    StronglySorted newer_or_same rows /\
    (forall r x, In r rows -> In x rest ->
                 ent_updated_at x <= ent_updated_at r) /\
    (length matching <= 50 -> rest = []).
Proof.
  intros HP Hshort matching.
  destruct (newest_k entity_scan 50 matching HP)
    as (Hperm & Hlen & Hsorted & Horder & Hall).
  eexists _, _. split; [|split; [exact Hperm|split; [exact Hlen|]]].
  - unfold memorySearch.
    assert (pattern_too_long ("%" +:+ query +:+ "%") = false) as ->
      by (unfold pattern_too_long; now apply Z.ltb_ge).
    reflexivity.
  - split; [exact Hsorted|]. split; assumption.
Qed.

Lemma utf8_length_append a b :
  utf8_length (a +:+ b) = (utf8_length a + utf8_length b)%Z.
Proof.
  induction a as [|c a IH]; [reflexivity|].
  change (String c a +:+ b) with (String c (a +:+ b)).
  cbn [utf8_length]. rewrite IH. lia.
Qed.

Lemma to_lower_keeps_ascii c :
  (nat_of_ascii (to_lower c) <? 128)%nat = (nat_of_ascii c <? 128)%nat.
Proof. destruct c as [[] [] [] [] [] [] [] []]; reflexivity. Qed.

Lemma lower_utf8_length s : utf8_length (lower s) = utf8_length s.
Proof.
  induction s as [|c s IH]; [reflexivity|].
  cbn [lower utf8_length]. now rewrite to_lower_keeps_ascii, IH.
Qed.

(** [LIMIT] takes a number as an integer exactly when it equals one that
    lies strictly between -2^63 and 2^63. *)
Lemma limit_value_iff (limit : QArith_base.Q) (n : Z) :
  limit_value limit = Some n <->
  QArith_base.Qeq limit (QArith_base.inject_Z n) /\
  (- 2 ^ 63 < n < 2 ^ 63)%Z.
Proof.
  destruct limit as [p q]. unfold limit_value, QArith_base.Qeq. simpl.
  rewrite Z.mul_1_r. split.
  - destruct (p mod Z.pos q =? 0)%Z eqn:Em; [|discriminate].
    destruct (- 2 ^ 63 <? p / Z.pos q)%Z eqn:El; [|discriminate].
    destruct (p / Z.pos q <? 2 ^ 63)%Z eqn:Eu; [|discriminate].
    simpl. intros [= <-].
    apply Z.eqb_eq in Em. apply Z.ltb_lt in El, Eu.
    split; [|split; assumption].
    rewrite Z.mul_comm. apply Z.div_exact; [lia | exact Em].
  - intros (Hp & Hl & Hu). subst p.
    rewrite Z.mod_mul, Z.div_mul by lia. simpl.
    apply Z.ltb_lt in Hl, Hu. now rewrite Hl, Hu.
Qed.

(** X6.  The case of the ASCII letters of a query does not matter: two
    queries that are equal once lowered give the same search result, on any
    store and with any type filter. *)
Theorem search_ignores_query_case
    (query query' : string) (type : option string) (d : db) :
  lower query = lower query' ->
  memorySearch entity_scan query type d
  = memorySearch entity_scan query' type d.
Proof.
  intros Hq.
  assert (Hw : forall e, search_where query type e
                         = search_where query' type e).
  { intros e. unfold search_where.
    assert (Hlike : forall s, like ("%" +:+ query +:+ "%") s
                              = like ("%" +:+ query' +:+ "%") s).
    { intros s. apply like_same_lower.
      change (String (to_lower "%") (lower (query +:+ "%"))
              = String (to_lower "%") (lower (query' +:+ "%"))).
      now rewrite !lower_append, Hq. }
    rewrite (Hlike (ent_name e)). unfold like_nullable.
    destruct (ent_content e) as [c|]; [|reflexivity].
    now rewrite (Hlike c). }
  assert (Hlen : utf8_length ("%" +:+ query +:+ "%")
                 = utf8_length ("%" +:+ query' +:+ "%")).
  { rewrite !utf8_length_append, <- (lower_utf8_length query),
      <- (lower_utf8_length query'). now rewrite Hq. }
  unfold memorySearch, search_rows, pattern_too_long.
  now rewrite Hlen, (filter_ext _ _ Hw).
Qed.

(** X7.  The limit of [list] is a number.  When it is an integer strictly
    between -2^63 and 2^63, [list] returns the entities of the requested
    type (all entities when no type is given), newest first, each once, cut
    after that many rows: what is cut is no newer than what is returned,
    and a negative limit cuts nothing.  For every other number (one with a
    fractional part, or out of that range) [list] throws "datatype
    mismatch", whatever the store holds. *)
Theorem list_newest_first
    (type : option string) (limit : QArith_base.Q) (d : db) :
  arranges entity_scan ->
  let selected := List.filter (of_type type) (entities d) in
  (forall n,
     limit_value limit = Some n <->
     QArith_base.Qeq limit (QArith_base.inject_Z n) /\
     (- 2 ^ 63 < n < 2 ^ 63)%Z) /\
  (limit_value limit = None ->
   memoryList entity_scan type limit d = Throws "datatype mismatch") /\
  (forall n,
     limit_value limit = Some n ->
     exists rows rest,
       memoryList entity_scan type limit d
         = Returns (mkList (length rows) (map listed_of rows)) /\
       Permutation (rows ++ rest) selected /\
       StronglySorted newer_or_same rows /\
       (forall r x, In r rows -> In x rest ->
                    ent_updated_at x <= ent_updated_at r) /\
       ((n < 0)%Z -> rest = []) /\
       ((0 <= n)%Z ->
        length rows = Nat.min (Z.to_nat n) (length selected))).
Proof.
  intros HP selected.
  split; [intros n; apply limit_value_iff|]. split.
  - intros Hnone. unfold memoryList. now rewrite Hnone.
  - intros n Hn. unfold memoryList. rewrite Hn.
    fold (of_type type). fold selected.
    destruct (n <? 0)%Z eqn:E.
    + apply Z.ltb_lt in E.
      exists (order_by_updated_desc (entity_scan selected)), [].
      split; [reflexivity|].
      split; [rewrite app_nil_r, MemoryTheory.order_by_perm; apply HP|].
      split; [apply MemoryTheory.order_by_sorted|].
      split; [intros r x _ []|]. split; [reflexivity | lia].
    + apply Z.ltb_ge in E.
      destruct (newest_k entity_scan (Z.to_nat n) selected HP)
        as (Hperm & Hlen & Hsorted & Horder & _).
      eexists _, _. split; [reflexivity|].
      split; [exact Hperm|]. split; [exact Hsorted|].
      split; [exact Horder|]. split; [lia | intros _; exact Hlen].
Qed.

(** X10.  A search with the empty query is a listing: it returns the same
    entities, in the same order, as [list] with limit 50 and the same
    type. *)
Theorem empty_query_is_a_listing (type : option string) (d : db) :
  exists found all,
    memorySearch entity_scan "" type d = Returns found /\
    memoryList entity_scan type (QArith_base.inject_Z 50) d
      = Returns all /\
    sr_count found = lr_count all /\
    map (fun p => mkListedEntity (pv_id p) (pv_name p) (pv_type p)
                    (pv_updated_at p)) (sr_entities found)
    = lr_entities all.
Proof.
  assert (Hw : forall e, search_where "" type e = of_type type e).
  { intros e. unfold search_where.
    change ("%" +:+ "" +:+ "%") with "%%". now rewrite like_two_percents. }
  eexists _, _. split; [reflexivity|]. split; [reflexivity|].
  unfold search_rows. simpl.
  fold (of_type type). rewrite (filter_ext _ _ Hw).
  split; [reflexivity|]. rewrite map_map. reflexivity.
Qed.

(** X11.  The content shown in a search result is never longer than 203
    characters; for an entity stored without content ([NULL]) it is the
    text "undefined". *)
Theorem preview_is_bounded (e : entity) :
  String.length (pv_content (preview_of e)) <= 203 /\
  (ent_content e = None -> pv_content (preview_of e) = "undefined").
Proof.
  split.
  - simpl. destruct (ent_content e) as [c|]; simpl; [|lia].
    rewrite length_append. pose proof (substring_short 200 c).
    destruct (200 <? String.length c)%nat; simpl; lia.
  - intros H. simpl. now rewrite H.
Qed.

Lemma get_relations_rows (q : string) (d : db) :
  List.NoDup (map ent_id (entities d)) ->
  gr_relations (memoryGetRelations joined_scan q d)
  = joined_scan (map (annotate d) (List.filter (touches q) (relations d))).
Proof.
  intros Hnd. unfold memoryGetRelations. simpl.
  now rewrite join_rows_unique, filter_annotated by assumption.
Qed.

(** X8.  While entity ids are distinct, [getRelations] returns each
    relation that starts or ends at the entity exactly once (a relation from
    the entity to itself included), and nothing else; each comes with the
    name and type of the entity at either end, or [NULL]s where that entity
    does not exist. *)
Theorem get_relations_exact (q : string) (d : db) :
  arranges joined_scan ->
  List.NoDup (map ent_id (entities d)) ->
  let res := memoryGetRelations joined_scan q d in
  Permutation (gr_relations res)
    (map (annotate d) (List.filter (touches q) (relations d))) /\
  gr_count res = length (List.filter (touches q) (relations d)).
Proof.
  intros HP Hnd. cbv zeta.
  assert (gr_count (memoryGetRelations joined_scan q d)
          = length (gr_relations (memoryGetRelations joined_scan q d)))
    as -> by reflexivity.
  rewrite get_relations_rows by assumption.
  split; [apply HP|].
  rewrite (Permutation_length (HP _)). apply length_map.
Qed.

(** X9.  A relation created between two existing entities is returned by
    [getRelations] for its source and for its target alike, carrying the
    names and types of both, and the source then has one relation more
    than before; this holds with and without foreign-key enforcement. *)
Theorem relation_seen_from_both_ends
    (now : nat) (uuid fromId toId relationType : string) (metadata : JSON)
    (d : db) (a b : entity) :
  arranges joined_scan ->
  List.NoDup (map ent_id (entities d)) ->
  (forall r, In r (relations d) -> rel_id r <> uuid) ->
  In a (entities d) -> ent_id a = fromId ->
  In b (entities d) -> ent_id b = toId ->
  exists d',
    memoryRelate JSON_stringify foreign_keys now uuid fromId toId
      relationType metadata d = (Returns (mkRelated uuid true), d') /\
    let j := mkJoined
               (mkRelation uuid fromId toId relationType
                  (Some (JSON_stringify metadata)) now)
               (Some (ent_name a)) (Some (ent_type a))
               (Some (ent_name b)) (Some (ent_type b)) in
    In j (gr_relations (memoryGetRelations joined_scan fromId d')) /\
    In j (gr_relations (memoryGetRelations joined_scan toId d')) /\
    gr_count (memoryGetRelations joined_scan fromId d')
    = S (gr_count (memoryGetRelations joined_scan fromId d)).
Proof.
  intros HP Hnd Hfresh Ha Hida Hb Hidb.
  pose proof (find_unique_id _ _ _ Hnd Ha Hida) as Hfa.
  pose proof (find_unique_id _ _ _ Hnd Hb Hidb) as Hfb.
  unfold memoryRelate.
  rewrite existsb_false
    by (intros r Hr; apply String.eqb_neq; now apply Hfresh).
  assert (Hea : existsb (id_is fromId) (entities d) = true)
    by (apply existsb_exists; exists a; split;
        [assumption | now apply MemoryTheory.id_is_true]).
  assert (Heb : existsb (id_is toId) (entities d) = true)
    by (apply existsb_exists; exists b; split;
        [assumption | now apply MemoryTheory.id_is_true]).
  rewrite Hea, Heb. simpl. rewrite andb_false_r.
  eexists. split; [reflexivity|].
  set (r := mkRelation uuid fromId toId relationType
              (Some (JSON_stringify metadata)) now).
  set (d' := {| entities := entities d; relations := relations d ++ [r] |}).
  assert (Hnd' : List.NoDup (map ent_id (entities d'))) by exact Hnd.
  assert (Hj : annotate d' r
               = mkJoined r (Some (ent_name a)) (Some (ent_type a))
                   (Some (ent_name b)) (Some (ent_type b))).
  { unfold annotate, endpoint. simpl. now rewrite Hfa, Hfb. }
  assert (Hfrom : touches fromId r = true)
    by (unfold touches; simpl; now rewrite String.eqb_refl).
  assert (Hto : touches toId r = true)
    by (unfold touches; simpl; rewrite (String.eqb_refl toId);
        apply orb_true_r).
  assert (Hin : forall q, touches q r = true ->
            In (annotate d' r)
               (gr_relations (memoryGetRelations joined_scan q d'))).
  { intros q Hq.
    rewrite get_relations_rows by assumption.
    apply (Permutation_in _ (Permutation_sym (HP _))).
    apply in_map. apply filter_In. split; [|assumption].
    simpl. apply in_or_app. right. now left. }
  assert (Hcount : forall db0,
            List.NoDup (map ent_id (entities db0)) ->
            gr_count (memoryGetRelations joined_scan fromId db0)
            = length (List.filter (touches fromId) (relations db0))).
  { intros db0 Hnd0.
    change (gr_count (memoryGetRelations joined_scan fromId db0))
      with (length (gr_relations
                      (memoryGetRelations joined_scan fromId db0))).
    rewrite get_relations_rows by assumption.
    rewrite (Permutation_length (HP _)). apply length_map. }
  cbv zeta. rewrite <- Hj.
  split; [now apply Hin|]. split; [now apply Hin|].
  change (gr_count (memoryGetRelations joined_scan fromId d')
          = S (gr_count (memoryGetRelations joined_scan fromId d))).
  rewrite (Hcount d' Hnd'), (Hcount d Hnd).
  simpl. rewrite List.filter_app, length_app. simpl.
  rewrite Hfrom. simpl. lia.
Qed.

End More.

Lemma literal_codec_ok : codec_ok JsonLiterals.stringify JsonLiterals.parse.
Proof.
  split; [apply MemoryTheory.literal_round_trip
         | apply MemoryTheory.literal_nonempty].
Qed.

Lemma table_scan_arranges {A} : arranges (table_scan (A := A)).
Proof. intros l. reflexivity. Qed.

Lemma linked_ids_unique : List.NoDup (map ent_id (entities Samples.linked)).
Proof.
  simpl. constructor; [intros [H|[]]; discriminate|].
  constructor; [intros []|constructor].
Qed.

Lemma operations_keep_ids_unique_witness :
  unique_ids
    (snd (memoryStore JsonLiterals.stringify 20 "B" "again" "t" (Some "c3")
            JsonLiterals.EmptyObject Samples.linked)) /\
  unique_ids
    (snd (memoryStore JsonLiterals.stringify 20 "C" "n1" "t" (Some "c3")
            JsonLiterals.EmptyObject Samples.linked)).
Proof.
  assert (H : unique_ids Samples.linked).
  { split; [apply linked_ids_unique|]. simpl.
    constructor; [intros []|constructor]. }
  split;
    apply (proj1 (operations_keep_ids_unique JsonLiterals.stringify false
                    Samples.linked H)).
Defined.

Lemma update_then_recall_witness :
  exists d',
    memoryUpdate JsonLiterals.stringify 30 "id-1" (Some "a=2") None
      Samples.one_entity = (Returns (mkUpdated "id-1" true), d') /\
    memoryRecall JsonLiterals.parse table_scan "id-1" d'
      = Returns (Found (mkRecalled "id-1" "cfg" "project" (Some "a=2")
                          JsonLiterals.EmptyObject 10 30)).
Proof.
  apply (update_then_recall JsonLiterals.stringify JsonLiterals.parse
           table_scan 30 "id-1" (Some "a=2") None Samples.one_entity
           Samples.cfg JsonLiterals.EmptyObject).
  - apply literal_codec_ok.
  - apply table_scan_arranges.
  - now left.
  - reflexivity.
  - intros e' [<-|[]] _. reflexivity.
  - reflexivity.
Defined.

Lemma recall_unaffected_by_other_entities_witness :
  memoryRecall JsonLiterals.parse table_scan "cfg"
    (snd (memoryStore JsonLiterals.stringify 20 "id-2" "todo" "note"
            (Some "x") JsonLiterals.EmptyObject Samples.one_entity))
  = memoryRecall JsonLiterals.parse table_scan "cfg" Samples.one_entity.
Proof.
  apply (proj1 (recall_unaffected_by_other_entities JsonLiterals.stringify
                  JsonLiterals.parse table_scan false "cfg"
                  Samples.one_entity)); discriminate.
Defined.

Lemma delete_then_gone_witness :
  exists d',
    memoryDelete false "A" Samples.linked
      = (Returns (mkDeleted (existsb (id_is "A")
                               (entities Samples.linked))), d') /\
    (forall e, In e (entities d') -> ent_id e <> "A") /\
    memoryDelete false "A" d' = (Returns (mkDeleted false), d') /\
    ((forall e, In e (entities Samples.linked) -> ent_name e <> "A") ->
     memoryRecall JsonLiterals.parse table_scan "A" d' = Returns NotFound).
Proof.
  apply (delete_then_gone JsonLiterals.parse table_scan false "A"
           Samples.linked).
  - apply table_scan_arranges.
  - now left.
Defined.

Lemma search_keeps_the_newest_witness :
  exists rows rest,
    memorySearch table_scan "road" None Samples.notes
      = Returns (mkSearch (length rows) (map preview_of rows)) /\
    Permutation (rows ++ rest)
      (List.filter (search_where "road" None) (entities Samples.notes)) /\
    length rows
      = Nat.min 50
          (length (List.filter (search_where "road" None)
                     (entities Samples.notes))) /\
    StronglySorted newer_or_same rows /\
    (forall r x, In r rows -> In x rest ->
                 ent_updated_at x <= ent_updated_at r) /\
    (length (List.filter (search_where "road" None) (entities Samples.notes))
     <= 50 -> rest = []).
Proof.
  apply (search_keeps_the_newest table_scan "road" None Samples.notes).
  - apply table_scan_arranges.
  - vm_compute. discriminate.
Defined.

Lemma search_ignores_query_case_witness :
  memorySearch table_scan "CFG" (Some "project") Samples.one_entity
  = memorySearch table_scan "cfg" (Some "project") Samples.one_entity.
Proof.
  apply (search_ignores_query_case table_scan "CFG" "cfg").
  reflexivity.
Defined.

Lemma list_newest_first_witness :
  exists rows rest,
    memoryList table_scan (Some "note") (QArith_base.inject_Z 2)
      Samples.notes
      = Returns (mkList (length rows) (map listed_of rows)) /\
    Permutation (rows ++ rest)
      (List.filter (of_type (Some "note")) (entities Samples.notes)) /\
    StronglySorted newer_or_same rows /\
    (forall r x, In r rows -> In x rest ->
                 ent_updated_at x <= ent_updated_at r) /\
    ((2 < 0)%Z -> rest = []) /\
    ((0 <= 2)%Z ->
     length rows
     = Nat.min (Z.to_nat 2)
         (length (List.filter (of_type (Some "note"))
                    (entities Samples.notes)))).
Proof.
  apply (proj2 (proj2 (list_newest_first table_scan (Some "note")
                         (QArith_base.inject_Z 2) Samples.notes
                         table_scan_arranges))).
  reflexivity.
Defined.

Lemma get_relations_exact_witness :
  Permutation
    (gr_relations (memoryGetRelations table_scan "B" Samples.linked))
    (map (annotate Samples.linked)
       (List.filter (touches "B") (relations Samples.linked))) /\
  gr_count (memoryGetRelations table_scan "B" Samples.linked)
  = length (List.filter (touches "B") (relations Samples.linked)).
Proof.
  apply (get_relations_exact table_scan "B" Samples.linked).
  - apply table_scan_arranges.
  - apply linked_ids_unique.
Defined.

Lemma relation_seen_from_both_ends_witness :
  exists d',
    memoryRelate JsonLiterals.stringify true 7 "R2" "B" "A" "used_by"
      JsonLiterals.EmptyObject Samples.linked
      = (Returns (mkRelated "R2" true), d') /\
    let j := mkJoined
               (mkRelation "R2" "B" "A" "used_by" (Some "{}") 7)
               (Some "n2") (Some "t") (Some "n1") (Some "t") in
    In j (gr_relations (memoryGetRelations table_scan "B" d')) /\
    In j (gr_relations (memoryGetRelations table_scan "A" d')) /\
    gr_count (memoryGetRelations table_scan "B" d')
    = S (gr_count (memoryGetRelations table_scan "B" Samples.linked)).
Proof.
  apply (relation_seen_from_both_ends JsonLiterals.stringify table_scan true
           7 "R2" "B" "A" "used_by" JsonLiterals.EmptyObject Samples.linked
           Samples.n2 Samples.n1).
  - apply table_scan_arranges.
  - apply linked_ids_unique.
  - intros r [<-|[]]. discriminate.
  - right. now left.
  - reflexivity.
  - now left.
  - reflexivity.
Defined.

Lemma preview_is_bounded_witness :
  pv_content (preview_of (mkEntity "id-7" "empty" "note" None None 1 1))
  = "undefined".
Proof.
  apply (proj2 (preview_is_bounded
                  (mkEntity "id-7" "empty" "note" None None 1 1))).
  reflexivity.
Defined.

End MemoryMore.

(* ===================================================================== *)
(** ** More on the workspace file helpers                                 *)
(* ===================================================================== *)

Module FilesystemMore.

Import Filesystem.
Import FsShape.

Section Helpers.

Variable FS : Type.
Variable fs_mkdir : string -> FS -> outcome unit * FS.
Variable fs_writeFile : string -> string -> FS -> outcome unit * FS.
Variable fs_readFile : string -> FS -> outcome string * FS.
Variable fs_stat : string -> FS -> outcome stats * FS.
Variable fs_unlink : string -> FS -> outcome unit * FS.
Variable fs_readdir : string -> FS -> outcome (list dirent) * FS.
Variable path_resolve : string -> string -> string.
Variable path_dirname : string -> string.
Variable path_join : string -> string -> string.
Variable includes : string -> string -> bool.
Variable replace : string -> string -> string -> string.
Variable WORKSPACE_DIR : string.

Local Abbreviation build :=
  (buildTree FS fs_readdir path_join).
Local Abbreviation tree :=
  (getDirectoryTree FS fs_readdir path_resolve path_join WORKSPACE_DIR).
Local Abbreviation edit :=
  (editFile FS fs_writeFile fs_readFile path_resolve includes replace
     WORKSPACE_DIR).
Local Abbreviation listing :=
  (listDirectory FS fs_stat fs_readdir path_resolve path_join WORKSPACE_DIR).

Lemma buildTree_depth (below : nat) :
  forall path w items w',
    build below path w = (Returns items, w') ->
    Forall (fun t => item_depth t <= S below) items.
Proof.
  induction below as [|b IH]; intros path w items w' H.
  - simpl in H. unfold bind in H.
    destruct (fs_readdir path w) as [[entries|m] w1]; [|discriminate].
    revert w1 items w' H.
    induction entries as [|entry es IHes]; intros w1 items w' H.
    + injection H as <- _. constructor.
    + simpl in H. unfold bind, ret in H. simpl in H.
      match type of H with
      | context [?f es w1] =>
          destruct (f es w1) as [[rest|m] w2] eqn:E; [|discriminate]
      end.
      injection H as <- _. constructor; [simpl; lia|].
      exact (IHes _ _ _ E).
  - simpl in H. unfold bind in H.
    destruct (fs_readdir path w) as [[entries|m] w1]; [|discriminate].
    revert w1 items w' H.
    induction entries as [|entry es IHes]; intros w1 items w' H.
    + injection H as <- _. constructor.
    + simpl in H. unfold bind, ret in H.
      destruct (d_isDirectory entry).
      * destruct (build b (path_join path (d_name entry)) w1)
          as [[cs|m] w2] eqn:Ec; [|discriminate].
        match type of H with
        | context [?f es w2] =>
            destruct (f es w2) as [[rest|m] w3] eqn:E; [|discriminate]
        end.
        injection H as <- _. constructor; [|exact (IHes _ _ _ E)].
        pose proof (IH _ _ _ _ Ec) as Hcs. simpl.
        apply le_n_S. clear -Hcs.
        induction Hcs as [|c cs Hc _ IHcs]; [lia|].
        apply Nat.max_lub; assumption.
      * match type of H with
        | context [?f es w1] =>
            destruct (f es w1) as [[rest|m] w2] eqn:E; [|discriminate]
        end.
        injection H as <- _. constructor; [simpl; lia|].
        exact (IHes _ _ _ E).
Qed.

(** X12.  A directory tree never has more than [maxDepth + 1] levels, on
    any file system: when [getDirectoryTree] is fulfilled, its tree is
    [null] exactly for a negative [maxDepth], and then nothing was read;
    otherwise every item of it has at most [maxDepth + 1] levels. *)
Theorem directory_tree_depth (dirPath : string) (maxDepth : Z) (w : FS)
    (p : string) (t : option (list tree_item)) (w' : FS) :
  tree dirPath maxDepth w = (Returns (Tree p t), w') ->
  match t with
  | None => (maxDepth < 0)%Z /\ w' = w
  | Some items =>
      (0 <= maxDepth)%Z /\
      Forall (fun i => item_depth i <= S (Z.to_nat maxDepth)) items
  end.
Proof.
  unfold getDirectoryTree, bind, resolvePath. intros H.
  destruct (negb (String.prefix WORKSPACE_DIR
                    (path_resolve WORKSPACE_DIR dirPath)));
    [discriminate|].
  unfold ret in H. destruct (maxDepth <? 0)%Z eqn:Hd.
  - injection H as _ <- <-. apply Z.ltb_lt in Hd. now split.
  - destruct (build (Z.to_nat maxDepth)
                (path_resolve WORKSPACE_DIR dirPath) w)
      as [[items|m] w1] eqn:E; [|discriminate].
    injection H as _ <- _. apply Z.ltb_ge in Hd. split; [exact Hd|].
    exact (buildTree_depth _ _ _ _ _ E).
Qed.

Lemma promise_all_stats full entries :
  forall w items w',
    promise_all FS
      (map (fun entry =>
              bind FS (fs_stat (path_join full (d_name entry)))
                (fun st =>
                   ret FS (mkListed (d_name entry)
                             (kind (d_isDirectory entry))
                             (s_size st) (s_mtime st))))
         entries) w
    = (Returns items, w') <->
    stats_in_turn fs_stat path_join full entries w items w'.
Proof.
  induction entries as [|entry entries IH]; intros w items w'.
  - simpl. split.
    + intros [= <- <-]. reflexivity.
    + destruct items; [intros ->; reflexivity | intros []].
  - cbn [map promise_all stats_in_turn]. unfold bind at 1, ret at 1.
    destruct (fs_stat (path_join full (d_name entry)) w)
      as [[st|m] w1] eqn:Es.
    + match goal with
      | |- context [promise_all FS ?l w1] =>
          destruct (promise_all FS l w1) as [[rest|m] w2] eqn:Er
      end.
      * split.
        -- intros [= <- <-]. exists st, w1.
           split; [reflexivity|]. split; [reflexivity|].
           now apply IH.
        -- destruct items as [|i items]; [intros []|].
           intros (st' & w1' & [= <- <-] & -> & Hrest).
           apply IH in Hrest. rewrite Er in Hrest.
           now injection Hrest as <- <-.
      * split; [discriminate|].
        destruct items as [|i items]; [intros []|].
        intros (st' & w1' & [= <- <-] & _ & Hrest).
        apply IH in Hrest. rewrite Er in Hrest. discriminate.
    + match goal with
      | |- context [promise_all FS ?l w1] =>
          destruct (promise_all FS l w1) as [rs w2]
      end.
      split; [destruct rs; discriminate|].
      destruct items as [|i items]; [intros []|].
      intros (st' & w1' & [=] & _).
Qed.

(** X13.  [listDirectory] is fulfilled exactly when the resolved path is
    inside the workspace, [readdir] gave its entries, and [stat] answered
    for every entry, the calls taken in the order of the entries, each on
    the file system the one before it left.  The listing then has one item
    for each entry, in that order, with the entry's name, its type
    ([directory] or [file]) and the size and time of that answer; the file
    system is as the last [stat] left it. *)
Theorem list_directory_entries (dirPath : string) (w : FS) (p : string)
    (items : list item) (w' : FS) :
  let full := path_resolve WORKSPACE_DIR dirPath in
  listing dirPath w = (Returns (Listing p items), w') <->
  p = dirPath /\
  String.prefix WORKSPACE_DIR full = true /\
  exists entries w1,
    fs_readdir full w = (Returns entries, w1) /\
    stats_in_turn fs_stat path_join full entries w1 items w'.
Proof.
  intros full. unfold listDirectory, resolvePath.
  unfold bind at 1. fold full.
  destruct (String.prefix WORKSPACE_DIR full) eqn:Hin; simpl.
  - unfold bind at 1.
    destruct (fs_readdir full w) as [[entries|m] w1] eqn:Er.
    + unfold bind at 1.
      pose proof (promise_all_stats full entries w1) as Hall.
      match goal with
      | |- context [promise_all FS ?l w1] =>
          destruct (promise_all FS l w1) as [[rs|m] w2] eqn:Ea
      end.
      * unfold ret. split.
        -- intros [= <- <- <-]. split; [reflexivity|].
           split; [reflexivity|]. exists entries, w1.
           split; [reflexivity|]. now apply Hall.
        -- intros (-> & _ & entries' & w1' & [= <- <-] & Hturn).
           apply Hall in Hturn. now injection Hturn as <- <-.
      * split; [discriminate|].
        intros (_ & _ & entries' & w1' & [= <- <-] & Hturn).
        apply Hall in Hturn. discriminate.
    + split; [discriminate|].
      intros (_ & _ & entries' & w1' & [=] & _).
  - split; [discriminate|]. intros (_ & [=] & _).
Qed.

(** X14.  Every outcome of [editFile].  It is fulfilled exactly when the
    path is inside the workspace, the file could be read, the text read
    contains [oldText], and the write of the replaced text was fulfilled;
    the file system is then as that write left it.  When the text read does
    not contain [oldText] it rejects with "Old text not found in file" and
    the file system is as the read left it: nothing is written.  Nor is
    anything written when the read is rejected or the path is outside the
    workspace. *)
Theorem edit_fulfilled_iff (filePath oldText newText : string) (w : FS)
    (r : fs_result) (w' : FS) :
  (edit filePath oldText newText w = (Returns r, w') <->
   r = Succeeded filePath /\
   String.prefix WORKSPACE_DIR (path_resolve WORKSPACE_DIR filePath) = true /\
   exists content w1,
     fs_readFile (path_resolve WORKSPACE_DIR filePath) w
       = (Returns content, w1) /\
     includes content oldText = true /\
     fs_writeFile (path_resolve WORKSPACE_DIR filePath)
       (replace content oldText newText) w1
       = (Returns tt, w')) /\
  (String.prefix WORKSPACE_DIR (path_resolve WORKSPACE_DIR filePath) = true ->
   (forall content w1,
      fs_readFile (path_resolve WORKSPACE_DIR filePath) w
        = (Returns content, w1) ->
      includes content oldText = false ->
      edit filePath oldText newText w
        = (Throws "Old text not found in file", w1)) /\
   (forall content w1 message w2,
      fs_readFile (path_resolve WORKSPACE_DIR filePath) w
        = (Returns content, w1) ->
      includes content oldText = true ->
      fs_writeFile (path_resolve WORKSPACE_DIR filePath)
        (replace content oldText newText) w1
        = (Throws message, w2) ->
      edit filePath oldText newText w = (Throws message, w2)) /\
   (forall message w1,
      fs_readFile (path_resolve WORKSPACE_DIR filePath) w
        = (Throws message, w1) ->
      edit filePath oldText newText w = (Throws message, w1))) /\
  (String.prefix WORKSPACE_DIR (path_resolve WORKSPACE_DIR filePath) = false ->
   edit filePath oldText newText w
     = (Throws "Access denied: Path is outside workspace", w)).
Proof.
  set (full := path_resolve WORKSPACE_DIR filePath).
  unfold editFile, resolvePath, bind, ret, throw. fold full.
  split; [|split].
  - split.
    + intros H.
      destruct (String.prefix WORKSPACE_DIR full) eqn:Hin; [|discriminate].
      simpl in H.
      destruct (fs_readFile full w) as [[content|m] w1] eqn:Er;
        [|discriminate].
      destruct (includes content oldText) eqn:Hi; [|discriminate].
      simpl in H.
      destruct (fs_writeFile full (replace content oldText newText) w1)
        as [[[]|m] w2] eqn:Ew; [|discriminate].
      injection H as <- <-. split; [reflexivity|]. split; [reflexivity|].
      now exists content, w1.
    + intros (-> & Hin & content & w1 & Er & Hi & Ew).
      rewrite Hin. simpl. rewrite Er, Hi. simpl. now rewrite Ew.
  - intros Hin. rewrite Hin. simpl. split; [|split].
    + intros content w1 Er Hi. now rewrite Er, Hi.
    + intros content w1 message w2 Er Hi Ew. rewrite Er, Hi. simpl.
      now rewrite Ew.
    + intros message w1 Er. now rewrite Er.
  - intros Hout. now rewrite Hout.
Qed.

End Helpers.

Section Traces.

Variable a : answers.
Variable path_resolve : string -> string -> string.
Variable path_dirname : string -> string.
Variable path_join : string -> string -> string.
Variable includes : string -> string -> bool.
Variable replace : string -> string -> string -> string.
Variable workspace : string.

Local Abbreviation run :=
  (answered a path_resolve path_dirname path_join includes replace
     workspace).

Lemma adds_ret (P : fs_event -> Prop) {A : Type} (x : A) :
  adds P (ret log x).
Proof. intros w. exists []. simpl. now rewrite app_nil_r. Qed.

Lemma adds_throw (P : fs_event -> Prop) {A : Type} (message : string) :
  adds P (@throw log A message).
Proof. intros w. exists []. simpl. now rewrite app_nil_r. Qed.

Lemma adds_bind (P : fs_event -> Prop) {A B : Type}
    (m : M log A) (k : A -> M log B) :
  adds P m -> (forall x, adds P (k x)) -> adds P (bind log m k).
Proof.
  intros Hm Hk w. unfold bind. destruct (Hm w) as (l1 & E1 & F1).
  destruct (m w) as [[x|message] w1]; simpl in E1; subst w1.
  - destruct (Hk x (w ++ l1)) as (l2 & E2 & F2).
    exists (l1 ++ l2). rewrite E2, app_assoc. split; [reflexivity|].
    now apply Forall_app.
  - now exists l1.
Qed.

Lemma adds_call (P : fs_event -> Prop) {A : Type}
    (f : log -> outcome A) (e : fs_event) :
  P e -> adds P (fun w => (f w, w ++ [e])).
Proof. intros He w. exists [e]. split; [reflexivity|]. now constructor. Qed.

Lemma adds_promise_all (P : fs_event -> Prop) {A : Type}
    (l : list (M log A)) :
  Forall (adds P) l -> adds P (promise_all log l).
Proof.
  induction 1 as [|m l Hm _ IH]; intros w.
  - exists []. simpl. now rewrite app_nil_r.
  - simpl. destruct (Hm w) as (l1 & E1 & F1).
    destruct (m w) as [r w1]. simpl in E1. subst w1.
    destruct (IH (w ++ l1)) as (l2 & E2 & F2).
    destruct (promise_all log l (w ++ l1)) as [rs w2]. simpl in E2.
    subst w2. exists (l1 ++ l2). simpl. rewrite app_assoc.
    split; [reflexivity|]. now apply Forall_app.
Qed.

Lemma adds_resolve (P : fs_event -> Prop) {B : Type} (filePath : string)
    (k : string -> M log B) :
  adds P (k (path_resolve workspace filePath)) ->
  adds P (bind log (resolvePath log path_resolve workspace filePath) k).
Proof.
  intros Hk w. unfold bind, resolvePath.
  destruct (negb _); simpl; [|exact (Hk w)].
  exists []. now rewrite app_nil_r.
Qed.

Lemma adds_build (P : fs_event -> Prop)
    (readdir : log -> string -> outcome (list dirent)) :
  (forall p, P (Readdir p)) ->
  forall below path,
    adds P (buildTree log (fun p w => (readdir w p, w ++ [Readdir p]))
              path_join below path).
Proof.
  intros HP. induction below as [|b IH]; intros path.
  - simpl. apply adds_bind; [apply (adds_call P), HP|].
    induction x as [|entry es IHes]; [apply adds_ret|].
    apply adds_bind; [apply adds_ret|]. intros children.
    apply adds_bind; [exact IHes|]. intros rest. apply adds_ret.
  - simpl. apply adds_bind; [apply (adds_call P), HP|].
    induction x as [|entry es IHes]; [apply adds_ret|].
    apply adds_bind.
    + destruct (d_isDirectory entry); [|apply adds_ret].
      apply adds_bind; [apply IH|]. intros c. apply adds_ret.
    + intros children.
      apply adds_bind; [exact IHes|]. intros rest. apply adds_ret.
Qed.

(** X15.  The tools that read a file, list a directory or build a
    directory tree never change the file system, whatever it answers: the
    only calls they make are [readFile], [stat] and [readdir]. *)
Theorem looking_never_writes (c : fs_call) (w : log) :
  looks_only c = true ->
  exists added,
    snd (run c w) = w ++ added /\
    Forall (fun e => reads_only e = true) added.
Proof.
  intros Hc. revert w.
  change (adds (fun e => reads_only e = true) (run c)).
  unfold answered, fs_tool.
  destruct c as [p t|p|p o n|p|p|p|p d]; try discriminate.
  - unfold readFile. apply adds_resolve.
    apply adds_bind; [now apply adds_call|]. intros content.
    apply adds_bind; [now apply adds_call|]. intros st. apply adds_ret.
  - unfold listDirectory. apply adds_resolve.
    apply adds_bind; [now apply adds_call|]. intros entries.
    apply adds_bind; [|intros items; apply adds_ret].
    apply adds_promise_all, List.Forall_map, List.Forall_forall.
    intros entry _.
    apply adds_bind; [now apply adds_call|]. intros st. apply adds_ret.
  - unfold getDirectoryTree. apply adds_resolve.
    destruct (_ <? 0)%Z; [apply adds_ret|].
    apply adds_bind; [|intros t; apply adds_ret].
    now apply (adds_build _ (on_readdir a)).
Qed.

(** X16.  Whatever a tool creates, writes or deletes is the resolved path
    of its argument, or the directory that holds it when that is made
    first: no call of another kind of change, and none on another path, is
    made on any file system. *)
Theorem changes_stay_on_the_path (c : fs_call) (w : log) :
  exists added,
    snd (run c w) = w ++ added /\
    Forall (targets path_dirname
              (path_resolve workspace (path_argument c))) added.
Proof.
  revert w.
  change (adds (targets path_dirname
                  (path_resolve workspace (path_argument c))) (run c)).
  unfold answered, fs_tool.
  destruct c as [p t|p|p o n|p|p|p|p d]; simpl path_argument.
  - unfold writeFile. apply adds_resolve.
    apply adds_bind; [apply adds_call; simpl; now right|]. intros _.
    apply adds_bind; [now apply adds_call|]. intros _. apply adds_ret.
  - unfold readFile. apply adds_resolve.
    apply adds_bind; [now apply adds_call|]. intros content.
    apply adds_bind; [now apply adds_call|]. intros st. apply adds_ret.
  - unfold editFile. apply adds_resolve.
    apply adds_bind; [now apply adds_call|]. intros content.
    destruct (negb _); [apply adds_throw|].
    apply adds_bind; [now apply adds_call|]. intros _. apply adds_ret.
  - unfold deleteFile. apply adds_resolve.
    apply adds_bind; [now apply adds_call|]. intros _. apply adds_ret.
  - unfold createDirectory. apply adds_resolve.
    apply adds_bind; [apply adds_call; simpl; now left|]. intros _.
    apply adds_ret.
  - unfold listDirectory. apply adds_resolve.
    apply adds_bind; [now apply adds_call|]. intros entries.
    apply adds_bind; [|intros items; apply adds_ret].
    apply adds_promise_all, List.Forall_map, List.Forall_forall.
    intros entry _.
    apply adds_bind; [now apply adds_call|]. intros st. apply adds_ret.
  - unfold getDirectoryTree. apply adds_resolve.
    destruct (_ <? 0)%Z; [apply adds_ret|].
    apply adds_bind; [|intros t; apply adds_ret].
    now apply (adds_build _ (on_readdir a)).
Qed.

End Traces.

Lemma directory_tree_depth_witness :
  exists items w',
    on_endless (DirectoryTree None (Some 2%Z)) []
      = (Returns (Tree "." (Some items)), w') /\
    Forall (fun i => item_depth i <= 3) items.
Proof.
  eexists _, _. split; [vm_compute; reflexivity|].
  refine (proj2 (directory_tree_depth log
                   (fun p w => (on_readdir endless w p, w ++ [Readdir p]))
                   posix_resolve posix_join "/workspace" "." 2%Z []
                   "." (Some _) _ _)).
  vm_compute. reflexivity.
Defined.

Lemma list_directory_entries_witness :
  exists entries w1,
    on_readdir endless [] "/workspace" = Returns entries /\
    stats_in_turn
      (fun p w => (on_stat endless w p, w ++ [Stat p]))
      posix_join "/workspace" entries w1
      [mkListed "d" "directory" 4 "1970-01-01T00:00:00.000Z";
       mkListed "f" "file" 4 "1970-01-01T00:00:00.000Z"]
      [Readdir "/workspace"; Stat "/workspace/d"; Stat "/workspace/f"].
Proof.
  assert (H : listDirectory log
                (fun p w => (on_stat endless w p, w ++ [Stat p]))
                (fun p w => (on_readdir endless w p, w ++ [Readdir p]))
                posix_resolve posix_join "/workspace" "." []
              = (Returns
                   (Listing "."
                      [mkListed "d" "directory" 4 "1970-01-01T00:00:00.000Z";
                       mkListed "f" "file" 4 "1970-01-01T00:00:00.000Z"]),
                 [Readdir "/workspace"; Stat "/workspace/d";
                  Stat "/workspace/f"]))
    by (vm_compute; reflexivity).
  apply (list_directory_entries log _ _ posix_resolve posix_join
           "/workspace" ".") in H.
  destruct H as (_ & _ & entries & w1 & Hr & Hturn).
  exists entries, w1. split; [|exact Hturn].
  now injection Hr as <- _.
Defined.

Lemma edit_fulfilled_iff_witness :
  on_endless (EditFile "a.txt" "missing" "new") []
  = (Throws "Old text not found in file", [ReadFileAt "/workspace/a.txt"]).
Proof.
  apply (proj1 (proj1 (proj2
           (edit_fulfilled_iff log
              (fun p content w => (on_writeFile endless w p content,
                                   w ++ [WriteFileAt p content]))
              (fun p w => (on_readFile endless w p, w ++ [ReadFileAt p]))
              posix_resolve string_includes replace_first "/workspace"
              "a.txt" "missing" "new" [] (Succeeded "a.txt") []))
           eq_refl) "text" [ReadFileAt "/workspace/a.txt"]);
    reflexivity.
Defined.

Lemma looking_never_writes_witness :
  exists added,
    snd (on_endless (DirectoryTree None (Some 1%Z)) []) = [] ++ added /\
    Forall (fun e => reads_only e = true) added.
Proof.
  apply (looking_never_writes endless posix_resolve posix_dirname
           posix_join string_includes replace_first "/workspace"
           (DirectoryTree None (Some 1%Z)) []).
  reflexivity.
Defined.

End FilesystemMore.

(* ===================================================================== *)
(** ** More on the tool dispatcher                                        *)
(* ===================================================================== *)

Module DispatchMore.

Import Dispatch.

Lemma switch_some {A} (labels : list (string * A)) name :
  In name (map fst labels) ->
  exists a, switch labels name = Some a /\ In (name, a) labels.
Proof.
  induction labels as [|[label a] rest IH]; simpl; [intros []|].
  intros H. destruct (String.eqb_spec name label) as [->|Hne].
  - exists a. split; [reflexivity | now left].
  - destruct H as [H|H]; [now subst|].
    destruct (IH H) as (b & Hb & Hin). exists b. split; [exact Hb|now right].
Qed.

Lemma labels_are_distinct : List.NoDup (map fst cases).
Proof.
  apply (List.NoDup_count_occ' String.string_dec). intros name Hin.
  simpl in Hin.
  repeat (destruct Hin as [<-|Hin]; [reflexivity|]). destruct Hin.
Qed.

Lemma one_case_per_label {A} (labels : list (string * A)) name a b :
  List.NoDup (map fst labels) ->
  In (name, a) labels -> In (name, b) labels -> a = b.
Proof.
  intros Hnd Ha Hb.
  pose proof (SessionsTheory.nodup_map_injective fst labels _ _ Hnd Ha Hb
                eq_refl) as E.
  congruence.
Qed.

(** X17.  A registered name is dispatched to the one case that carries it:
    the handler runs the body of that tool and nothing else, returns its
    text unflagged when the body returns, and returns "Error: " followed by
    the message, flagged [isError], when the body throws; the state is the
    one the body left, also when it threw. *)
Theorem registered_tool_runs_its_case
    {world arguments : Type}
    (body : tool -> arguments -> world -> outcome string * world)
    (name : string) (args : arguments) (w : world) :
  In name registered_tools ->
  exists t,
    In (name, t) cases /\
    (forall t', In (name, t') cases -> t' = t) /\
    call_tool world arguments body name args w =
      (Returns
         match fst (body t args w) with
         | Returns text => mkResult [mkItem "text" text] false
         | Throws message =>
             mkResult [mkItem "text" ("Error: " +:+ message)] true
         end,
       snd (body t args w)).
Proof.
  intros Hreg. rewrite <- DispatchTheory.cases_are_registered in Hreg.
  destruct (switch_some cases name Hreg) as (t & Hsw & Hin).
  exists t. split; [exact Hin|]. split.
  - intros t' Hin'.
    exact (one_case_per_label cases name t' t labels_are_distinct Hin' Hin).
  - unfold call_tool, try_block. rewrite Hsw.
    destruct (body t args w) as [[text|message] w']; reflexivity.
Qed.

Lemma registered_tool_runs_its_case_witness :
  exists t,
    In ("memory_recall", t) cases /\
    (forall t', In ("memory_recall", t') cases -> t' = t) /\
    call_tool nat unit
      (fun t _ w => match t with
                    | memory_recall => (Throws "Entity not found", S w)
                    | _ => (Returns "{}", w)
                    end)
      "memory_recall" tt 0 =
      (Returns
         match fst (Throws "Entity not found", 1) with
         | Returns text => mkResult [mkItem "text" text] false
         | Throws message =>
             mkResult [mkItem "text" ("Error: " +:+ message)] true
         end,
       1).
Proof.
  destruct (registered_tool_runs_its_case
              (fun t (_ : unit) w =>
                 match t with
                 | memory_recall => (Throws "Entity not found", S w)
                 | _ => (Returns "{}", w)
                 end)
              "memory_recall" tt 0) as (t & Hin & Hone & Hcall).
  - simpl. do 9 right. now left.
  - exists t. split; [exact Hin|]. split; [exact Hone|].
    rewrite Hcall.
    assert (In ("memory_recall", memory_recall) cases) as Hmr
      by (simpl; do 9 right; now left).
    now rewrite <- (Hone _ Hmr).
Defined.

End DispatchMore.

(* ===================================================================== *)
(** ** More on the session registry                                       *)
(* ===================================================================== *)

Module SessionsMore.

Import Sessions.
Import SessionsTheory.

(** X18.  A session ends only by a DELETE that carries its id: whatever
    else the routes do, in any interleaving and for any length of time, a
    registered id stays registered with the same server and transport.
    Nothing in the code expires or evicts a session. *)
Theorem session_lives_until_deleted
    (st : state) (l : list step) (id : string) (s : session) :
  coherent st ->
  collision_free l st ->
  sessions st !! id = Some s ->
  Forall (fun a => a <> Delete (Some id)) l ->
  sessions (run l st) !! id = Some s.
Proof.
  revert st. induction l as [|a l IH]; intros st Hco Hcf Hs Hl;
    [assumption|].
  destruct Hcf as [Ha Hcf]. apply Forall_cons_iff in Hl.
  destruct Hl as [Hna Hl]. apply IH; try assumption.
  - apply exec_coherent; [assumption | now split].
  - now apply exec_keeps_session.
Qed.

Lemma session_lives_until_deleted_witness :
  sessions (run Samples.afterwards (run Samples.opening init)) !! "s-1"
    = Some (mkSession 1 0).
Proof.
  apply (session_lives_until_deleted (run Samples.opening init)
           Samples.afterwards "s-1" (mkSession 1 0)).
  - apply run_coherent; [apply init_coherent | collision_free_here].
  - collision_free_here.
  - vm_compute. reflexivity.
  - repeat constructor; discriminate.
Defined.

End SessionsMore.

(* ===================================================================== *)
(** ** The Railway tools                                                  *)
(* ===================================================================== *)

Module RailwayTheory.

Import JsValue.
Import Http.
Import Railway.

Section Api.

Variable Net : Type.
Variable fetch : request -> Net -> outcome response * Net.
Variable RAILWAY_TOKEN : option string.
Variable JSON_stringify : value -> string.
Variable ToString : value -> string.

Local Abbreviation tool :=
  (railway_tool Net fetch RAILWAY_TOKEN JSON_stringify ToString).
Local Abbreviation graphql :=
  (railwayGraphQL Net fetch RAILWAY_TOKEN JSON_stringify ToString).
Local Abbreviation token := (getRailwayToken RAILWAY_TOKEN).

(** The one request [railwayGraphQL] makes. *)
Local Abbreviation post query variables :=
  (mkRequest RAILWAY_API_URL "POST" ("Bearer " +:+ token)
     "application/json"
     (Some (JSON_stringify
              (Obj [("query", Str query); ("variables", variables)])))).

Lemma graphql_without_token query variables w :
  truthy token = false ->
  graphql query variables w
    = (Throws "RAILWAY_TOKEN environment variable is not set", w).
Proof. intros H. unfold railwayGraphQL. now rewrite H. Qed.

Lemma graphql_with_token query variables w :
  truthy token = true ->
  graphql query variables w =
    match fetch (post query variables) w with
    | (Returns response, w1) =>
        (and_then (res_json response) (graphql_result ToString), w1)
    | (Throws message, w1) => (Throws message, w1)
    end.
Proof.
  intros H. unfold railwayGraphQL. rewrite H. simpl.
  unfold Filesystem.bind, settle.
  destruct (fetch _ w) as [[response|message] w1]; [|reflexivity].
  now destruct (res_json response).
Qed.

Lemma graphql_answered query variables w response data :
  truthy token = true ->
  (forall r, fst (fetch r w) = Returns response) ->
  res_json response = Returns data ->
  exists w1,
    graphql query variables w = (graphql_result ToString data, w1).
Proof.
  intros Ht Hfetch Hjson. rewrite graphql_with_token by assumption.
  specialize (Hfetch (post query variables)).
  destruct (fetch _ w) as [[r|m] w1]; simpl in Hfetch; [|discriminate].
  injection Hfetch as ->. exists w1. now rewrite Hjson.
Qed.

(** Every tool is one call of [railwayGraphQL] followed by a reshaping of
    what it returned. *)
Lemma tool_after_graphql (c : railway_call) :
  exists query variables (shape : value -> outcome value),
    tool c = Filesystem.bind Net (graphql query variables)
               (fun data => settle Net (shape data)).
Proof.
  destruct c; simpl;
    unfold railwayGetProjects, railwayCreateProject, railwayCreateService,
      railwayDeploy, railwayGenerateDomain, railwaySetVariables,
      railwayGetDeployments;
    match goal with
    | |- context [graphql ?q ?v] => exists q, v
    end;
    eexists; reflexivity.
Qed.

(** X19.  Without a Railway token no tool reaches the network: when
    [RAILWAY_TOKEN] is unset or empty, every [railway_*] tool throws
    "RAILWAY_TOKEN environment variable is not set" whatever its
    arguments, before any request is made. *)
Theorem railway_needs_a_token (c : railway_call) (w : Net) :
  RAILWAY_TOKEN = None \/ RAILWAY_TOKEN = Some "" ->
  tool c w = (Throws "RAILWAY_TOKEN environment variable is not set", w).
Proof.
  intros H.
  assert (truthy token = false) as Ht by (now destruct H as [->| ->]).
  destruct (tool_after_graphql c) as (query & variables & shape & ->).
  unfold Filesystem.bind. now rewrite graphql_without_token.
Qed.

(** X21.  A GraphQL error wins over whatever else the response holds: when
    the parsed response has an [errors] array whose first element has the
    text [m] as its [message], every [railway_*] tool throws [m], also
    when the response carries data. *)
Theorem graphql_errors_are_thrown (c : railway_call) (w : Net)
    (response : response) (data error : value) (rest : list value)
    (m : string) :
  truthy token = true ->
  (forall r, fst (fetch r w) = Returns response) ->
  res_json response = Returns data ->
  read data "errors" = Returns (Arr (error :: rest)) ->
  read error "message" = Returns (Str m) ->
  fst (tool c w) = Throws m.
Proof.
  intros Ht Hfetch Hjson Herrors Hmessage.
  destruct (tool_after_graphql c) as (query & variables & shape & ->).
  destruct (graphql_answered query variables w _ _ Ht Hfetch Hjson)
    as [w1 E].
  unfold Filesystem.bind. rewrite E. unfold graphql_result.
  rewrite Herrors. simpl. now rewrite Hmessage.
Qed.

(** X22.  [railway_set_variables] reports success for every response that
    parses to a JSON value other than [null] without a truthy [errors]:
    neither the HTTP status nor [data] is looked at, so the answer to an
    unauthorised request counts as success.  [railway_deploy] does the
    same as soon as [data] is an object, with the [deploymentId] left
    [undefined] when [data] has none. *)
Theorem success_without_confirmation
    (serviceId environmentId variables : value) (w : Net)
    (response : response) (data errors : value) :
  truthy token = true ->
  (forall r, fst (fetch r w) = Returns response) ->
  res_json response = Returns data ->
  read data "errors" = Returns errors ->
  truthy_value errors = false ->
  fst (tool (SetVariables serviceId environmentId variables) w)
    = Returns (Obj [("success", Boolean true)]) /\
  (forall fields,
     read data "data" = Returns (Obj fields) ->
     fst (tool (Deploy serviceId environmentId) w)
       = Returns (Obj [("success", Boolean true);
                       ("deploymentId",
                        lookup fields "serviceInstanceDeploy")])).
Proof.
  intros Ht Hfetch Hjson Herrors Hfalsy.
  assert (exists d, read data "data" = Returns d) as [d Hd].
  { destruct data; try discriminate; eexists; reflexivity. }
  split; [|intros fields Hfields]; simpl;
    unfold railwaySetVariables, railwayDeploy, Filesystem.bind;
    match goal with
    | |- context [graphql ?q ?v w] =>
        destruct (graphql_answered q v w _ _ Ht Hfetch Hjson) as [w1 E];
        rewrite E
    end;
    unfold graphql_result; rewrite Herrors; simpl; rewrite Hfalsy.
  - now rewrite Hd.
  - now rewrite Hfields.
Qed.

Lemma nodes_of_connection (expr : string) (v : value) (ns : list value) :
  connection v ns ->
  and_then (read v "edges") (nodes expr) = Returns (Arr ns).
Proof.
  intros (es & -> & Hall). simpl. unfold nodes. simpl.
  assert (each (fun e => read e "node") es = Returns ns) as ->; [|easy].
  induction Hall as [|e n es ns He _ IH]; [reflexivity|].
  simpl. rewrite He. simpl. now rewrite IH.
Qed.

(** X23.  [railway_list_projects] gives one project for each edge of
    [data.me.projects], in the order of the edges: the fields of the
    edge's node in their order, with [environments] and [services]
    replaced, in place, by the plain arrays of the nodes of these two
    connections. *)
Theorem list_projects_flattens (w : Net) (response : response)
    (data errors d me projects : value) (es items : list value) :
  truthy token = true ->
  (forall r, fst (fetch r w) = Returns response) ->
  res_json response = Returns data ->
  read data "errors" = Returns errors ->
  truthy_value errors = false ->
  read data "data" = Returns d ->
  read d "me" = Returns me ->
  read me "projects" = Returns projects ->
  read projects "edges" = Returns (Arr es) ->
  Forall2
    (fun e item =>
       exists fields environments services,
         read e "node" = Returns (Obj fields) /\
         connection (lookup fields "environments") environments /\
         connection (lookup fields "services") services /\
         item = Obj (assign (assign fields "environments" (Arr environments))
                       "services" (Arr services)))
    es items ->
  fst (tool ListProjects w) = Returns (Arr items).
Proof.
  intros Ht Hfetch Hjson Herrors Hfalsy Hd Hme Hprojects Hedges Hall.
  simpl. unfold railwayGetProjects, Filesystem.bind.
  destruct (graphql_answered projects_query (Obj []) w _ _ Ht Hfetch Hjson)
    as [w1 E].
  rewrite E. unfold graphql_result.
  rewrite Herrors. simpl. rewrite Hfalsy, Hd. unfold settle.
  rewrite Hme. simpl. rewrite Hprojects. simpl. rewrite Hedges. simpl.
  match goal with
  | |- and_then (each ?f es) _ = _ =>
      assert (each f es = Returns items) as ->; [|reflexivity]
  end.
  clear Hedges.
  induction Hall as [|e item es' items' He _ IH]; [reflexivity|].
  destruct He as (fields & envs & svcs & Hnode & Henv & Hsvc & ->).
  cbn [each]. rewrite Hnode. cbn [and_then read].
  pose proof (nodes_of_connection "e.node.environments.edges" _ _ Henv)
    as Henv'.
  pose proof (nodes_of_connection "e.node.services.edges" _ _ Hsvc)
    as Hsvc'.
  destruct (read (lookup fields "environments") "edges") as [ee|];
    [|discriminate].
  cbn [and_then] in Henv' |- *. rewrite Henv'. cbn [and_then].
  destruct (read (lookup fields "services") "edges") as [se|];
    [|discriminate].
  cbn [and_then] in Hsvc' |- *. rewrite Hsvc'. cbn [and_then spread].
  now rewrite IH.
Qed.

End Api.

(** Every tool is one call of [railwayGraphQL] followed by a reshaping of
    what it returned, the same reshaping on every network. *)
Lemma tool_shape (c : railway_call) :
  exists query variables (shape : value -> outcome value),
    forall (Net : Type) (fetch : request -> Net -> outcome response * Net)
           (RAILWAY_TOKEN : option string)
           (JSON_stringify ToString : value -> string),
      railway_tool Net fetch RAILWAY_TOKEN JSON_stringify ToString c
      = Filesystem.bind Net
          (railwayGraphQL Net fetch RAILWAY_TOKEN JSON_stringify ToString
             query variables)
          (fun data => settle Net (shape data)).
Proof.
  destruct c; eexists _, _, _; intros Net fetch RAILWAY_TOKEN
    JSON_stringify ToString; reflexivity.
Qed.

(** X20.  With a token, every [railway_*] tool makes exactly one request,
    whatever comes back: a POST to the Railway GraphQL URL that carries the
    token as a bearer and a body of a query and its variables.  What the
    tool makes of the response is fixed before any request is made and
    looks at the parsed JSON alone, GraphQL errors first: on no network,
    for no response, is the HTTP status looked at. *)
Theorem railway_tools_post_once
    (RAILWAY_TOKEN : option string) (c : railway_call) :
  truthy (getRailwayToken RAILWAY_TOKEN) = true ->
  exists query variables (shape : value -> outcome value),
    forall (Net : Type) (fetch : request -> Net -> outcome response * Net)
           (JSON_stringify ToString : value -> string) (w : Net),
      railway_tool Net fetch RAILWAY_TOKEN JSON_stringify ToString c w =
        match
          fetch (mkRequest RAILWAY_API_URL "POST"
                   ("Bearer " +:+ getRailwayToken RAILWAY_TOKEN)
                   "application/json"
                   (Some (JSON_stringify
                            (Obj [("query", Str query);
                                  ("variables", variables)])))) w
        with
        | (Returns response, w1) =>
            (and_then (res_json response) (fun data =>
             and_then (graphql_result ToString data) shape), w1)
        | (Throws message, w1) => (Throws message, w1)
        end.
Proof.
  intros Ht.
  destruct (tool_shape c) as (query & variables & shape & Htool).
  exists query, variables, shape.
  intros Net fetch JSON_stringify ToString w. rewrite Htool.
  unfold Filesystem.bind. rewrite graphql_with_token by assumption.
  destruct (fetch _ w) as [[response|message] w1]; [|reflexivity].
  destruct (res_json response) as [data|message]; [|reflexivity].
  simpl. now destruct (graphql_result ToString data).
Qed.

Lemma railway_needs_a_token_witness :
  railway_tool (list request)
    (Wire.recording (Wire.json_answer true Wire.two_projects))
    (Some "") Wire.sketch Wire.sketch ListProjects []
  = (Throws "RAILWAY_TOKEN environment variable is not set", []).
Proof.
  apply (railway_needs_a_token (list request)
           (Wire.recording (Wire.json_answer true Wire.two_projects))
           (Some "") Wire.sketch Wire.sketch ListProjects []).
  now right.
Defined.

Lemma railway_tools_post_once_witness :
  exists query variables (shape : value -> outcome value),
    railway_tool (list request)
      (Wire.recording (Wire.json_answer true Wire.two_projects))
      (Some "t-1") Wire.sketch Wire.sketch
      (Deploy (Str "s-1") (Str "e-1")) []
    = match
        Wire.recording (Wire.json_answer true Wire.two_projects)
          (mkRequest RAILWAY_API_URL "POST" "Bearer t-1" "application/json"
             (Some (Wire.sketch
                      (Obj [("query", Str query);
                            ("variables", variables)])))) []
      with
      | (Returns response, w1) =>
          (and_then (res_json response) (fun data =>
           and_then (graphql_result Wire.sketch data) shape), w1)
      | (Throws message, w1) => (Throws message, w1)
      end.
Proof.
  destruct (railway_tools_post_once (Some "t-1")
              (Deploy (Str "s-1") (Str "e-1")) eq_refl)
    as (query & variables & shape & H).
  exists query, variables, shape.
  apply (H (list request)
           (Wire.recording (Wire.json_answer true Wire.two_projects))
           Wire.sketch Wire.sketch []).
Defined.

Lemma graphql_errors_are_thrown_witness :
  fst (railway_tool (list request)
         (Wire.recording (Wire.json_answer true Wire.failed))
         (Some "t-1") Wire.sketch Wire.sketch
         (Deploy (Str "s-1") (Str "e-1")) [])
  = Throws "Service not found".
Proof.
  apply (graphql_errors_are_thrown (list request)
           (Wire.recording (Wire.json_answer true Wire.failed))
           (Some "t-1") Wire.sketch Wire.sketch
           (Deploy (Str "s-1") (Str "e-1")) []
           (mkResponse true (Returns "") (Returns Wire.failed))
           Wire.failed
           (Obj [("message", Str "Service not found")]) []
           "Service not found").
  - reflexivity.
  - intros r. reflexivity.
  - reflexivity.
  - reflexivity.
  - reflexivity.
Defined.

Lemma success_without_confirmation_witness :
  fst (railway_tool (list request)
         (Wire.recording (Wire.json_answer false Wire.unauthorized))
         (Some "t-1") Wire.sketch Wire.sketch
         (SetVariables (Str "s-1") (Str "e-1")
            (Obj [("PORT", Str "8080")])) [])
  = Returns (Obj [("success", Boolean true)]).
Proof.
  apply (success_without_confirmation (list request)
           (Wire.recording (Wire.json_answer false Wire.unauthorized))
           (Some "t-1") Wire.sketch Wire.sketch
           (Str "s-1") (Str "e-1") (Obj [("PORT", Str "8080")]) []
           (mkResponse false (Returns "") (Returns Wire.unauthorized))
           Wire.unauthorized Undefined).
  - reflexivity.
  - intros r. reflexivity.
  - reflexivity.
  - reflexivity.
  - reflexivity.
Defined.

Lemma list_projects_flattens_witness :
  fst (railway_tool (list request)
         (Wire.recording (Wire.json_answer true Wire.two_projects))
         (Some "t-1") Wire.sketch Wire.sketch ListProjects [])
  = Returns
      (Arr [Obj [("id", Str "p-1"); ("name", Str "api");
                 ("environments", Arr [Obj [("id", Str "e-1")]]);
                 ("services", Arr [])];
            Obj [("id", Str "p-2"); ("environments", Arr []);
                 ("services", Arr [])]]).
Proof.
  eapply (list_projects_flattens (list request)
            (Wire.recording (Wire.json_answer true Wire.two_projects))
            (Some "t-1") Wire.sketch Wire.sketch []
            (mkResponse true (Returns "") (Returns Wire.two_projects))
            Wire.two_projects Undefined).
  - reflexivity.
  - intros r. reflexivity.
  - reflexivity.
  - reflexivity.
  - reflexivity.
  - reflexivity.
  - reflexivity.
  - reflexivity.
  - reflexivity.
  - constructor; [|constructor; [|constructor]].
    + eexists _, [Obj [("id", Str "e-1")]], [].
      split; [reflexivity|]. split; [|split; [|reflexivity]].
      * eexists. split; [reflexivity|]. constructor; [reflexivity|].
        constructor.
      * eexists. split; [reflexivity|]. constructor.
    + eexists _, [], [].
      split; [reflexivity|]. split; [|split; [|reflexivity]].
      * eexists. split; [reflexivity|]. constructor.
      * eexists. split; [reflexivity|]. constructor.
Defined.

End RailwayTheory.

(* ===================================================================== *)
(** ** The Supabase tools                                                 *)
(* ===================================================================== *)

Module SupabaseTheory.

Import JsValue.
Import Http.
Import Supabase.

Section Api.

Variable Net : Type.
Variable fetch : request -> Net -> outcome response * Net.
Variable SUPABASE_TOKEN : option string.
Variable JSON_stringify : value -> string.
Variable ToString : value -> string.

Local Abbreviation tool :=
  (supabase_tool Net fetch SUPABASE_TOKEN JSON_stringify ToString).
Local Abbreviation request_to :=
  (supabaseRequest Net fetch SUPABASE_TOKEN JSON_stringify).
Local Abbreviation token := (getSupabaseToken SUPABASE_TOKEN).

(** What [supabaseRequest] makes of a response. *)
Local Abbreviation answer response :=
  (if res_ok response then res_json response
   else match res_text response with
        | Returns error => Throws ("Supabase API error: " +:+ error)
        | Throws message => Throws message
        end).

Lemma request_without_token endpoint method body w :
  truthy token = false ->
  request_to endpoint method body w
    = (Throws "SUPABASE_TOKEN environment variable is not set", w).
Proof. intros H. unfold supabaseRequest. now rewrite H. Qed.

Lemma request_with_token endpoint method body w :
  truthy token = true ->
  request_to endpoint method body w =
    match
      fetch (mkRequest (SUPABASE_API_URL +:+ endpoint) method
               ("Bearer " +:+ token) "application/json"
               (if truthy_value body then Some (JSON_stringify body)
                else None)) w
    with
    | (Returns response, w1) => (answer response, w1)
    | (Throws message, w1) => (Throws message, w1)
    end.
Proof.
  intros H. unfold supabaseRequest. rewrite H. simpl.
  unfold Filesystem.bind, settle.
  destruct (fetch _ w) as [[response|message] w1]; [|reflexivity].
  destruct (res_ok response); [reflexivity|]. simpl.
  now destruct (res_text response).
Qed.

(** Every tool is one call of [supabaseRequest], unless the columns of a
    table cannot be put into words. *)
Lemma tool_is_one_request (c : supabase_call) :
  (exists endpoint method body,
     (method = "GET" /\ body = Null \/
      method = "POST" /\ exists payload, body = Obj payload) /\
     tool c = request_to endpoint method body) \/
  (exists projectRef tableName columns message,
     c = CreateTable projectRef tableName columns /\
     array_map "columns" columns (column_def ToString) = Throws message /\
     forall w, tool c w = (Throws message, w)).
Proof.
  destruct c as [|p|n o pw r| |p s|p|p t cols]; simpl;
    unfold supabaseGetProjects, supabaseGetProject, supabaseCreateProject,
      supabaseGetOrganizations, supabaseGetTables, supabaseRunSQL.
  1,2,4: left; eexists _, _, _; split; [left; split; reflexivity|];
    reflexivity.
  1,2,3: left; eexists _, _, _;
    (split; [right; split; [reflexivity|]; eexists; reflexivity|]);
    reflexivity.
  unfold supabaseCreateTable.
  destruct (array_map "columns" cols (column_def ToString))
    as [defs|message] eqn:E.
  - left. eexists _, _, _.
    split; [right; split; [reflexivity|]; eexists; reflexivity|].
    unfold Filesystem.bind, settle, supabaseRunSQL. reflexivity.
  - right. exists p, t, cols, message. split; [reflexivity|].
    split; [exact E|]. intros w. reflexivity.
Qed.

(** X24.  Without a Supabase token no tool reaches the network: when
    [SUPABASE_TOKEN] is unset or empty, every [supabase_*] tool throws
    before any request is made, and what it throws is "SUPABASE_TOKEN
    environment variable is not set", except that [supabase_create_table]
    first puts its columns into words and throws the error of that when it
    fails. *)
Theorem supabase_needs_a_token (c : supabase_call) (w : Net) :
  SUPABASE_TOKEN = None \/ SUPABASE_TOKEN = Some "" ->
  exists message,
    tool c w = (Throws message, w) /\
    ((forall projectRef tableName columns,
        c = CreateTable projectRef tableName columns ->
        exists defs,
          array_map "columns" columns (column_def ToString) = Returns defs) ->
     message = "SUPABASE_TOKEN environment variable is not set").
Proof.
  intros H.
  assert (truthy token = false) as Ht by (now destruct H as [->| ->]).
  destruct (tool_is_one_request c)
    as [(endpoint & method & body & _ & ->)
       |(p & t & cols & message & -> & Hcols & ->)].
  - eexists. split; [now apply request_without_token|]. reflexivity.
  - exists message. split; [reflexivity|]. intros Hfine.
    destruct (Hfine _ _ _ eq_refl) as [defs Hdefs]. congruence.
Qed.

(** X25.  With a token, every [supabase_*] tool makes exactly one request,
    to a URL under the Supabase API base, with the token as a bearer: a GET
    without a body, or a POST whose body is a JSON object.  A response that
    is not [ok] is thrown as "Supabase API error: " followed by its text;
    otherwise the parsed JSON is returned as it is.  Only
    [supabase_create_table] can fail before the request, on columns it
    cannot put into words, and then makes none. *)
Theorem supabase_tools_request_once (c : supabase_call) (w : Net) :
  truthy token = true ->
  (exists endpoint method body,
     (method = "GET" /\ body = None \/
      method = "POST" /\
      exists payload, body = Some (JSON_stringify (Obj payload))) /\
     tool c w =
       match
         fetch (mkRequest (SUPABASE_API_URL +:+ endpoint) method
                  ("Bearer " +:+ token) "application/json" body) w
       with
       | (Returns response, w1) => (answer response, w1)
       | (Throws message, w1) => (Throws message, w1)
       end) \/
  (exists projectRef tableName columns message,
     c = CreateTable projectRef tableName columns /\
     array_map "columns" columns (column_def ToString) = Throws message /\
     tool c w = (Throws message, w)).
Proof.
  intros Ht.
  destruct (tool_is_one_request c)
    as [(endpoint & method & body & Hshape & ->)
       |(p & t & cols & message & -> & Hcols & Hthrows)].
  - left. rewrite request_with_token by assumption.
    exists endpoint, method. eexists. split; [|reflexivity].
    destruct Hshape as [[-> ->]|[-> [payload ->]]].
    + left. now split.
    + right. split; [reflexivity|]. now exists payload.
  - right. exists p, t, cols, message. now rewrite Hthrows.
Qed.

End Api.

Lemma supabase_needs_a_token_witness :
  exists message,
    supabase_tool (list request)
      (Wire.recording (Wire.json_answer true (Arr [])))
      None Wire.sketch Wire.sketch
      (RunSql (Str "ref-1") (Str "select 1")) []
    = (Throws message, []) /\
    ((forall projectRef tableName columns,
        RunSql (Str "ref-1") (Str "select 1")
          = CreateTable projectRef tableName columns ->
        exists defs,
          array_map "columns" columns (column_def Wire.sketch)
            = Returns defs) ->
     message = "SUPABASE_TOKEN environment variable is not set").
Proof.
  apply (supabase_needs_a_token (list request)
           (Wire.recording (Wire.json_answer true (Arr [])))
           None Wire.sketch Wire.sketch
           (RunSql (Str "ref-1") (Str "select 1")) []).
  now left.
Defined.

Lemma supabase_tools_request_once_witness :
  fst (supabase_tool (list request)
         (Wire.recording
            (fun _ => Returns (mkResponse false (Returns "not allowed")
                                 (Returns Null))))
         (Some "t-2") Wire.sketch Wire.sketch
         (GetProject (Str "ref-1")) [])
  = Throws "Supabase API error: not allowed".
Proof.
  destruct (supabase_tools_request_once (list request)
              (Wire.recording
                 (fun _ => Returns (mkResponse false (Returns "not allowed")
                                      (Returns Null))))
              (Some "t-2") Wire.sketch Wire.sketch
              (GetProject (Str "ref-1")) [] eq_refl)
    as [(endpoint & method & body & _ & ->)
       |(p & t & cols & message & Hc & _)].
  - reflexivity.
  - discriminate.
Defined.

End SupabaseTheory.
